(** * luppa: entity-relationship graph and suspicious-pattern detection

    A shallow embedding of [src/config.py], [src/main.py] and [src/app.py].

    The analyzer object of the source holds three mutable attributes:
    [self.graph] (a [networkx.Graph]), [self.entities] (a dict from entity id
    to the entity record) and [self.relationships] (a list).  Methods that
    mutate [self] are functions from the analyzer value to the new analyzer
    value; a raised Python exception is an explicit outcome.  Python dicts
    keep insertion order and that order is observable here (it fixes the
    order of the findings), so a dict is an association list with unique
    keys. *)

From Stdlib Require Import String List ZArith Bool Arith Lia Permutation.
From Stdlib Require Import Floats.SpecFloat.
Import ListNotations.
Open Scope string_scope.
Open Scope list_scope.

Set Implicit Arguments.

(** ** Python dicts with string keys *)

Module Dict.

Definition t (V : Type) : Type := list (string * V).

(** [d.get(k)] *)
Fixpoint get {V} (k : string) (d : t V) : option V :=
  match d with
  | [] => None
  | (k', v) :: d' => if String.eqb k k' then Some v else get k d'
  end.

(** [k in d] *)
Definition mem {V} (k : string) (d : t V) : bool :=
  match get k d with Some _ => true | None => false end.

(** [d.get(k, default)] with the default already evaluated *)
Definition get_default {V} (k : string) (d : t V) (default : V) : V :=
  match get k d with Some v => v | None => default end.

(** [d[k] = v]: an existing key keeps its position, a new key goes last *)
Fixpoint set {V} (k : string) (v : V) (d : t V) : t V :=
  match d with
  | [] => [(k, v)]
  | (k', v') :: d' =>
      if String.eqb k k' then (k', v) :: d' else (k', v') :: set k v d'
  end.

(** [d.update(other)] *)
Definition update {V} (d other : t V) : t V :=
  fold_left (fun acc kv => set (fst kv) (snd kv) acc) other d.

Definition keys {V} (d : t V) : list string := map fst d.

Definition values {V} (d : t V) : list V := map snd d.

End Dict.

(** [x in l] for a list of strings *)
Definition mem_string (x : string) (l : list string) : bool :=
  existsb (String.eqb x) l.

(** ** Exceptions *)

Inductive exception : Type :=
| KeyError (key : string)
| TypeError (keyword : string)
| ZeroDivisionError
| MemoryError.

Inductive result (A : Type) : Type :=
| Ok (a : A)
| Raise (e : exception).

Arguments Ok {A} a.
Arguments Raise {A} e.

Definition bind {A B} (r : result A) (k : A -> result B) : result B :=
  match r with
  | Ok a => k a
  | Raise e => Raise e
  end.

Notation "x <- c ;; k" := (bind c (fun x => k))
  (at level 61, c at next level, right associativity).

(** [d[k]] *)
Definition subscript {V} (d : Dict.t V) (k : string) : result V :=
  match Dict.get k d with
  | Some v => Ok v
  | None => Raise (KeyError k)
  end.

(** A list comprehension [[f(x) for x in l]] whose body can raise. *)
Fixpoint mapM {A B} (f : A -> result B) (l : list A) : result (list B) :=
  match l with
  | [] => Ok []
  | x :: l' => y <- f x ;; ys <- mapM f l' ;; Ok (y :: ys)
  end.

(** ** Python floats: IEEE 754 binary64

    The operations are the ones of the standard library's [SpecFloat] at
    precision 53, round to nearest even.  [x ** 2] and [x ** 0.5] go through
    the C library's [pow]; they are taken here as the correctly rounded
    square and square root, which [pow] returns for the degrees of the
    examples below but not for every input (it can be one unit in the last
    place off).  An int that meets a float in [-] or [>] is
    converted by [float()]; Python compares an int and a float exactly,
    which is the comparison of binary64 as long as the int is below 2^53,
    the range in which every int is a binary64 number. *)

Module Float64.

Definition prec : Z := 53.
Definition emax : Z := 1024.

Definition float : Type := spec_float.

Definition zero : float := S754_zero false.
Definition nan : float := S754_nan.

(** [float(n)] for an int *)
Definition of_Z (z : Z) : float := binary_normalize prec emax z 0 false.
Definition of_nat (n : nat) : float := of_Z (Z.of_nat n).

Definition add : float -> float -> float := SFadd prec emax.
Definition sub : float -> float -> float := SFsub prec emax.
Definition mul : float -> float -> float := SFmul prec emax.
Definition div : float -> float -> float := SFdiv prec emax.
Definition sqrt : float -> float := SFsqrt prec emax.
Definition ltb : float -> float -> bool := SFltb.

(** [x ** 2] *)
Definition pow2 (x : float) : float := mul x x.
(** [x ** 0.5] *)
Definition pow_half (x : float) : float := sqrt x.

(** [a / b] for two non-negative ints: Python rounds the exact quotient
    once (it does not convert the operands first). *)
Definition int_truediv (a b : nat) : result float :=
  match Z.of_nat b with
  | Z0 => Raise ZeroDivisionError
  | zb =>
      match Z.of_nat a with
      | Z0 => Ok zero
      | za =>
          let '(q, e, l) := SFdiv_core_binary prec emax za 0 zb 0 in
          Ok (binary_round_aux prec emax false q e l)
      end
  end.

(** A decimal literal [n/d], such as [0.8]: the nearest binary64 *)
Definition decimal (n d : Z) : float := div (of_Z n) (of_Z d).

(** [sum(xs)] of floats: additions from the int [0], left to right (as
    CPython does before 3.12, which compensates the rounding errors) *)
Definition sum (xs : list float) : float := fold_left add xs zero.

End Float64.

Arguments Float64.of_Z _ : simpl never.
Arguments Float64.of_nat _ : simpl never.
Arguments Float64.add _ _ : simpl never.
Arguments Float64.sub _ _ : simpl never.
Arguments Float64.mul _ _ : simpl never.
Arguments Float64.div _ _ : simpl never.
Arguments Float64.sqrt _ : simpl never.
Arguments Float64.ltb _ _ : simpl never.
Arguments Float64.int_truediv _ _ : simpl never.
Arguments Float64.decimal _ _ : simpl never.

(** ** Facts as the extraction step delivers them

    The JSON answer has the keys [entities] and [relationships]; every
    entity has [id], [name], [type], [attributes], every relationship has
    [source], [target], [type], [attributes]. *)

Inductive scalar : Type :=
| SStr (s : string)
| SInt (z : Z)
| SFloat (f : Float64.float)
| SBool (b : bool)
| SNull.

Definition node : Type := string.
Definition attr_dict : Type := Dict.t scalar.

Record entity : Type := {
  e_id : node;
  e_name : string;
  e_type : string;
  e_attributes : attr_dict
}.

Record relationship : Type := {
  r_source : node;
  r_target : node;
  r_type : string;
  r_attributes : attr_dict
}.

Record analysis_result : Type := {
  res_entities : list entity;
  res_relationships : list relationship
}.

(** ** networkx.Graph, as far as the analyzer uses it

    [_node] maps a node to its attribute dict, [_adj] maps a node to the
    dict of its neighbours, each with the attribute dict of the edge.  The
    class keeps both dicts on the same keys and [_adj] symmetric; there is
    one edge at most between two nodes. *)

Module Nx.

Record Graph : Type := {
  _node : Dict.t attr_dict;
  _adj : Dict.t (Dict.t attr_dict)
}.

(** [nx.Graph()] *)
Definition empty : Graph := {| _node := []; _adj := [] |}.

(** [G.add_node(n, **attr)]: a new node gets an empty neighbour dict; the
    attribute dict of the node, old or new, is updated with [attr]. *)
Definition add_node (g : Graph) (n : node) (attr : attr_dict) : Graph :=
  match Dict.get n (_node g) with
  | None =>
      {| _node := Dict.set n (Dict.update [] attr) (_node g);
         _adj := Dict.set n [] (_adj g) |}
  | Some old =>
      {| _node := Dict.set n (Dict.update old attr) (_node g);
         _adj := _adj g |}
  end.

(** The first lines of [add_edge]: an endpoint that is not a node yet is
    added with empty dicts. *)
Definition ensure_node (g : Graph) (u : node) : Graph :=
  if Dict.mem u (_node g) then g
  else {| _node := Dict.set u [] (_node g);
          _adj := Dict.set u [] (_adj g) |}.

(** [G.add_edge(u, v, **attr)]: the attribute dict of the edge, old or
    new, is updated with [attr] and stored under both directions. *)
Definition add_edge (g : Graph) (u v : node) (attr : attr_dict) : Graph :=
  let g1 := ensure_node (ensure_node g u) v in
  let adj_u := Dict.get_default u (_adj g1) [] in
  let datadict := Dict.update (Dict.get_default v adj_u []) attr in
  let adj1 := Dict.set u (Dict.set v datadict adj_u) (_adj g1) in
  let adj_v := Dict.get_default v adj1 [] in
  {| _node := _node g1;
     _adj := Dict.set v (Dict.set u datadict adj_v) adj1 |}.

(** One item of [G.degree()]: the neighbours, a self-loop twice. *)
Definition degree_of (n : node) (nbrs : Dict.t attr_dict) : nat :=
  length nbrs + (if Dict.mem n nbrs then 1 else 0).

(** [G.degree()], iterated: the pairs [(n, degree)] in node order *)
Definition degree (g : Graph) : list (node * nat) :=
  map (fun na => (fst na, degree_of (fst na) (snd na))) (_adj g).

(** [G.degree(n)] *)
Definition degree_at (g : Graph) (n : node) : nat :=
  degree_of n (Dict.get_default n (_adj g) []).

(** [G.has_edge(u, v)] *)
Definition has_edge (g : Graph) (u v : node) : bool :=
  Dict.mem v (Dict.get_default u (_adj g) []).

(** [G.edges()]: every edge once, from the endpoint that comes first *)
Fixpoint edges_from (seen : list node) (adj : Dict.t (Dict.t attr_dict))
  : list (node * node) :=
  match adj with
  | [] => []
  | (n, nbrs) :: adj' =>
      map (fun v => (n, v))
          (filter (fun v => negb (mem_string v seen)) (Dict.keys nbrs))
      ++ edges_from (n :: seen) adj'
  end.

Definition edges (g : Graph) : list (node * node) := edges_from [] (_adj g).

(** *** [nx.cycle_basis(G)]

    The function of networkx 3: the nodes still to visit are kept in a
    dict, the next root is its last key.  From each root a depth-first
    walk records for every node its tree parent [pred] and the set [used]
    of the neighbours it was reached from; an edge to a node that was
    reached before closes a cycle, which is read off the parents. *)

Record walk_state : Type := {
  stack : list node;              (* top of the stack first *)
  pred : Dict.t node;
  used : Dict.t (list node);
  cycles : list (list node)
}.

(** [while p not in pn: cycle.append(p); p = pred[p]] and the final
    [cycle.append(p)].  The parents lead to the root, which is its own
    parent: a walk that has not met [pn] after as many steps as [pred] has
    keys never will, and Python appends until memory is exhausted. *)
Fixpoint climb (fuel : nat) (pred : Dict.t node) (pn : list node)
  (p : node) (cycle : list node) : result (list node) :=
  if mem_string p pn then Ok (cycle ++ [p])
  else match fuel with
       | O => Raise MemoryError
       | S fuel' =>
           p' <- subscript pred p ;;
           climb fuel' pred pn p' (cycle ++ [p])
       end.

(** The body of [for nbr in G[z]] *)
Definition visit (z : node) (zused : list node) (st : walk_state)
  (nbr : node) : result walk_state :=
  match Dict.get nbr (used st) with
  | None =>
      Ok {| stack := nbr :: stack st;
            pred := Dict.set nbr z (pred st);
            used := Dict.set nbr [z] (used st);
            cycles := cycles st |}
  | Some pn =>
      if String.eqb nbr z then
        Ok {| stack := stack st; pred := pred st; used := used st;
              cycles := cycles st ++ [[z]] |}
      else if negb (mem_string nbr zused) then
        p <- subscript (pred st) z ;;
        cycle <- climb (length (pred st)) (pred st) pn p [nbr; z] ;;
        Ok {| stack := stack st; pred := pred st;
              used := Dict.set nbr (if mem_string z pn then pn else pn ++ [z])
                               (used st);
              cycles := cycles st ++ [cycle] |}
      else Ok st
  end.

Fixpoint visit_all (z : node) (zused : list node) (st : walk_state)
  (nbrs : list node) : result walk_state :=
  match nbrs with
  | [] => Ok st
  | nbr :: nbrs' =>
      st' <- visit z zused st nbr ;;
      visit_all z zused st' nbrs'
  end.

(** [while stack: z = stack.pop(); zused = used[z]; for nbr in G[z]: ...].
    [None] stands for a loop that is still running when the fuel is gone. *)
Fixpoint walk (fuel : nat) (g : Graph) (st : walk_state)
  : option (result walk_state) :=
  match stack st with
  | [] => Some (Ok st)
  | z :: rest =>
      match fuel with
      | O => None
      | S fuel' =>
          match subscript (used st) z with
          | Raise e => Some (Raise e)
          | Ok zused =>
              match subscript (_adj g) z with
              | Raise e => Some (Raise e)
              | Ok nbrs =>
                  match visit_all z zused
                          {| stack := rest; pred := pred st;
                             used := used st; cycles := cycles st |}
                          (Dict.keys nbrs) with
                  | Raise e => Some (Raise e)
                  | Ok st' => walk fuel' g st'
                  end
              end
          end
      end
  end.

(** Every name the graph mentions, as a node or as a neighbour *)
Definition names (g : Graph) : list node :=
  Dict.keys (_adj g) ++ flat_map (fun na => Dict.keys (snd na)) (_adj g).

(** Each turn of the loop pops one node, and a node is pushed once only
    (it enters [used] with the push): this many turns are enough. *)
Definition walk_fuel (g : Graph) : nat := 2 * length (names g) + 2.

(** [gnodes.popitem()]: the last key and the dict without it *)
Fixpoint popitem (gnodes : list node) : option (node * list node) :=
  match gnodes with
  | [] => None
  | [n] => Some (n, [])
  | n :: rest =>
      match popitem rest with
      | None => None
      | Some (r, rest') => Some (r, n :: rest')
      end
  end.

(** [while gnodes: root = gnodes.popitem()[0]; ...;
     for node in pred: gnodes.pop(node, None)] *)
Fixpoint components (fuel : nat) (g : Graph) (gnodes : list node)
  (found : list (list node)) : option (result (list (list node))) :=
  match popitem gnodes with
  | None => Some (Ok found)
  | Some (root, rest) =>
      match fuel with
      | O => None
      | S fuel' =>
          match walk (walk_fuel g) g
                  {| stack := [root]; pred := [(root, root)];
                     used := [(root, [])]; cycles := found |} with
          | None => None
          | Some (Raise e) => Some (Raise e)
          | Some (Ok st) =>
              components fuel' g
                (filter (fun n => negb (Dict.mem n (pred st))) rest)
                (cycles st)
          end
      end
  end.

Definition cycle_basis_steps (g : Graph) : option (result (list (list node))) :=
  components (length (_node g)) g (Dict.keys (_node g)) [].

(** [nx.cycle_basis(G)].  The loops end within their fuel
    ([cycle_basis_steps_total] below); the last branch is never taken. *)
Definition cycle_basis (g : Graph) : result (list (list node)) :=
  match cycle_basis_steps g with
  | Some r => r
  | None => Raise MemoryError
  end.

End Nx.

(** ** The analyzer object *)

Record analyzer : Type := {
  graph : Nx.Graph;
  entities : Dict.t entity;
  relationships : list relationship
}.

(** [__init__]: [nx.Graph()], [{}], [[]] *)
Definition init : analyzer :=
  {| graph := Nx.empty; entities := []; relationships := [] |}.

(** A call [f(x, **attributes, k1=v1, ..., kn=vn)] builds one keyword dict,
    the attributes first: an explicit keyword that the attributes have too
    is a [TypeError], for the first such keyword of the call.  The keywords
    are then bound in the order of the dict, and one that names a parameter
    of [f] filled by position already is a [TypeError], for the first such
    key.  Both are raised before [f] runs. *)
Fixpoint keywords (kwargs : attr_dict) (explicit : list (string * scalar))
  : result attr_dict :=
  match explicit with
  | [] => Ok kwargs
  | (k, v) :: rest =>
      if Dict.mem k kwargs then Raise (TypeError k)
      else keywords (kwargs ++ [(k, v)]) rest
  end.

Definition call_keywords (positional : list string) (attributes : attr_dict)
  (explicit : list (string * scalar)) : result attr_dict :=
  kwargs <- keywords attributes explicit ;;
  match find (fun k => mem_string k positional) (Dict.keys kwargs) with
  | Some k => Raise (TypeError k)
  | None => Ok kwargs
  end.

(** A [for] loop over a list whose body mutates the analyzer and can raise:
    the exception leaves the loop with the analyzer as it is by then. *)
Fixpoint for_each {A} (body : analyzer -> A -> result analyzer)
  (s : analyzer) (l : list A) : analyzer * option exception :=
  match l with
  | [] => (s, None)
  | x :: l' =>
      match body s x with
      | Raise e => (s, Some e)
      | Ok s' => for_each body s' l'
      end
  end.

(** The findings of [detect_suspicious_patterns]; the constructor is the
    key [type], [risk_level] is absent in [app.py]. *)
Inductive pattern : Type :=
| ciclo_sospechoso (nodes : list node) (risk_level : option string)
    (description : string)
| concentracion_contratos (n : node) (degree : nat)
    (risk_level : option string) (description : string).

Definition is_ciclo (p : pattern) : bool :=
  match p with ciclo_sospechoso _ _ _ => true | _ => false end.

Definition is_concentracion (p : pattern) : bool :=
  match p with concentracion_contratos _ _ _ _ => true | _ => false end.

(** ** config.py *)

Module Config.

Record entity_config : Type := {
  ec_name : string;
  ec_color : string;
  ec_icon : string
}.

Record relationship_config : Type := {
  rc_name : string;
  rc_risk_factor : Float64.float;
  rc_color : string
}.

Definition ENTITY_TYPES : Dict.t entity_config :=
  [ ("funcionario",
     {| ec_name := "Funcionario Público"; ec_color := "#FF6B6B";
        ec_icon := "user" |});
    ("empresa",
     {| ec_name := "Empresa Contratista"; ec_color := "#4ECDC4";
        ec_icon := "building" |});
    ("beneficiario",
     {| ec_name := "Beneficiario"; ec_color := "#45B7D1";
        ec_icon := "user-check" |});
    ("ppe",
     {| ec_name := "Persona Políticamente Expuesta"; ec_color := "#96CEB4";
        ec_icon := "user-star" |}) ].

Definition RELATIONSHIP_TYPES : Dict.t relationship_config :=
  [ ("familiar",
     {| rc_name := "Relación Familiar";
        rc_risk_factor := Float64.decimal 8 10; rc_color := "#FF0000" |});
    ("comercial",
     {| rc_name := "Relación Comercial";
        rc_risk_factor := Float64.decimal 6 10; rc_color := "#00FF00" |});
    ("politica",
     {| rc_name := "Relación Política";
        rc_risk_factor := Float64.decimal 7 10; rc_color := "#0000FF" |});
    ("beneficio",
     {| rc_name := "Beneficio Recibido";
        rc_risk_factor := Float64.decimal 5 10; rc_color := "#FFFF00" |}) ].

(** [RISK_THRESHOLDS]; the detector reads the last two keys. *)
Record risk_thresholds : Type := {
  high : Float64.float;
  medium : Float64.float;
  low : Float64.float;
  min_cycle_length : nat;
  max_degree_std : Float64.float
}.

Definition RISK_THRESHOLDS : risk_thresholds :=
  {| high := Float64.decimal 7 10;
     medium := Float64.decimal 4 10;
     low := Float64.decimal 2 10;
     min_cycle_length := 3;
     max_degree_std := Float64.of_Z 2 |}.

(** [ENTITY_TYPES.get(entity_type, ENTITY_TYPES["otro"])].  The default is
    an argument of [get]: Python evaluates the subscript [["otro"]] before
    the call, whatever [entity_type] is. *)
Definition get_entity_config (entity_type : string) : result entity_config :=
  default <- subscript ENTITY_TYPES "otro" ;;
  Ok (Dict.get_default entity_type ENTITY_TYPES default).

(** [RELATIONSHIP_TYPES.get(relationship_type, RELATIONSHIP_TYPES["otro"])] *)
Definition get_relationship_config (relationship_type : string)
  : result relationship_config :=
  default <- subscript RELATIONSHIP_TYPES "otro" ;;
  Ok (Dict.get_default relationship_type RELATIONSHIP_TYPES default).

End Config.

(** The type of a node, [self.entities[node]['type']] *)
Definition entity_type_of (s : analyzer) (n : node) : result string :=
  e <- subscript (entities s) n ;; Ok (e_type e).

(** [[x for x in l if keep(x)]] where the test can raise *)
Fixpoint filterM {A} (keep : A -> result bool) (l : list A) : result (list A) :=
  match l with
  | [] => Ok []
  | x :: l' =>
      b <- keep x ;;
      xs <- filterM keep l' ;;
      Ok (if b then x :: xs else xs)
  end.

(** The dict comprehension [empresa_degrees], as its items in order *)
Definition empresa_degrees (s : analyzer) : result (list (node * nat)) :=
  filterM (fun nd => t <- entity_type_of s (fst nd) ;;
                     Ok (String.eqb t "empresa"))
          (Nx.degree (graph s)).

Definition description_ciclo : string :=
  "Ciclo cerrado entre funcionarios y empresas".

Definition description_concentracion : string :=
  "Concentración anormal de contratos".

(** The body of [for cycle in cycles], which appends to the findings *)
Definition check_cycle (s : analyzer) (min_length : nat)
  (risk_level : option string) (found : list pattern) (cycle : list node)
  : result (list pattern) :=
  if Nat.leb min_length (length cycle) then
    cycle_types <- mapM (entity_type_of s) cycle ;;
    if mem_string "funcionario" cycle_types && mem_string "empresa" cycle_types
    then Ok (found ++ [ciclo_sospechoso cycle risk_level description_ciclo])
    else Ok found
  else Ok found.

Fixpoint check_cycles (s : analyzer) (min_length : nat)
  (risk_level : option string) (found : list pattern)
  (cycles : list (list node)) : result (list pattern) :=
  match cycles with
  | [] => Ok found
  | cycle :: cycles' =>
      found' <- check_cycle s min_length risk_level found cycle ;;
      check_cycles s min_length risk_level found' cycles'
  end.

(** [for empresa, degree in empresa_degrees.items(): if degree > threshold],
    the int [degree] as a float *)
Definition over_threshold (threshold : Float64.float)
  (risk_level : option string) (degrees : list (node * nat)) : list pattern :=
  flat_map (fun nd =>
              if Float64.ltb threshold (Float64.of_nat (snd nd))
              then [concentracion_contratos (fst nd) (snd nd) risk_level
                      description_concentracion]
              else [])
           degrees.

(** ** main.py *)

Module Main.

(** Lines 95-103, with [entity_config] in hand *)
Definition add_entity_with (s : analyzer) (e : entity)
  (entity_config : Config.entity_config) : result analyzer :=
  attr <- call_keywords ["self"; "node_for_adding"] (e_attributes e)
            [ ("node_type", SStr (e_type e));
              ("name", SStr (e_name e));
              ("color", SStr (Config.ec_color entity_config));
              ("icon", SStr (Config.ec_icon entity_config)) ] ;;
  Ok {| graph := Nx.add_node (graph s) (e_id e) attr;
        entities := Dict.set (e_id e) e (entities s);
        relationships := relationships s |}.

(** Lines 94-103 *)
Definition add_entity (s : analyzer) (e : entity) : result analyzer :=
  entity_config <- Config.get_entity_config (e_type e) ;;
  add_entity_with s e entity_config.

(** Lines 108-116, with [rel_config] in hand *)
Definition add_relationship_with (s : analyzer) (rel : relationship)
  (rel_config : Config.relationship_config) : result analyzer :=
  attr <- call_keywords ["self"; "u_of_edge"; "v_of_edge"] (r_attributes rel)
            [ ("relationship_type", SStr (r_type rel));
              ("color", SStr (Config.rc_color rel_config));
              ("risk_factor", SFloat (Config.rc_risk_factor rel_config)) ] ;;
  Ok {| graph := Nx.add_edge (graph s) (r_source rel) (r_target rel) attr;
        entities := entities s;
        relationships := relationships s ++ [rel] |}.

(** Lines 107-116 *)
Definition add_relationship (s : analyzer) (rel : relationship)
  : result analyzer :=
  rel_config <- Config.get_relationship_config (r_type rel) ;;
  add_relationship_with s rel rel_config.

(** [_update_graph]: the analyzer after the call, and the exception that
    left it, if any (the [except] clause logs and raises it again). *)
Definition _update_graph (s : analyzer) (analysis_result : analysis_result)
  : analyzer * option exception :=
  match for_each add_entity s (res_entities analysis_result) with
  | (s1, Some e) => (s1, Some e)
  | (s1, None) => for_each add_relationship s1 (res_relationships analysis_result)
  end.

(** Lines 147-155: the mean of the degrees, their population standard
    deviation, and the threshold *)
Definition threshold (values : list nat) : result Float64.float :=
  mean_degree <- Float64.int_truediv (list_sum values) (length values) ;;
  let std_degree :=
    Float64.pow_half
      (Float64.div
         (Float64.sum
            (map (fun d => Float64.pow2
                             (Float64.sub (Float64.of_nat d) mean_degree))
                 values))
         (Float64.of_nat (length values))) in
  Ok (Float64.add mean_degree
        (Float64.mul (Config.max_degree_std Config.RISK_THRESHOLDS)
                     std_degree)).

(** Lines 146-165 on the items of [empresa_degrees] *)
Definition concentration (degrees : list (node * nat)) : result (list pattern) :=
  match degrees with
  | [] => Ok []
  | _ :: _ =>
      limit <- threshold (map snd degrees) ;;
      Ok (over_threshold limit (Some "high") degrees)
  end.

(** The [try] block of [detect_suspicious_patterns] *)
Definition detect_body (s : analyzer) : result (list pattern) :=
  cycles <- Nx.cycle_basis (graph s) ;;
  found <- check_cycles s (Config.min_cycle_length Config.RISK_THRESHOLDS)
             (Some "high") [] cycles ;;
  degrees <- empresa_degrees s ;;
  more <- concentration degrees ;;
  Ok (found ++ more).

(** [detect_suspicious_patterns]: [except Exception] logs and returns [[]] *)
Definition detect_suspicious_patterns (s : analyzer) : result (list pattern) :=
  match detect_body s with
  | Ok found => Ok found
  | Raise _ => Ok []
  end.

End Main.

(** ** app.py *)

Module App.

(** Lines 75-81 *)
Definition add_entity (s : analyzer) (e : entity) : result analyzer :=
  attr <- call_keywords ["self"; "node_for_adding"] (e_attributes e)
            [ ("node_type", SStr (e_type e));
              ("name", SStr (e_name e)) ] ;;
  Ok {| graph := Nx.add_node (graph s) (e_id e) attr;
        entities := Dict.set (e_id e) e (entities s);
        relationships := relationships s |}.

(** Lines 85-91 *)
Definition add_relationship (s : analyzer) (rel : relationship)
  : result analyzer :=
  attr <- call_keywords ["self"; "u_of_edge"; "v_of_edge"] (r_attributes rel)
            [ ("relationship_type", SStr (r_type rel)) ] ;;
  Ok {| graph := Nx.add_edge (graph s) (r_source rel) (r_target rel) attr;
        entities := entities s;
        relationships := relationships s ++ [rel] |}.

Definition _update_graph (s : analyzer) (analysis_result : analysis_result)
  : analyzer * option exception :=
  match for_each add_entity s (res_entities analysis_result) with
  | (s1, Some e) => (s1, Some e)
  | (s1, None) => for_each add_relationship s1 (res_relationships analysis_result)
  end.

Section Numpy.

(** [np.mean] and [np.std] of the list of degrees: numpy is not part of
    the repository; the two functions are parameters. *)
Variables np_mean np_std : list nat -> Float64.float.

Definition concentration (degrees : list (node * nat)) : list pattern :=
  match degrees with
  | [] => []
  | _ :: _ =>
      let mean_degree := np_mean (map snd degrees) in
      let std_degree := np_std (map snd degrees) in
      over_threshold
        (Float64.add mean_degree (Float64.mul (Float64.of_Z 2) std_degree))
        None degrees
  end.

(** [detect_suspicious_patterns]: no [try] here, an exception leaves
    the method. *)
Definition detect_suspicious_patterns (s : analyzer) : result (list pattern) :=
  cycles <- Nx.cycle_basis (graph s) ;;
  found <- check_cycles s 3 None [] cycles ;;
  degrees <- empresa_degrees s ;;
  Ok (found ++ concentration degrees).

End Numpy.

End App.

(** ** Measures and views used in the proofs *)

(** The names of [g] that the walk has not reached yet *)
Definition unreached (g : Nx.Graph) (u : Dict.t (list node)) : nat :=
  length (filter (fun n => negb (Dict.mem n u)) (Nx.names g)).

(** What is left to do for a walk: it goes down with every turn *)
Definition measure (g : Nx.Graph) (st : Nx.walk_state) : nat :=
  2 * unreached g (Nx.used st) + length (Nx.stack st).

(** Who is adjacent to whom, without the attributes *)
Definition topology (adj : Dict.t (Dict.t attr_dict)) : list (node * list node) :=
  map (fun na => (fst na, Dict.keys (snd na))) adj.

(** ** Predicates of the statements *)

(** The keywords of [add_node] and [add_edge] that the callers add to the
    attributes of the fact *)
Definition node_keywords : list string :=
  ["self"; "node_for_adding"; "node_type"; "name"; "color"; "icon"].

Definition edge_keywords : list string :=
  ["self"; "u_of_edge"; "v_of_edge"; "relationship_type"; "color";
   "risk_factor"].

Definition free_of (reserved : list string) (attributes : attr_dict) : Prop :=
  forall k, In k reserved -> Dict.mem k attributes = false.

(** The count that [main()] shows for one entity type *)
Definition count_type (s : analyzer) (t : string) : nat :=
  length (filter (fun e => String.eqb (e_type e) t) (Dict.values (entities s))).

(** An id resolves when it is a node of the graph or the id of an entity of
    the batch. *)
Definition resolves (s : analyzer) (r : analysis_result) (n : node) : bool :=
  Dict.mem n (Nx._node (graph s))
  || existsb (fun e => String.eqb (e_id e) n) (res_entities r).

Definition dangling (s : analyzer) (r : analysis_result) : Prop :=
  exists rel, In rel (res_relationships r) /\
              (resolves s r (r_source rel) = false \/
               resolves s r (r_target rel) = false).

(** What applying [rel] does to the analyzer [s] *)
Definition endpoints_created (s : analyzer) (rel : relationship)
  (s' : analyzer) : Prop :=
  Dict.mem (r_source rel) (Nx._node (graph s')) = true /\
  Dict.mem (r_target rel) (Nx._node (graph s')) = true /\
  (Dict.mem (r_source rel) (Nx._node (graph s)) = false ->
   Dict.get (r_source rel) (Nx._node (graph s')) = Some []) /\
  (Dict.mem (r_target rel) (Nx._node (graph s)) = false ->
   Dict.get (r_target rel) (Nx._node (graph s')) = Some []) /\
  entities s' = entities s /\
  relationships s' = relationships s ++ [rel].

(** What ingesting [e] does to the analyzer [s], whatever the type of
    [e]: the record and the node of [e], and what is left as it was *)
Definition stored (s : analyzer) (e : entity) (s' : analyzer) : Prop :=
  Dict.get (e_id e) (entities s') = Some e /\
  (exists attr,
      Dict.get (e_id e) (Nx._node (graph s')) = Some attr /\
      Dict.get "node_type" attr = Some (SStr (e_type e)) /\
      Dict.get "name" attr = Some (SStr (e_name e))) /\
  (forall id, id <> e_id e ->
      Dict.get id (entities s') = Dict.get id (entities s) /\
      Dict.get id (Nx._node (graph s')) = Dict.get id (Nx._node (graph s)) /\
      Dict.get id (Nx._adj (graph s')) = Dict.get id (Nx._adj (graph s))) /\
  relationships s' = relationships s.

(** What ingesting [e] does when its id is a node and an entity already:
    [old] and [old_attr] are the record and the node attributes before,
    [kwargs] the keywords of the [add_node] call. *)
Definition upserted (s : analyzer) (e old : entity) (old_attr kwargs : attr_dict)
  (s' : analyzer) : Prop :=
  Dict.get (e_id e) (entities s') = Some e /\
  Dict.keys (entities s') = Dict.keys (entities s) /\
  (forall t, count_type s' t + (if String.eqb (e_type old) t then 1 else 0)
             = count_type s t + (if String.eqb (e_type e) t then 1 else 0)) /\
  Dict.keys (Nx._node (graph s')) = Dict.keys (Nx._node (graph s)) /\
  Nx._adj (graph s') = Nx._adj (graph s) /\
  (NoDup (Dict.keys (Nx._node (graph s))) ->
   count_occ string_dec (Dict.keys (Nx._node (graph s'))) (e_id e) = 1) /\
  exists new_attr,
    Dict.get (e_id e) (Nx._node (graph s')) = Some new_attr /\
    forall k, Dict.get k new_attr =
              match Dict.get k (rev kwargs) with
              | Some v => Some v
              | None => Dict.get k old_attr
              end.

(** What applying [rel] does when its endpoints are joined already:
    [kwargs] are the keywords of the [add_edge] call. *)
Definition edge_updated (s : analyzer) (rel : relationship) (kwargs : attr_dict)
  (s' : analyzer) : Prop :=
  relationships s' = relationships s ++ [rel] /\
  entities s' = entities s /\
  Nx._node (graph s') = Nx._node (graph s) /\
  Nx.edges (graph s') = Nx.edges (graph s) /\
  Nx.degree (graph s') = Nx.degree (graph s) /\
  Dict.get (r_target rel)
    (Dict.get_default (r_source rel) (Nx._adj (graph s')) [])
  = Some (Dict.update
            (Dict.get_default (r_target rel)
               (Dict.get_default (r_source rel) (Nx._adj (graph s)) []) [])
            kwargs).

(** Some node of [cycle] is an entity of type [t]. *)
Definition has_type (s : analyzer) (t : string) (cycle : list node) : Prop :=
  exists n e, In n cycle /\ Dict.get n (entities s) = Some e /\ e_type e = t.

(** What a finding for a cycle tells about the cycle *)
Definition reported (s : analyzer) (min_length : nat)
  (risk_level : option string) (p : pattern) : Prop :=
  exists cycle,
    p = ciclo_sospechoso cycle risk_level description_ciclo /\
    min_length <= length cycle /\
    has_type s "funcionario" cycle /\ has_type s "empresa" cycle.

(** The neighbours of [n] are the nodes [l], in some order. *)
Definition neighbours (s : analyzer) (n : node) (l : list node) : Prop :=
  exists nbrs, Dict.get n (Nx._adj (graph s)) = Some nbrs /\
               Permutation (Dict.keys nbrs) l.

(** The graph of [s] is the triangle A - B - C - A: three nodes, entered in
    any order, each joined to the two others, with any attributes. *)
Definition is_triangle (s : analyzer) : Prop :=
  Permutation (Dict.keys (Nx._node (graph s))) ["A"; "B"; "C"] /\
  Dict.keys (Nx._adj (graph s)) = Dict.keys (Nx._node (graph s)) /\
  neighbours s "A" ["B"; "C"] /\
  neighbours s "B" ["A"; "C"] /\
  neighbours s "C" ["A"; "B"].

(** ** Analyzers for the examples *)

Module Dangling.

Definition fact : relationship :=
  {| r_source := "x"; r_target := "y"; r_type := "comercial";
     r_attributes := [] |}.

Definition batch : analysis_result :=
  {| res_entities := []; res_relationships := [fact] |}.

Definition person (id : node) : entity :=
  {| e_id := id; e_name := id; e_type := "funcionario"; e_attributes := [] |}.

(** An analyzer that knows both [x] and [y] *)
Definition known : analyzer :=
  fst (App._update_graph init
         {| res_entities := [person "x"; person "y"];
            res_relationships := [] |}).

(** What app.py makes of [batch] on the fresh analyzer *)
Definition accepted : analyzer :=
  {| graph :=
       {| Nx._node := [("x", []); ("y", [])];
          Nx._adj :=
            [("x", [("y", [("relationship_type", SStr "comercial")])]);
             ("y", [("x", [("relationship_type", SStr "comercial")])])] |};
     entities := [];
     relationships := [fact] |}.

End Dangling.

Module UnknownType.

Definition alien : entity :=
  {| e_id := "e1"; e_name := "Zorg"; e_type := "alien"; e_attributes := [] |}.

Definition batch : analysis_result :=
  {| res_entities := [Dangling.person "p1"; alien];
     res_relationships := [] |}.

(** The same batch without the entity of unknown type *)
Definition known_only : analysis_result :=
  {| res_entities := [Dangling.person "p1"]; res_relationships := [] |}.

(** What app.py makes of [batch] on the fresh analyzer *)
Definition accepted : analyzer :=
  {| graph :=
       {| Nx._node :=
            [("p1", [("node_type", SStr "funcionario"); ("name", SStr "p1")]);
             ("e1", [("node_type", SStr "alien"); ("name", SStr "Zorg")])];
          Nx._adj := [("p1", []); ("e1", [])] |};
     entities := [("p1", Dangling.person "p1"); ("e1", alien)];
     relationships := [] |}.

End UnknownType.

Module Upsert.

Definition first : entity :=
  {| e_id := "a"; e_name := "Ana"; e_type := "funcionario";
     e_attributes := [("cargo", SStr "Director")] |}.

Definition second : entity :=
  {| e_id := "a"; e_name := "Ana SA"; e_type := "empresa";
     e_attributes := [("rfc", SStr "XAXX010101000")] |}.

Definition batch (e : entity) : analysis_result :=
  {| res_entities := [e]; res_relationships := [] |}.

(** The analyzer of app.py after the first fact, and after both *)
Definition once : analyzer := fst (App._update_graph init (batch first)).

Definition twice : analyzer := fst (App._update_graph once (batch second)).

End Upsert.

Module Repeated.

Definition company : entity :=
  {| e_id := "a"; e_name := "Obras SA"; e_type := "empresa";
     e_attributes := [] |}.

Definition official : entity :=
  {| e_id := "b"; e_name := "Luis"; e_type := "funcionario";
     e_attributes := [] |}.

Definition contract : relationship :=
  {| r_source := "a"; r_target := "b"; r_type := "comercial";
     r_attributes := [("monto", SInt 100)] |}.

Definition kinship : relationship :=
  {| r_source := "a"; r_target := "b"; r_type := "familiar";
     r_attributes := [] |}.

Definition batch : analysis_result :=
  {| res_entities := [company; official];
     res_relationships := [contract; kinship] |}.

(** The analyzer of app.py after the entities and the first fact *)
Definition once : analyzer :=
  fst (App._update_graph init
         {| res_entities := [company; official];
            res_relationships := [contract] |}).

Definition twice : analyzer := fst (App._update_graph init batch).

End Repeated.

Module Triangle.

Definition person (id : node) (t : string) : entity :=
  {| e_id := id; e_name := id; e_type := t; e_attributes := [] |}.

Definition link (u v : node) : relationship :=
  {| r_source := u; r_target := v; r_type := "comercial";
     r_attributes := [] |}.

(** The graph A - B - C - A of app.py's ingestion, for the given types of
    the three nodes *)
Definition state (ta tb tc : string) : analyzer :=
  fst (App._update_graph init
         {| res_entities := [person "A" ta; person "B" tb; person "C" tc];
            res_relationships := [link "A" "B"; link "B" "C"; link "C" "A"] |}).

(** Officials at [A] and [C], a contractor at [B] *)
Definition mixed : analyzer := state "funcionario" "empresa" "funcionario".

(** Officials only *)
Definition officials : analyzer := state "funcionario" "funcionario" "funcionario".

End Triangle.

Module Star.

Definition company (id : node) : entity :=
  {| e_id := id; e_name := id; e_type := "empresa"; e_attributes := [] |}.

Definition official (id : node) : entity :=
  {| e_id := id; e_name := id; e_type := "funcionario"; e_attributes := [] |}.

Definition contract (u v : node) : relationship :=
  {| r_source := u; r_target := v; r_type := "comercial";
     r_attributes := [] |}.

(** Five companies: [E1] to [E4] have one contract each, with [BIG]; [BIG]
    has these four and one with each of six officials. *)
Definition state : analyzer :=
  fst (App._update_graph init
         {| res_entities :=
              map company ["E1"; "E2"; "E3"; "E4"; "BIG"]
              ++ map official ["F1"; "F2"; "F3"; "F4"; "F5"; "F6"];
            res_relationships :=
              map (fun e => contract e "BIG") ["E1"; "E2"; "E3"; "E4"]
              ++ map (contract "BIG") ["F1"; "F2"; "F3"; "F4"; "F5"; "F6"] |}).

(** Three companies with five contracts each, all with the same officials *)
Definition uniform : analyzer :=
  fst (App._update_graph init
         {| res_entities :=
              map company ["E1"; "E2"; "E3"]
              ++ map official ["F1"; "F2"; "F3"; "F4"; "F5"];
            res_relationships :=
              flat_map (fun e => map (contract e) ["F1"; "F2"; "F3"; "F4"; "F5"])
                       ["E1"; "E2"; "E3"] |}).

End Star.

Module Deterministic.

(** A stand-in for [np.mean] and [np.std] in the examples *)
Definition np_const (values : list nat) : Float64.float := Float64.zero.

End Deterministic.

(** ** app.py: documents, statistics and the figure *)

(** A [for] loop that builds a value and can raise *)
Fixpoint for_fold {A B} (body : B -> A -> result B) (acc : B) (l : list A)
  : result B :=
  match l with
  | [] => Ok acc
  | x :: l' => acc' <- body acc x ;; for_fold body acc' l'
  end.

Module Page.

(** [process_document] (lines 21-69).  The request to the language model
    and [json.loads] are outside the repository: [answer] is what lines
    58-64 yield, the parsed facts (of the structure above), or [None] when
    the client or the parser raised.  [except Exception] shows the error
    and returns [None]; the analyzer keeps what [_update_graph] had done by
    then.

    [process_document] of main.py is not embedded: its prompt is an
    f-string with the braces of the JSON example not doubled (lines 54-71),
    which Python refuses to compile. *)
Definition process_document (s : analyzer) (answer : option analysis_result)
  : analyzer * option analysis_result :=
  match answer with
  | None => (s, None)
  | Some result =>
      match App._update_graph s result with
      | (s', None) => (s', Some result)
      | (s', Some _) => (s', None)
      end
  end.

(** One analyzer, from [__init__] on, through successive calls of
    [process_document] *)
Definition session (answers : list (option analysis_result)) : analyzer :=
  fold_left (fun s answer => fst (process_document s answer)) answers init.

(** The dict [stats] of [main()] (lines 238-245; lines 293-312 of main.py
    are the same) *)
Definition stats (s : analyzer) : Dict.t nat :=
  [ ("Total de Entidades", length (entities s));
    ("Total de Relaciones", length (relationships s));
    ("Funcionarios", count_type s "funcionario");
    ("Empresas", count_type s "empresa");
    ("Beneficiarios", count_type s "beneficiario");
    ("PPEs", count_type s "ppe") ].

(** *** [generate_network_visualization] (lines 129-188)

    The two traces of the figure, as far as they depend on the analyzer:
    [x], [y], [text] and [marker.color] of the node trace, [x] and [y] of
    the edge trace.  The other options of [go.Scatter] and [go.Layout] are
    constants. *)

Record node_trace : Type := {
  nt_x : list Float64.float;
  nt_y : list Float64.float;
  nt_text : list string;
  nt_color : list scalar
}.

Record edge_trace : Type := {
  et_x : list (option Float64.float);
  et_y : list (option Float64.float)
}.

(** [go.Figure(data=[edge_trace, node_trace], ...)] *)
Record Figure : Type := {
  fig_edge_trace : edge_trace;
  fig_node_trace : node_trace
}.

(** A value of [nx.spring_layout(G)]: the coordinates of a node *)
Definition position : Type := (Float64.float * Float64.float)%type.

Definition color_map : Dict.t scalar :=
  [ ("funcionario", SInt 0);
    ("empresa", SFloat (Float64.decimal 33 100));
    ("beneficiario", SFloat (Float64.decimal 66 100));
    ("ppe", SInt 1) ].

(** The line feed of [\n] *)
Definition newline : string :=
  String (Ascii.Ascii false true false true false false false false) "".

(** [f"{node_info['name']}\n({node_info['type']})"] *)
Definition node_text (node_info : entity) : string :=
  String.concat ""
    [e_name node_info; newline; "("; e_type node_info; ")"].

(** The body of [for node in self.graph.nodes()] *)
Definition plot_node (pos : Dict.t position) (s : analyzer)
  (trace : node_trace) (n : node) : result node_trace :=
  xy <- subscript pos n ;;
  node_info <- subscript (entities s) n ;;
  color <- subscript color_map (e_type node_info) ;;
  Ok {| nt_x := nt_x trace ++ [fst xy];
        nt_y := nt_y trace ++ [snd xy];
        nt_text := nt_text trace ++ [node_text node_info];
        nt_color := nt_color trace ++ [color] |}.

(** The body of [for edge in self.graph.edges()] *)
Definition plot_edge (pos : Dict.t position) (trace : edge_trace)
  (edge : node * node) : result edge_trace :=
  xy0 <- subscript pos (fst edge) ;;
  xy1 <- subscript pos (snd edge) ;;
  Ok {| et_x := et_x trace ++ [Some (fst xy0); Some (fst xy1); None];
        et_y := et_y trace ++ [Some (snd xy0); Some (snd xy1); None] |}.

(** [pos] is what [nx.spring_layout(self.graph)] returned; an exception
    leaves the method and no figure is built. *)
Definition generate_network_visualization (pos : Dict.t position)
  (s : analyzer) : result Figure :=
  nodes <- for_fold (plot_node pos s)
             {| nt_x := []; nt_y := []; nt_text := []; nt_color := [] |}
             (Dict.keys (Nx._node (graph s))) ;;
  edges <- for_fold (plot_edge pos) {| et_x := []; et_y := [] |}
             (Nx.edges (graph s)) ;;
  Ok {| fig_edge_trace := edges; fig_node_trace := nodes |}.

(** [main()] from the statistics to the figure (lines 238-262), for the
    analyzer [s]: the dict [stats], the findings and the figure.  [np_mean]
    and [np_std] are numpy's functions, [pos] the layout.  app.py has no
    [try] here: an exception of the detector or of the figure leaves
    [main()]. *)
Definition analysis (np_mean np_std : list nat -> Float64.float)
  (pos : Dict.t position) (s : analyzer)
  : result (Dict.t nat * list pattern * Figure) :=
  patterns <- App.detect_suspicious_patterns np_mean np_std s ;;
  fig <- generate_network_visualization pos s ;;
  Ok (stats s, patterns, fig).

End Page.

(** ** Predicates of the further statements *)

(** The keywords that app.py passes to [add_node] and to [add_edge] beside
    the attributes of the fact, and the names of their parameters *)
Definition app_node_keywords : list string :=
  ["node_type"; "name"; "self"; "node_for_adding"].

Definition app_edge_keywords : list string :=
  ["relationship_type"; "self"; "u_of_edge"; "v_of_edge"].

(** The keyword that the [TypeError] of a call names, if any: the first
    explicit keyword that the attributes have too, or else the first
    attribute named like a parameter given by position *)
Definition clashing (positional : list string) (attributes : attr_dict)
  (explicit : list string) : option string :=
  match find (fun k => Dict.mem k attributes) explicit with
  | Some k => Some k
  | None => find (fun k => mem_string k positional) (Dict.keys attributes)
  end.

(** No fact of the batch has an attribute named like a keyword of its call. *)
Definition well_named (r : analysis_result) : Prop :=
  (forall e, In e (res_entities r) ->
             free_of app_node_keywords (e_attributes e)) /\
  (forall rel, In rel (res_relationships r) ->
               free_of app_edge_keywords (r_attributes rel)).

Definition mentions (rel : relationship) (n : node) : Prop :=
  r_source rel = n \/ r_target rel = n.

Definition joins (rel : relationship) (u v : node) : Prop :=
  (r_source rel = u /\ r_target rel = v) \/
  (r_source rel = v /\ r_target rel = u).

(** Every endpoint of a recorded relationship is the id of an entity. *)
Definition no_dangling (s : analyzer) : Prop :=
  forall rel n, In rel (relationships s) -> mentions rel n ->
                Dict.mem n (entities s) = true.

(** Every entity has one of the types of [color_map]. *)
Definition drawable (s : analyzer) : Prop :=
  forall id e, Dict.get id (entities s) = Some e ->
               Dict.mem (e_type e) Page.color_map = true.

(** [G[x]] for a node [x], nothing for another name *)
Definition nbrs_of (g : Nx.Graph) (x : node) : Dict.t attr_dict :=
  Dict.get_default x (Nx._adj g) [].

(** What the graph and the two collections of facts have to do with each
    other in an analyzer that app.py has built *)
Record consistent (s : analyzer) : Prop := {
  same_keys : Dict.keys (Nx._adj (graph s)) = Dict.keys (Nx._node (graph s));
  unique_nodes : NoDup (Dict.keys (Nx._node (graph s)));
  unique_entities : NoDup (Dict.keys (entities s));
  unique_neighbours :
    forall n nbrs, Dict.get n (Nx._adj (graph s)) = Some nbrs ->
                   NoDup (Dict.keys nbrs);
  nodes_of_facts :
    forall n, Dict.mem n (Nx._node (graph s)) = true <->
              Dict.mem n (entities s) = true \/
              exists rel, In rel (relationships s) /\ mentions rel n;
  edges_of_facts :
    forall u v, Nx.has_edge (graph s) u v = true <->
                exists rel, In rel (relationships s) /\ joins rel u v;
  nodes_of_entities :
    forall id e, Dict.get id (entities s) = Some e ->
      e_id e = id /\
      exists attr, Dict.get id (Nx._node (graph s)) = Some attr /\
                   Dict.get "node_type" attr = Some (SStr (e_type e)) /\
                   Dict.get "name" attr = Some (SStr (e_name e))
}.

(** The entity types that the page counts and colours *)
Definition page_types : list string :=
  ["funcionario"; "empresa"; "beneficiario"; "ppe"].

(** The value that [st.metric] shows under [label] *)
Definition shown (s : analyzer) (label : string) : nat :=
  Dict.get_default label (Page.stats s) 0.

(** The entities whose type is none of the four *)
Definition of_other_type (s : analyzer) : list entity :=
  filter (fun e => negb (mem_string (e_type e) page_types))
         (Dict.values (entities s)).

(** [l'] is [l] with more at its end. *)
Definition extends {A} (l' l : list A) : Prop := exists more, l' = l ++ more.

(** What the figure shows for a node: where, for which record, in which
    colour *)
Record mark : Type := {
  mk_at : Page.position;
  mk_record : entity;
  mk_color : scalar
}.

(** [m] is what the layout, the entity mapping and [color_map] hold for
    the node [n]. *)
Definition marked (pos : Dict.t Page.position) (s : analyzer) (n : node)
  (m : mark) : Prop :=
  Dict.get n pos = Some (mk_at m) /\
  Dict.get n (entities s) = Some (mk_record m) /\
  Dict.get (e_type (mk_record m)) Page.color_map = Some (mk_color m).

(** [ends] are the positions of the two ends of [edge]. *)
Definition drawn (pos : Dict.t Page.position) (edge : node * node)
  (ends : Page.position * Page.position) : Prop :=
  Dict.get (fst edge) pos = Some (fst ends) /\
  Dict.get (snd edge) pos = Some (snd ends).

(** The three entries of an edge in a coordinate list of the edge trace:
    its two ends and the gap [None] *)
Definition segment (a b : Float64.float) : list (option Float64.float) :=
  [Some a; Some b; None].

(** The marker of a node in the figure: its text and its colour *)
Definition marker_of (s : analyzer) (n : node) (text : string)
  (color : scalar) : Prop :=
  exists e, Dict.get n (entities s) = Some e /\
            text = Page.node_text e /\
            Dict.get (e_type e) Page.color_map = Some color.

(** A finding for a company: the node is an entity of type [empresa], the
    degree is the one of the node, and it is above [limit]. *)
Definition company_over (s : analyzer) (limit : Float64.float)
  (risk_level : option string) (p : pattern) : Prop :=
  exists n d,
    p = concentracion_contratos n d risk_level description_concentracion /\
    In (n, d) (Nx.degree (graph s)) /\
    entity_type_of s n = Ok "empresa" /\
    Float64.ltb limit (Float64.of_nat d) = true.

(** ** Views of the walk of [cycle_basis] used in the proofs *)

(** An adjacency as the class keeps it: the neighbours are nodes, [v] is a
    neighbour of [u] when [u] is one of [v], once. *)
Record undirected (g : Nx.Graph) : Prop := {
  und_nodes :
    forall n, Dict.mem n (Nx._node g) = true -> Dict.mem n (Nx._adj g) = true;
  und_closed :
    forall z nbrs v, Dict.get z (Nx._adj g) = Some nbrs ->
                     In v (Dict.keys nbrs) -> Dict.mem v (Nx._adj g) = true;
  und_symmetric :
    forall u v nu, Dict.get u (Nx._adj g) = Some nu -> In v (Dict.keys nu) ->
                   exists nv, Dict.get v (Nx._adj g) = Some nv /\
                              In u (Dict.keys nv);
  und_simple :
    forall z nbrs, Dict.get z (Nx._adj g) = Some nbrs -> NoDup (Dict.keys nbrs)
}.

(** [a] is [k] steps up from [m] along the parents, no step from a node to
    itself *)
Inductive climbs (pred : Dict.t node) : node -> node -> nat -> Prop :=
| climbs_here (m : node) : climbs pred m m 0
| climbs_step (m p a : node) (k : nat) :
    Dict.get m pred = Some p -> p <> m -> climbs pred p a k ->
    climbs pred m a (S k).

(** Down the stack the parents go up the tree, from [q] on. *)
Fixpoint chain (pred : Dict.t node) (q : node) (stack : list node) : Prop :=
  match stack with
  | [] => True
  | m :: rest =>
      exists p k, Dict.get m pred = Some p /\ climbs pred q p k /\
                  chain pred p rest
  end.

(** [y] is in [used[w]]. *)
Definition reached_from (used : Dict.t (list node)) (w y : node) : Prop :=
  exists l, Dict.get w used = Some l /\ In y l.

(** [y] has been popped and its neighbours have been visited. *)
Definition processed (st : Nx.walk_state) (cur : option node) (y : node)
  : Prop :=
  Dict.mem y (Nx.pred st) = true /\ ~ In y (Nx.stack st) /\ cur <> Some y.

(** What holds of the state of a walk from [root]: between two turns of the
    outer loop ([cur] is [None]), and inside the turn of the node [cur]
    after the neighbours [visited]. *)
Record walking (g : Nx.Graph) (root : node) (cur : option node)
  (visited : list node) (st : Nx.walk_state) : Prop := {
  wk_keys : forall m, Dict.mem m (Nx.used st) = Dict.mem m (Nx.pred st);
  wk_adj :
    forall m, Dict.mem m (Nx.pred st) = true -> Dict.mem m (Nx._adj g) = true;
  wk_root : Dict.get root (Nx.pred st) = Some root;
  wk_proper : forall m, Dict.get m (Nx.pred st) = Some m -> m = root;
  wk_parents :
    forall m p, Dict.get m (Nx.pred st) = Some p ->
                Dict.mem p (Nx.pred st) = true;
  wk_depth :
    forall m, Dict.mem m (Nx.pred st) = true ->
              exists d, climbs (Nx.pred st) m root d /\
                        d < length (Nx.pred st);
  wk_stack : NoDup (Nx.stack st);
  wk_stack_reached :
    forall m, In m (Nx.stack st) -> Dict.mem m (Nx.pred st) = true;
  wk_cur :
    forall z, cur = Some z ->
              Dict.mem z (Nx.pred st) = true /\ ~ In z (Nx.stack st);
  wk_root_alone :
    In root (Nx.stack st) -> Nx.stack st = [root] /\ cur = None;
  wk_chain :
    exists q, (forall z, cur = Some z -> q = z) /\
              chain (Nx.pred st) q (Nx.stack st);
  wk_parent_used :
    forall m, In m (Nx.stack st) -> m <> root ->
              exists p, Dict.get m (Nx.pred st) = Some p /\
                        reached_from (Nx.used st) m p;
  wk_done :
    forall y ny w, processed st cur y ->
                   Dict.get y (Nx._adj g) = Some ny -> In w (Dict.keys ny) ->
                   w <> y ->
                   reached_from (Nx.used st) w y \/
                   reached_from (Nx.used st) y w;
  wk_doing :
    forall z w, cur = Some z -> In w visited -> w <> z ->
                reached_from (Nx.used st) w z \/
                reached_from (Nx.used st) z w;
  wk_used :
    forall m w, reached_from (Nx.used st) m w ->
                processed st cur w \/ (cur = Some w /\ In m visited);
  wk_pred :
    forall m p, Dict.get m (Nx.pred st) = Some p ->
                m = p \/ processed st cur p \/ (cur = Some p /\ In m visited);
  wk_cycles :
    forall c n, In c (Nx.cycles st) -> In n c ->
                Dict.mem n (Nx._adj g) = true
}.

(** [a] and [b] are joined by an edge of [g]. *)
Definition joined (g : Nx.Graph) (a b : node) : Prop :=
  Nx.has_edge g a b = true \/ Nx.has_edge g b a = true.

(** Each node of [l] is related to the next one. *)
Fixpoint linked (R : node -> node -> Prop) (l : list node) : Prop :=
  match l with
  | [] => True
  | a :: l' => match l' with [] => True | b :: _ => R a b end /\ linked R l'
  end.

(** ... and the last one to the first: [l] goes round. *)
Definition ring (R : node -> node -> Prop) (l : list node) : Prop :=
  match l with
  | [] => False
  | a :: _ => linked R l /\ R (last l a) a
  end.

(** [rest] follows the parents up from [p]. *)
Fixpoint rises (pred : Dict.t node) (p : node) (rest : list node) : Prop :=
  match rest with
  | [] => True
  | y :: rest' => Dict.get p pred = Some y /\ y <> p /\ rises pred y rest'
  end.

(** What the walk records is made of edges of the graph. *)
Record tracing (g : Nx.Graph) (st : Nx.walk_state) : Prop := {
  tr_pred :
    forall m p, Dict.get m (Nx.pred st) = Some p -> p <> m -> joined g p m;
  tr_used : forall w y, reached_from (Nx.used st) w y -> joined g y w;
  tr_cycles : forall c, In c (Nx.cycles st) -> ring (joined g) c
}.

(** Two nodes with a recorded relationship between them *)
Definition related (s : analyzer) (a b : node) : Prop :=
  exists rel, In rel (relationships s) /\ joins rel a b.

(** ** Analyzers for the further examples *)

Module Clash.

(** An entity with an attribute called [name] *)
Definition entity_named : entity :=
  {| e_id := "c"; e_name := "Carla"; e_type := "funcionario";
     e_attributes := [("name", SStr "alias")] |}.

(** A relationship with an attribute called [relationship_type] *)
Definition fact_typed : relationship :=
  {| r_source := "a"; r_target := "b"; r_type := "comercial";
     r_attributes := [("relationship_type", SStr "socio")] |}.

End Clash.

Module Drawn.

(** A layout for the two nodes of [Repeated.twice] *)
Definition pos : Dict.t Page.position :=
  [("a", (Float64.zero, Float64.zero));
   ("b", (Float64.of_Z 1, Float64.zero))].

(** The figure of [Repeated.twice] under that layout *)
Definition fig : Page.Figure :=
  {| Page.fig_edge_trace :=
       {| Page.et_x := [Some Float64.zero; Some (Float64.of_Z 1); None];
          Page.et_y := [Some Float64.zero; Some Float64.zero; None] |};
     Page.fig_node_trace :=
       {| Page.nt_x := [Float64.zero; Float64.of_Z 1];
          Page.nt_y := [Float64.zero; Float64.zero];
          Page.nt_text :=
            [Page.node_text Repeated.company;
             Page.node_text Repeated.official];
          Page.nt_color := [SFloat (Float64.decimal 33 100); SInt 0] |} |}.

End Drawn.

Module Outlier.

(** Six companies: [E1] to [E5] have one contract each, with [BIG]; [BIG]
    has these five and one with each of five officials. *)
Definition batch : analysis_result :=
  {| res_entities :=
       map Star.company ["E1"; "E2"; "E3"; "E4"; "E5"; "BIG"]
       ++ map Star.official ["F1"; "F2"; "F3"; "F4"; "F5"];
     res_relationships :=
       map (fun e => Star.contract e "BIG") ["E1"; "E2"; "E3"; "E4"; "E5"]
       ++ map (Star.contract "BIG") ["F1"; "F2"; "F3"; "F4"; "F5"] |}.

Definition state : analyzer := fst (App._update_graph init batch).

End Outlier.

Module Round.

(** The three entities and the three relationships of the triangle
    A - B - C - A, as one answer of the model *)
Definition batch : analysis_result :=
  {| res_entities :=
       [Triangle.person "A" "funcionario"; Triangle.person "B" "empresa";
        Triangle.person "C" "funcionario"];
     res_relationships :=
       [Triangle.link "A" "B"; Triangle.link "B" "C"; Triangle.link "C" "A"] |}.

End Round.

(** * Properties *)

(** ** Dicts *)

Module DictFacts.

Lemma get_set_same {V} (k : string) (v : V) (d : Dict.t V) :
  Dict.get k (Dict.set k v d) = Some v.
Proof.
  induction d as [|[k' v'] d IH]; simpl.
  - now rewrite String.eqb_refl.
  - destruct (String.eqb k k') eqn:E; simpl; rewrite E; auto.
Qed.

Lemma get_set_other {V} (k k' : string) (v : V) (d : Dict.t V) :
  k <> k' -> Dict.get k (Dict.set k' v d) = Dict.get k d.
Proof.
  intros Hne. induction d as [|[k0 v0] d IH]; simpl.
  - destruct (String.eqb_spec k k'); congruence.
  - destruct (String.eqb_spec k' k0); simpl.
    + subst k0. destruct (String.eqb_spec k k'); congruence.
    + now rewrite IH.
Qed.

Lemma mem_set {V} (k k' : string) (v : V) (d : Dict.t V) :
  Dict.mem k (Dict.set k' v d) = String.eqb k k' || Dict.mem k d.
Proof.
  unfold Dict.mem. destruct (String.eqb_spec k k') as [->|Hne].
  - now rewrite get_set_same.
  - now rewrite get_set_other.
Qed.

Lemma mem_keys {V} (k : string) (d : Dict.t V) :
  Dict.mem k d = mem_string k (Dict.keys d).
Proof.
  unfold Dict.mem, mem_string.
  induction d as [|[k' v'] d IH]; simpl; auto.
  destruct (String.eqb k k'); auto.
Qed.

Lemma keys_set_old {V} (k : string) (v : V) (d : Dict.t V) :
  Dict.mem k d = true -> Dict.keys (Dict.set k v d) = Dict.keys d.
Proof.
  unfold Dict.mem.
  induction d as [|[k' v'] d IH]; simpl; [discriminate|].
  destruct (String.eqb k k') eqn:E; simpl; auto.
  intros H. now rewrite IH.
Qed.

Lemma keys_set_new {V} (k : string) (v : V) (d : Dict.t V) :
  Dict.mem k d = false -> Dict.keys (Dict.set k v d) = Dict.keys d ++ [k].
Proof.
  unfold Dict.mem.
  induction d as [|[k' v'] d IH]; simpl; auto.
  destruct (String.eqb k k') eqn:E; simpl; [discriminate|].
  intros H. now rewrite IH.
Qed.

Lemma length_set_old {V} (k : string) (v : V) (d : Dict.t V) :
  Dict.mem k d = true -> length (Dict.set k v d) = length d.
Proof.
  intros H. apply keys_set_old with (v := v) in H.
  apply (f_equal (@length _)) in H. unfold Dict.keys in H.
  now rewrite !length_map in H.
Qed.

Lemma mem_get {V} (k : string) (d : Dict.t V) :
  Dict.mem k d = true -> exists v, Dict.get k d = Some v.
Proof.
  unfold Dict.mem. destruct (Dict.get k d); [eauto | discriminate].
Qed.

Lemma get_in {V} (k : string) (v : V) (d : Dict.t V) :
  Dict.get k d = Some v -> In (k, v) d.
Proof.
  induction d as [|[k' v'] d IH]; simpl; [discriminate|].
  destruct (String.eqb_spec k k') as [->|].
  - intros [= ->]. now left.
  - intros H. right. auto.
Qed.

(** [d.update(other)] read key by key: the new value where [other] has
    the key, the old one elsewhere. *)
Lemma get_update {V} (k : string) (d other : Dict.t V) :
  Dict.get k (Dict.update d other) =
  match Dict.get k (rev other) with
  | Some v => Some v
  | None => Dict.get k d
  end.
Proof.
  unfold Dict.update. revert d.
  induction other as [|[k' v'] other IH]; intros d; simpl; auto.
  rewrite IH. clear IH.
  assert (Hrev : forall (l : Dict.t V),
             Dict.get k (l ++ [(k', v')]) =
             match Dict.get k l with
             | Some v => Some v
             | None => if String.eqb k k' then Some v' else None
             end).
  { induction l as [|[a b] l IHl]; simpl; auto.
    destruct (String.eqb k a); auto. }
  rewrite Hrev. destruct (Dict.get k (rev other)); auto.
  destruct (String.eqb_spec k k') as [->|Hne].
  - apply get_set_same.
  - now apply get_set_other.
Qed.

Lemma mem_update {V} (k : string) (d other : Dict.t V) :
  Dict.mem k d = true -> Dict.mem k (Dict.update d other) = true.
Proof.
  unfold Dict.mem. rewrite get_update.
  destruct (Dict.get k (rev other)); auto.
Qed.

End DictFacts.

(** ** The loops of [cycle_basis] end *)

Module NxTermination.
Import Nx.

Section Walk.

Variable g : Graph.

Lemma unreached_set_old (u : Dict.t (list node)) (k : node) (v : list node) :
  Dict.mem k u = true -> unreached g (Dict.set k v u) = unreached g u.
Proof.
  intros Hk. unfold unreached. f_equal. apply filter_ext. intros n.
  rewrite DictFacts.mem_set.
  destruct (String.eqb_spec n k) as [->|]; simpl; auto.
  now rewrite Hk.
Qed.

Lemma filter_length_drop {A} (f f' : A -> bool) (x : A) (l : list A) :
  (forall a, f' a = true -> f a = true) ->
  In x l -> f x = true -> f' x = false ->
  length (filter f' l) < length (filter f l).
Proof.
  intros Himp. induction l as [|a l IH]; simpl; [tauto|].
  assert (Hle : forall l0, length (filter f' l0) <= length (filter f l0)).
  { induction l0 as [|b l0 IH0]; simpl; auto.
    destruct (f' b) eqn:E'.
    - rewrite (Himp _ E'). simpl. lia.
    - destruct (f b); simpl; lia. }
  intros [->|Hin] Hx Hx'.
  - rewrite Hx, Hx'. simpl. specialize (Hle l). lia.
  - specialize (IH Hin Hx Hx').
    destruct (f' a) eqn:E'.
    + rewrite (Himp _ E'). simpl. lia.
    + destruct (f a); simpl; lia.
Qed.

Lemma unreached_set_new (u : Dict.t (list node)) (k : node) (v : list node) :
  In k (names g) -> Dict.mem k u = false ->
  unreached g (Dict.set k v u) < unreached g u.
Proof.
  intros Hin Hk. unfold unreached.
  apply filter_length_drop with (x := k); auto.
  - intros a. rewrite DictFacts.mem_set.
    destruct (String.eqb a k); simpl; [discriminate | auto].
  - now rewrite Hk.
  - rewrite DictFacts.mem_set, String.eqb_refl. reflexivity.
Qed.

Lemma visit_measure z zused st nbr st' :
  In nbr (names g) ->
  visit z zused st nbr = Ok st' -> measure g st' <= measure g st.
Proof.
  intros Hin. unfold visit.
  destruct (Dict.get nbr (used st)) as [pn|] eqn:Hget.
  - assert (Hmem : Dict.mem nbr (used st) = true)
      by (unfold Dict.mem; now rewrite Hget).
    destruct (String.eqb nbr z).
    + intros [= <-]. unfold measure. simpl. lia.
    + destruct (negb (mem_string nbr zused)).
      * destruct (subscript (pred st) z) as [p|]; simpl; [|discriminate].
        destruct (climb _ _ _ _ _); simpl; [|discriminate].
        intros [= <-]. unfold measure. simpl.
        rewrite unreached_set_old; auto.
      * intros [= <-]. lia.
  - assert (Hmem : Dict.mem nbr (used st) = false)
      by (unfold Dict.mem; now rewrite Hget).
    intros [= <-]. unfold measure. simpl.
    pose proof (@unreached_set_new (used st) nbr [z] Hin Hmem). lia.
Qed.

Lemma visit_all_measure z zused nbrs : forall st st',
  (forall n, In n nbrs -> In n (names g)) ->
  visit_all z zused st nbrs = Ok st' -> measure g st' <= measure g st.
Proof.
  induction nbrs as [|nbr nbrs IH]; intros st st' Hsub; simpl.
  - now intros [= <-].
  - destruct (visit z zused st nbr) as [st1|] eqn:Hv; simpl; [|discriminate].
    intros H. apply IH in H; [|intros; apply Hsub; now right].
    apply visit_measure in Hv; [lia|]. apply Hsub. now left.
Qed.

Lemma neighbours_named z nbrs :
  subscript (_adj g) z = Ok nbrs ->
  forall n, In n (Dict.keys nbrs) -> In n (names g).
Proof.
  unfold subscript. destruct (Dict.get z (_adj g)) as [v|] eqn:Hg; [|discriminate].
  intros [= ->] n Hn. unfold names. apply in_or_app. right.
  apply in_flat_map. exists (z, nbrs). split; auto.
  now apply DictFacts.get_in.
Qed.

Lemma walk_ends : forall fuel st,
  measure g st < fuel -> walk fuel g st <> None.
Proof.
  induction fuel as [|fuel IH]; intros st Hm; [lia|].
  simpl. destruct (stack st) as [|z rest] eqn:Hst; [discriminate|].
  destruct (subscript (used st) z) as [zused|]; [|discriminate].
  destruct (subscript (_adj g) z) as [nbrs|] eqn:Hadj; [|discriminate].
  destruct (visit_all _ _ _ _) as [st'|] eqn:Hv; [|discriminate].
  apply IH. apply visit_all_measure in Hv.
  - unfold measure in *. simpl in *. rewrite Hst in Hm. simpl in Hm. lia.
  - now apply neighbours_named with (z := z).
Qed.

Lemma walk_from_root_ends (root : node) (found : list (list node)) :
  walk (walk_fuel g) g
    {| stack := [root]; pred := [(root, root)];
       used := [(root, [])]; cycles := found |} <> None.
Proof.
  apply walk_ends. unfold measure, walk_fuel, unreached.
  cbn [stack used length].
  match goal with
  | |- context [length (filter ?f ?l)] => pose proof (filter_length_le f l)
  end.
  unfold node in *. lia.
Qed.

End Walk.

Lemma popitem_length gnodes root rest :
  popitem gnodes = Some (root, rest) -> length gnodes = S (length rest).
Proof.
  revert root rest. induction gnodes as [|n l IH]; intros root rest; simpl.
  - discriminate.
  - destruct l as [|m l'].
    + now intros [= <- <-].
    + destruct (popitem (m :: l')) as [[r rest']|] eqn:Hp; [|discriminate].
      intros [= <- <-]. simpl. f_equal. now apply IH with (root := r).
Qed.

Lemma components_end g : forall fuel gnodes found,
  length gnodes <= fuel -> components fuel g gnodes found <> None.
Proof.
  induction fuel as [|fuel IH]; intros gnodes found Hlen.
  - destruct gnodes; [simpl; discriminate | simpl in Hlen; lia].
  - cbn [components].
    destruct (popitem gnodes) as [[root rest]|] eqn:Hp; [|discriminate].
    pose proof (walk_from_root_ends g root found) as Hw.
    destruct (walk (walk_fuel g) g _) as [[st|e]|]; [|discriminate|congruence].
    apply IH. apply popitem_length in Hp.
    pose proof (filter_length_le (fun n => negb (Dict.mem n (pred st))) rest).
    unfold node in *. lia.
Qed.

(** The two loops of [cycle_basis] end on every graph value. *)
Lemma cycle_basis_steps_total (g : Graph) :
  exists r, cycle_basis_steps g = Some r.
Proof.
  unfold cycle_basis_steps.
  pose proof (@components_end g (length (_node g)) (Dict.keys (_node g)) []) as H.
  destruct (components _ _ _ _) as [r|]; [eauto|].
  exfalso. apply H; [|reflexivity]. unfold Dict.keys. now rewrite length_map.
Qed.

End NxTermination.

(** ** Ingestion in main.py *)

Module MainIngest.

(** [ENTITY_TYPES] and [RELATIONSHIP_TYPES] have no key ["otro"]: both
    lookups raise on every type, known or not. *)
Lemma get_entity_config_raises (entity_type : string) :
  Config.get_entity_config entity_type = Raise (KeyError "otro").
Proof. reflexivity. Qed.

Lemma get_relationship_config_raises (relationship_type : string) :
  Config.get_relationship_config relationship_type = Raise (KeyError "otro").
Proof. reflexivity. Qed.

Lemma add_entity_raises (s : analyzer) (e : entity) :
  Main.add_entity s e = Raise (KeyError "otro").
Proof. reflexivity. Qed.

Lemma add_relationship_raises (s : analyzer) (rel : relationship) :
  Main.add_relationship s rel = Raise (KeyError "otro").
Proof. reflexivity. Qed.

(** A batch that is not empty is refused before anything is written. *)
Lemma update_graph_refuses (s : analyzer) (r : analysis_result) :
  res_entities r <> [] \/ res_relationships r <> [] ->
  Main._update_graph s r = (s, Some (KeyError "otro")).
Proof.
  unfold Main._update_graph.
  destruct (res_entities r) as [|e es]; simpl.
  - intros [H|H]; [congruence|].
    destruct (res_relationships r); [congruence | reflexivity].
  - reflexivity.
Qed.

Lemma update_graph_empty (s : analyzer) :
  Main._update_graph s {| res_entities := []; res_relationships := [] |}
  = (s, None).
Proof. reflexivity. Qed.

End MainIngest.

(** ** Nodes and edges of the graph *)

Module NxFacts.
Import Nx.

Lemma degree_of_keys (n : node) (nbrs nbrs' : Dict.t attr_dict) :
  Dict.keys nbrs = Dict.keys nbrs' -> degree_of n nbrs = degree_of n nbrs'.
Proof.
  intros H. unfold degree_of. rewrite !DictFacts.mem_keys, H.
  f_equal. unfold Dict.keys in H.
  apply (f_equal (@length _)) in H. now rewrite !length_map in H.
Qed.

Lemma degree_topology (g g' : Graph) :
  topology (_adj g) = topology (_adj g') -> degree g = degree g'.
Proof.
  unfold degree, topology.
  generalize (_adj g') as l'. generalize (_adj g) as l. induction l as [|[n nb] l IH]; intros [|[n' nb'] l'];
    simpl; try discriminate; auto.
  intros [= -> Hk Hl]. f_equal; auto.
  f_equal. now apply degree_of_keys.
Qed.

Lemma edges_topology (g g' : Graph) :
  topology (_adj g) = topology (_adj g') -> edges g = edges g'.
Proof.
  unfold edges, topology. generalize (@nil node) as seen.
  generalize (_adj g') as l'. generalize (_adj g) as l. induction l as [|[n nb] l IH]; intros [|[n' nb'] l'];
    simpl; try discriminate; auto.
  intros seen [= -> Hk Hl]. rewrite Hk. f_equal. now apply IH.
Qed.

Lemma topology_set (adj : Dict.t (Dict.t attr_dict)) (n : node)
  (nbrs nbrs' : Dict.t attr_dict) :
  Dict.get n adj = Some nbrs -> Dict.keys nbrs' = Dict.keys nbrs ->
  topology (Dict.set n nbrs' adj) = topology adj.
Proof.
  intros Hget Hk. unfold topology.
  induction adj as [|[k v] adj IH]; simpl in *; [discriminate|].
  destruct (String.eqb_spec n k) as [->|Hne]; simpl.
  - injection Hget as ->. now rewrite Hk.
  - f_equal. auto.
Qed.

Lemma ensure_node_old (g : Graph) (u : node) :
  Dict.mem u (_node g) = true -> ensure_node g u = g.
Proof. unfold ensure_node. now intros ->. Qed.

Lemma ensure_node_mem (g : Graph) (u : node) :
  Dict.mem u (_node (ensure_node g u)) = true.
Proof.
  unfold ensure_node. destruct (Dict.mem u (_node g)) eqn:E; simpl; auto.
  rewrite DictFacts.mem_set, String.eqb_refl. reflexivity.
Qed.

Lemma ensure_node_keeps (g : Graph) (u n : node) :
  Dict.mem n (_node g) = true -> Dict.mem n (_node (ensure_node g u)) = true.
Proof.
  intros H. unfold ensure_node. destruct (Dict.mem u (_node g)); simpl; auto.
  rewrite DictFacts.mem_set, H. apply orb_true_r.
Qed.

Lemma ensure_node_get_new (g : Graph) (u : node) :
  Dict.mem u (_node g) = false ->
  Dict.get u (_node (ensure_node g u)) = Some [].
Proof.
  intros H. unfold ensure_node. rewrite H. simpl. apply DictFacts.get_set_same.
Qed.

Lemma ensure_node_get_other (g : Graph) (u n : node) :
  n <> u -> Dict.get n (_node (ensure_node g u)) = Dict.get n (_node g).
Proof.
  intros H. unfold ensure_node. destruct (Dict.mem u (_node g)); simpl; auto.
  now apply DictFacts.get_set_other.
Qed.

Lemma add_edge_nodes (g : Graph) (u v : node) (attr : attr_dict) :
  _node (add_edge g u v attr) = _node (ensure_node (ensure_node g u) v).
Proof. reflexivity. Qed.

(** Both endpoints are nodes after [add_edge], whatever they were. *)
Lemma add_edge_endpoints (g : Graph) (u v : node) (attr : attr_dict) :
  Dict.mem u (_node (add_edge g u v attr)) = true /\
  Dict.mem v (_node (add_edge g u v attr)) = true.
Proof.
  rewrite add_edge_nodes. split.
  - apply ensure_node_keeps, ensure_node_mem.
  - apply ensure_node_mem.
Qed.

(** An endpoint that [add_edge] had to create has no attribute. *)
Lemma add_edge_creates_source (g : Graph) (u v : node) (attr : attr_dict) :
  Dict.mem u (_node g) = false ->
  Dict.get u (_node (add_edge g u v attr)) = Some [].
Proof.
  intros H. rewrite add_edge_nodes.
  destruct (String.eqb_spec u v) as [<-|Hne].
  - rewrite (ensure_node_old (ensure_node g u) u (ensure_node_mem g u)).
    now apply ensure_node_get_new.
  - rewrite ensure_node_get_other by assumption.
    now apply ensure_node_get_new.
Qed.

Lemma add_edge_creates_target (g : Graph) (u v : node) (attr : attr_dict) :
  Dict.mem v (_node g) = false ->
  Dict.get v (_node (add_edge g u v attr)) = Some [].
Proof.
  intros H. rewrite add_edge_nodes.
  destruct (String.eqb_spec v u) as [->|Hne].
  - rewrite (ensure_node_old (ensure_node g u) u (ensure_node_mem g u)).
    now apply ensure_node_get_new.
  - apply ensure_node_get_new.
    unfold Dict.mem. rewrite ensure_node_get_other by assumption.
    unfold Dict.mem in H. exact H.
Qed.

(** [add_edge] over an edge that is there: the edge keeps its place and
    only its attribute dict is updated. *)
Lemma add_edge_again (g : Graph) (u v : node) (attr : attr_dict)
  (adj_u adj_v : Dict.t attr_dict) :
  Dict.mem u (_node g) = true -> Dict.mem v (_node g) = true ->
  Dict.get u (_adj g) = Some adj_u -> Dict.mem v adj_u = true ->
  Dict.get v (_adj g) = Some adj_v -> Dict.mem u adj_v = true ->
  _node (add_edge g u v attr) = _node g /\
  topology (_adj (add_edge g u v attr)) = topology (_adj g) /\
  Dict.get v (Dict.get_default u (_adj (add_edge g u v attr)) []) =
    Some (Dict.update (Dict.get_default v adj_u []) attr).
Proof.
  intros Hu Hv Hau Hvu Hav Huv. unfold add_edge.
  rewrite (ensure_node_old g u Hu), (ensure_node_old g v Hv).
  assert (Eu : Dict.get_default u (_adj g) [] = adj_u)
    by (unfold Dict.get_default; now rewrite Hau).
  cbv zeta. rewrite Eu.
  set (dd := Dict.update (Dict.get_default v adj_u []) attr).
  set (adj1 := Dict.set u (Dict.set v dd adj_u) (_adj g)).
  assert (Ht1 : topology adj1 = topology (_adj g)).
  { apply topology_set with (nbrs := adj_u); auto.
    now apply DictFacts.keys_set_old. }
  cbn [_node _adj]. split; [reflexivity|]. split.
  - rewrite <- Ht1.
    destruct (String.eqb_spec v u) as [->|Hne].
    + assert (Hg : Dict.get u adj1 = Some (Dict.set u dd adj_u))
        by (subst adj1; apply DictFacts.get_set_same).
      unfold Dict.get_default. rewrite Hg.
      apply topology_set with (nbrs := Dict.set u dd adj_u); auto.
      apply DictFacts.keys_set_old. rewrite DictFacts.mem_set.
      now rewrite String.eqb_refl.
    + assert (Hg : Dict.get v adj1 = Some adj_v)
        by (subst adj1; now rewrite DictFacts.get_set_other).
      unfold Dict.get_default at 1. rewrite Hg.
      apply topology_set with (nbrs := adj_v); auto.
      now apply DictFacts.keys_set_old.
  - destruct (String.eqb_spec v u) as [->|Hne].
    + unfold Dict.get_default at 1. rewrite DictFacts.get_set_same.
      apply DictFacts.get_set_same.
    + assert (Hne' : u <> v) by congruence.
      unfold Dict.get_default at 1.
      rewrite (DictFacts.get_set_other _ _ Hne').
      subst adj1. rewrite DictFacts.get_set_same. apply DictFacts.get_set_same.
Qed.

(** [add_node] over a node that is there: no node is added, and its
    attribute dict is updated key by key. *)
Lemma add_node_again (g : Graph) (n : node) (attr old : attr_dict) :
  Dict.get n (_node g) = Some old ->
  Dict.keys (_node (add_node g n attr)) = Dict.keys (_node g) /\
  _adj (add_node g n attr) = _adj g /\
  Dict.get n (_node (add_node g n attr)) = Some (Dict.update old attr).
Proof.
  intros H. unfold add_node. rewrite H. simpl. repeat split.
  - apply DictFacts.keys_set_old. unfold Dict.mem. now rewrite H.
  - apply DictFacts.get_set_same.
Qed.

End NxFacts.

(** ** Ingestion step by step *)

Module IngestFacts.

Lemma mem_app {V} (k : string) (d d' : Dict.t V) :
  Dict.mem k (d ++ d') = Dict.mem k d || Dict.mem k d'.
Proof.
  unfold Dict.mem. induction d as [|[a b] d IH]; simpl.
  - reflexivity.
  - destruct (String.eqb k a); auto.
Qed.

Lemma mem_not_key {V} (k : string) (d : Dict.t V) :
  ~ In k (Dict.keys d) -> Dict.mem k d = false.
Proof.
  unfold Dict.mem. induction d as [|[a b] d IH]; simpl; auto.
  intros H. destruct (String.eqb_spec k a) as [->|Hne]; [tauto|].
  apply IH. tauto.
Qed.

(** Keywords that are all different and none of which is a key of the
    attributes: the call goes through with the attributes first and the
    keywords after them. *)
Lemma keywords_ok (explicit : list (string * scalar)) : forall kwargs,
  (forall k, In k (Dict.keys explicit) -> Dict.mem k kwargs = false) ->
  NoDup (Dict.keys explicit) ->
  keywords kwargs explicit = Ok (kwargs ++ explicit).
Proof.
  induction explicit as [|[k v] rest IH]; intros kwargs Hfree Hnd; simpl.
  - now rewrite app_nil_r.
  - rewrite (Hfree k) by (simpl; auto).
    inversion Hnd as [|? ? Hk Hrest]; subst.
    rewrite IH; auto.
    + now rewrite <- app_assoc.
    + intros k' Hk'. rewrite mem_app, (Hfree k') by (simpl; auto).
      simpl. unfold Dict.mem. simpl.
      destruct (String.eqb_spec k' k) as [->|]; [tauto | reflexivity].
Qed.

Lemma call_keywords_ok (positional : list string) (attributes : attr_dict)
  (explicit : list (string * scalar)) :
  (forall k, In k (positional ++ Dict.keys explicit) ->
             Dict.mem k attributes = false) ->
  NoDup (positional ++ Dict.keys explicit) ->
  call_keywords positional attributes explicit = Ok (attributes ++ explicit).
Proof.
  intros Hfree Hnd. unfold call_keywords.
  rewrite keywords_ok.
  - simpl. destruct (find _ (Dict.keys _)) as [p|] eqn:Hfind; auto.
    exfalso. apply find_some in Hfind as [Hmem Hp].
    unfold mem_string in Hp. apply existsb_exists in Hp as (q & Hq & E).
    apply String.eqb_eq in E. subst q.
    assert (Hno : ~ In p (Dict.keys explicit)).
    { clear Hfree Hmem. induction positional as [|a l IHl]; [destruct Hq|].
      simpl in Hnd. inversion Hnd as [|? ? Ha Hl]; subst.
      destruct Hq as [->|Hq]; [|now apply IHl].
      intros Hin. apply Ha, in_or_app. auto. }
    unfold Dict.keys in Hmem. rewrite map_app in Hmem.
    apply in_app_or in Hmem as [Hmem|Hmem]; [|now apply Hno].
    assert (Hin : In p (positional ++ Dict.keys explicit))
      by (apply in_or_app; auto).
    pose proof (Hfree p Hin) as Hfalse.
    rewrite DictFacts.mem_keys in Hfalse.
    unfold mem_string in Hfalse.
    assert (Htrue : existsb (String.eqb p) (Dict.keys attributes) = true).
    { apply existsb_exists. exists p. split; [exact Hmem|].
      apply String.eqb_refl. }
    unfold Dict.keys in Htrue, Hfalse. congruence.
  - intros k Hk. apply Hfree, in_or_app. auto.
  - now apply NoDup_app_remove_l in Hnd.
Qed.

Ltac distinct_strings :=
  repeat (constructor; [simpl; intuition discriminate|]); constructor.

Lemma app_node_call (e : entity) :
  free_of node_keywords (e_attributes e) ->
  call_keywords ["self"; "node_for_adding"] (e_attributes e)
    [("node_type", SStr (e_type e)); ("name", SStr (e_name e))]
  = Ok (e_attributes e ++
        [("node_type", SStr (e_type e)); ("name", SStr (e_name e))]).
Proof.
  intros H. apply call_keywords_ok; [|distinct_strings].
  intros k Hk. apply H. simpl in *. tauto.
Qed.

Lemma main_node_call (e : entity) (c : Config.entity_config) :
  free_of node_keywords (e_attributes e) ->
  call_keywords ["self"; "node_for_adding"] (e_attributes e)
    [("node_type", SStr (e_type e)); ("name", SStr (e_name e));
     ("color", SStr (Config.ec_color c)); ("icon", SStr (Config.ec_icon c))]
  = Ok (e_attributes e ++
        [("node_type", SStr (e_type e)); ("name", SStr (e_name e));
         ("color", SStr (Config.ec_color c));
         ("icon", SStr (Config.ec_icon c))]).
Proof.
  intros H. apply call_keywords_ok; [|distinct_strings].
  intros k Hk. apply H. simpl in *. tauto.
Qed.

Lemma app_edge_call (rel : relationship) :
  free_of edge_keywords (r_attributes rel) ->
  call_keywords ["self"; "u_of_edge"; "v_of_edge"] (r_attributes rel)
    [("relationship_type", SStr (r_type rel))]
  = Ok (r_attributes rel ++ [("relationship_type", SStr (r_type rel))]).
Proof.
  intros H. apply call_keywords_ok; [|distinct_strings].
  intros k Hk. apply H. simpl in *. tauto.
Qed.

Lemma main_edge_call (rel : relationship) (c : Config.relationship_config) :
  free_of edge_keywords (r_attributes rel) ->
  call_keywords ["self"; "u_of_edge"; "v_of_edge"] (r_attributes rel)
    [("relationship_type", SStr (r_type rel));
     ("color", SStr (Config.rc_color c));
     ("risk_factor", SFloat (Config.rc_risk_factor c))]
  = Ok (r_attributes rel ++
        [("relationship_type", SStr (r_type rel));
         ("color", SStr (Config.rc_color c));
         ("risk_factor", SFloat (Config.rc_risk_factor c))]).
Proof.
  intros H. apply call_keywords_ok; [|distinct_strings].
  intros k Hk. apply H. simpl in *. tauto.
Qed.

Lemma count_set (d : Dict.t entity) (k : string) (e old : entity) (t : string) :
  Dict.get k d = Some old ->
  length (filter (fun x => String.eqb (e_type x) t) (Dict.values (Dict.set k e d)))
  + (if String.eqb (e_type old) t then 1 else 0)
  = length (filter (fun x => String.eqb (e_type x) t) (Dict.values d))
    + (if String.eqb (e_type e) t then 1 else 0).
Proof.
  induction d as [|[k' v'] d IH]; simpl; [discriminate|].
  destruct (String.eqb k k'); simpl.
  - intros [= ->].
    destruct (String.eqb (e_type e) t), (String.eqb (e_type old) t); simpl; lia.
  - intros H. specialize (IH H).
    destruct (String.eqb (e_type v') t); simpl; lia.
Qed.

End IngestFacts.

(** ** Entities of an unknown type *)

Lemma add_node_stores (s : analyzer) (e : entity) (kwargs : attr_dict) :
  Dict.get "node_type" (rev kwargs) = Some (SStr (e_type e)) ->
  Dict.get "name" (rev kwargs) = Some (SStr (e_name e)) ->
  stored s e
    {| graph := Nx.add_node (graph s) (e_id e) kwargs;
       entities := Dict.set (e_id e) e (entities s);
       relationships := relationships s |}.
Proof.
  intros Htype Hname. unfold stored. cbn [graph entities relationships].
  split; [apply DictFacts.get_set_same|]. split; [|split; [|reflexivity]].
  - unfold Nx.add_node.
    destruct (Dict.get (e_id e) (Nx._node (graph s))) as [old|];
      cbn [Nx._node]; rewrite DictFacts.get_set_same;
      eexists; (split; [reflexivity|]);
      rewrite !DictFacts.get_update, Htype, Hname; auto.
  - intros id Hid. split; [now apply DictFacts.get_set_other|].
    unfold Nx.add_node.
    destruct (Dict.get (e_id e) (Nx._node (graph s))) as [old|];
      cbn [Nx._node Nx._adj]; split; auto;
      now apply DictFacts.get_set_other.
Qed.

(** C1, as stated, fails.  The batch holds the entity [e1] of type
    [alien], which is no key of [ENTITY_TYPES].  app.py raises nothing and
    stores it: afterwards [e1] is a node with the [node_type] [alien] and
    has its record in the entity mapping; lines 95-103 of main.py do the
    same with whatever configuration the lookup hands them.  main.py as a
    whole raises and writes nothing, but the exception is the [KeyError] of
    the key [otro], which [ENTITY_TYPES] lacks: the lookup raises it for the
    known type [funcionario] as well, and the same batch without the entity
    of unknown type is refused in the same way. *)
Lemma unknown_entity_type_not_rejected :
  In UnknownType.alien (res_entities UnknownType.batch) /\
  Dict.mem (e_type UnknownType.alien) Config.ENTITY_TYPES = false /\
  ~ (exists exn, App._update_graph init UnknownType.batch = (init, Some exn)) /\
  App._update_graph init UnknownType.batch = (UnknownType.accepted, None) /\
  Dict.get "e1" (entities UnknownType.accepted) = Some UnknownType.alien /\
  Dict.get "e1" (Nx._node (graph UnknownType.accepted))
  = Some [("node_type", SStr "alien"); ("name", SStr "Zorg")] /\
  (forall entity_config, exists s',
      Main.add_entity_with init UnknownType.alien entity_config = Ok s' /\
      Dict.get "e1" (entities s') = Some UnknownType.alien /\
      Dict.mem "e1" (Nx._node (graph s')) = true) /\
  Main._update_graph init UnknownType.batch = (init, Some (KeyError "otro")) /\
  Config.get_entity_config (e_type UnknownType.alien)
  = Raise (KeyError "otro") /\
  Dict.mem "funcionario" Config.ENTITY_TYPES = true /\
  Config.get_entity_config "funcionario" = Raise (KeyError "otro") /\
  Main._update_graph init UnknownType.known_only
  = (init, Some (KeyError "otro")).
Proof.
  split; [right; now left|]. split; [reflexivity|].
  split; [intros [exn H]; discriminate H|].
  repeat (split; [reflexivity|]).
  split; [|repeat split].
  intros entity_config. eexists. repeat split.
Qed.

(** C1, amended.  Ingestion has no check of the entity type.  An entity
    is stored whatever its type, a key of [ENTITY_TYPES] or not:
    afterwards the entity mapping holds the record under the id of the
    entity, the id is a node whose attributes [node_type] and [name] are
    the type and the name of the entity, and the other records, the other
    nodes with their neighbours and the relationship list are as before.
    This holds for [_update_graph] of app.py and for lines 95-103 of
    main.py. *)
Theorem entity_of_any_type_is_stored (s : analyzer) (e : entity) :
  free_of node_keywords (e_attributes e) ->
  (exists s',
      App._update_graph s {| res_entities := [e]; res_relationships := [] |}
      = (s', None) /\
      stored s e s') /\
  (forall entity_config, exists s',
      Main.add_entity_with s e entity_config = Ok s' /\
      stored s e s').
Proof.
  intros Hfree. split.
  - unfold App._update_graph. cbn [res_entities res_relationships for_each].
    unfold App.add_entity.
    rewrite (IngestFacts.app_node_call e Hfree). cbn [bind for_each].
    eexists. split; [reflexivity|].
    apply add_node_stores; rewrite rev_app_distr; reflexivity.
  - intros entity_config. unfold Main.add_entity_with.
    rewrite (IngestFacts.main_node_call e entity_config Hfree). cbn [bind].
    eexists. split; [reflexivity|].
    apply add_node_stores; rewrite rev_app_distr; reflexivity.
Qed.

Lemma entity_of_any_type_is_stored_witness :
  Dict.mem (e_type UnknownType.alien) Config.ENTITY_TYPES = false /\
  free_of node_keywords (e_attributes UnknownType.alien) /\
  (exists s',
      App._update_graph init
        {| res_entities := [UnknownType.alien]; res_relationships := [] |}
      = (s', None) /\
      stored init UnknownType.alien s') /\
  (forall entity_config, exists s',
      Main.add_entity_with init UnknownType.alien entity_config = Ok s' /\
      stored init UnknownType.alien s').
Proof.
  assert (H : free_of node_keywords (e_attributes UnknownType.alien))
    by (intros k _; reflexivity).
  split; [reflexivity|]. split; [exact H|].
  exact (entity_of_any_type_is_stored init UnknownType.alien H).
Defined.

(** ** Relationships whose endpoints are unknown *)

(** C2, as stated, fails.  The batch holds one relationship between the ids
    [x] and [y], which are neither nodes nor entities of the batch.  app.py
    raises nothing and [add_edge] makes both ids nodes, without attributes and
    without an entity record; lines 108-116 of main.py do the same with the
    configuration of the type [comercial].  main.py as a whole raises, but
    the exception is the [KeyError] of [get_relationship_config], raised
    before the endpoints are looked at: the call fails in the same way on an
    analyzer that knows both ids. *)
Lemma dangling_reference_not_detected :
  dangling init Dangling.batch /\
  ~ (exists exn, App._update_graph init Dangling.batch = (init, Some exn)) /\
  App._update_graph init Dangling.batch = (Dangling.accepted, None) /\
  Dict.get "x" (Nx._node (graph Dangling.accepted)) = Some [] /\
  Dict.get "x" (entities Dangling.accepted) = None /\
  (forall rel_config,
      Dict.get (r_type Dangling.fact) Config.RELATIONSHIP_TYPES = Some rel_config ->
      exists s',
        Main.add_relationship_with init Dangling.fact rel_config = Ok s' /\
        Dict.get "x" (Nx._node (graph s')) = Some [] /\
        Dict.get "x" (entities s') = None) /\
  Main._update_graph init Dangling.batch = (init, Some (KeyError "otro")) /\
  Config.get_relationship_config (r_type Dangling.fact) = Raise (KeyError "otro") /\
  ~ dangling Dangling.known Dangling.batch /\
  Main._update_graph Dangling.known Dangling.batch
  = (Dangling.known, Some (KeyError "otro")).
Proof.
  split; [exists Dangling.fact; split; [now left | now left]|].
  split; [intros [exn H]; discriminate H|].
  repeat (split; [reflexivity|]).
  split.
  { intros rel_config H. injection H as <-.
    eexists. repeat split. }
  repeat (split; [reflexivity|]).
  split; [|reflexivity].
  intros [rel [[<-|[]] [H|H]]]; discriminate H.
Qed.

Lemma add_edge_creates (s : analyzer) (rel : relationship) (attr : attr_dict) :
  endpoints_created s rel
    {| graph := Nx.add_edge (graph s) (r_source rel) (r_target rel) attr;
       entities := entities s;
       relationships := relationships s ++ [rel] |}.
Proof.
  unfold endpoints_created. cbn [graph entities relationships].
  repeat split; try apply NxFacts.add_edge_endpoints.
  - apply NxFacts.add_edge_creates_source.
  - apply NxFacts.add_edge_creates_target.
Qed.

(** C2, amended.  Ingestion has no reference check.  A relationship is
    applied whether or not its source and target are known: both are nodes
    afterwards, an endpoint that was not a node before is created with an
    empty attribute dict, and the entity mapping is left as it was, so the
    created node has no entity record.  This holds for [_update_graph] of
    app.py and for lines 108-116 of main.py. *)
Theorem unknown_endpoints_become_nodes (s : analyzer) (rel : relationship) :
  free_of edge_keywords (r_attributes rel) ->
  (exists s',
      App._update_graph s {| res_entities := []; res_relationships := [rel] |}
      = (s', None) /\
      endpoints_created s rel s') /\
  (forall rel_config, exists s',
      Main.add_relationship_with s rel rel_config = Ok s' /\
      endpoints_created s rel s').
Proof.
  intros Hfree. split.
  - unfold App._update_graph. cbn [res_entities res_relationships for_each].
    unfold App.add_relationship.
    rewrite (IngestFacts.app_edge_call rel Hfree). cbn [bind].
    eexists. split; [reflexivity | apply add_edge_creates].
  - intros rel_config. unfold Main.add_relationship_with.
    rewrite (IngestFacts.main_edge_call rel rel_config Hfree). cbn [bind].
    eexists. split; [reflexivity | apply add_edge_creates].
Qed.

Lemma unknown_endpoints_become_nodes_witness :
  free_of edge_keywords (r_attributes Dangling.fact) /\
  (exists s', App._update_graph init Dangling.batch = (s', None) /\
              endpoints_created init Dangling.fact s') /\
  (forall rel_config, exists s',
      Main.add_relationship_with init Dangling.fact rel_config = Ok s' /\
      endpoints_created init Dangling.fact s').
Proof.
  assert (H : free_of edge_keywords
                (r_attributes Dangling.fact))
    by (intros k _; reflexivity).
  split; [exact H | exact (unknown_endpoints_become_nodes init Dangling.fact H)].
Defined.

(** ** An entity whose id is known already *)

Lemma set_again (s : analyzer) (e old : entity) (old_attr kwargs : attr_dict) :
  Dict.get (e_id e) (Nx._node (graph s)) = Some old_attr ->
  Dict.get (e_id e) (entities s) = Some old ->
  upserted s e old old_attr kwargs
    {| graph := Nx.add_node (graph s) (e_id e) kwargs;
       entities := Dict.set (e_id e) e (entities s);
       relationships := relationships s |}.
Proof.
  intros Hnode Hent. unfold upserted. cbn [graph entities relationships].
  destruct (NxFacts.add_node_again (graph s) (e_id e) kwargs Hnode)
    as (Hkeys & Hadj & Hget).
  split; [apply DictFacts.get_set_same|].
  split; [apply DictFacts.keys_set_old; unfold Dict.mem; now rewrite Hent|].
  split; [intros t; now apply IngestFacts.count_set|].
  split; [exact Hkeys|]. split; [exact Hadj|]. split.
  - intros Hnd. rewrite Hkeys. apply NoDup_count_occ'; auto.
    apply DictFacts.get_in in Hnode.
    apply in_map with (f := fst) in Hnode. exact Hnode.
  - exists (Dict.update old_attr kwargs). split; [exact Hget|].
    intros k. apply DictFacts.get_update.
Qed.

(** C4, as stated, fails.  The id [a] is ingested twice by app.py, first
    with the attribute [cargo], then with the attribute [rfc] only.  The node
    [a] still carries [cargo] afterwards: [add_node] updates the attribute
    dict of a node, it does not replace it.  main.py does not store the
    second fact at all: the lookup of its entity type raises. *)
Lemma upsert_merges_node_attributes :
  App._update_graph Upsert.once (Upsert.batch Upsert.second)
  = (Upsert.twice, None) /\
  Dict.mem "cargo" (e_attributes Upsert.second) = false /\
  Dict.get "a" (Nx._node (graph Upsert.twice))
  = Some [("cargo", SStr "Director"); ("node_type", SStr "empresa");
          ("name", SStr "Ana SA"); ("rfc", SStr "XAXX010101000")] /\
  Main._update_graph Upsert.once (Upsert.batch Upsert.second)
  = (Upsert.once, Some (KeyError "otro")).
Proof. repeat split. Qed.

(** C4, amended.  Ingesting an entity whose id is a node and an entity
    already replaces the record of the entity mapping by the new one (type,
    name and attributes: last write wins), keeps the ids of the mapping and
    the nodes of the graph as they are, so that the id is one node and the
    count of an entity type changes by the change of type only, and updates
    the attribute dict of the node key by key: a key of the call gets the
    new value, every other key keeps the old one.  This holds for
    [_update_graph] of app.py and for lines 95-103 of main.py. *)
Theorem upsert_replaces_record_updates_node (s : analyzer) (e old : entity)
  (old_attr : attr_dict) :
  free_of node_keywords (e_attributes e) ->
  Dict.get (e_id e) (Nx._node (graph s)) = Some old_attr ->
  Dict.get (e_id e) (entities s) = Some old ->
  (exists s',
      App._update_graph s {| res_entities := [e]; res_relationships := [] |}
      = (s', None) /\
      upserted s e old old_attr
        (e_attributes e ++
         [("node_type", SStr (e_type e)); ("name", SStr (e_name e))]) s') /\
  (forall entity_config, exists s',
      Main.add_entity_with s e entity_config = Ok s' /\
      upserted s e old old_attr
        (e_attributes e ++
         [("node_type", SStr (e_type e)); ("name", SStr (e_name e));
          ("color", SStr (Config.ec_color entity_config));
          ("icon", SStr (Config.ec_icon entity_config))]) s').
Proof.
  intros Hfree Hnode Hent. split.
  - unfold App._update_graph. cbn [res_entities res_relationships for_each].
    unfold App.add_entity.
    rewrite (IngestFacts.app_node_call e Hfree). cbn [bind for_each].
    eexists. split; [reflexivity | now apply set_again].
  - intros entity_config. unfold Main.add_entity_with.
    rewrite (IngestFacts.main_node_call e entity_config Hfree). cbn [bind].
    eexists. split; [reflexivity | now apply set_again].
Qed.

Lemma upsert_replaces_record_updates_node_witness :
  free_of node_keywords (e_attributes Upsert.second) /\
  Dict.get (e_id Upsert.second) (Nx._node (graph Upsert.once))
  = Some [("cargo", SStr "Director"); ("node_type", SStr "funcionario");
          ("name", SStr "Ana")] /\
  Dict.get (e_id Upsert.second) (entities Upsert.once) = Some Upsert.first /\
  exists s',
    App._update_graph Upsert.once (Upsert.batch Upsert.second) = (s', None) /\
    upserted Upsert.once Upsert.second Upsert.first
      [("cargo", SStr "Director"); ("node_type", SStr "funcionario");
       ("name", SStr "Ana")]
      (e_attributes Upsert.second ++
       [("node_type", SStr (e_type Upsert.second));
        ("name", SStr (e_name Upsert.second))]) s'.
Proof.
  assert (H1 : free_of node_keywords (e_attributes Upsert.second)).
  { intros k Hk. simpl in Hk.
    repeat (destruct Hk as [<-|Hk]; [reflexivity|]). destruct Hk. }
  split; [exact H1|]. split; [reflexivity|]. split; [reflexivity|].
  exact (proj1 (upsert_replaces_record_updates_node
                  Upsert.once Upsert.second H1 eq_refl eq_refl)).
Defined.

(** ** A second fact between two nodes *)

Lemma has_edge_get (g : Nx.Graph) (u v : node) :
  Nx.has_edge g u v = true ->
  exists adj_u, Dict.get u (Nx._adj g) = Some adj_u /\ Dict.mem v adj_u = true.
Proof.
  unfold Nx.has_edge, Dict.get_default.
  destruct (Dict.get u (Nx._adj g)) as [adj_u|]; [eauto | discriminate].
Qed.

Lemma add_edge_updates (s : analyzer) (rel : relationship) (kwargs : attr_dict) :
  Dict.mem (r_source rel) (Nx._node (graph s)) = true ->
  Dict.mem (r_target rel) (Nx._node (graph s)) = true ->
  Nx.has_edge (graph s) (r_source rel) (r_target rel) = true ->
  Nx.has_edge (graph s) (r_target rel) (r_source rel) = true ->
  edge_updated s rel kwargs
    {| graph := Nx.add_edge (graph s) (r_source rel) (r_target rel) kwargs;
       entities := entities s;
       relationships := relationships s ++ [rel] |}.
Proof.
  intros Hu Hv Huv Hvu.
  apply has_edge_get in Huv as (adj_u & Hau & Hmu).
  apply has_edge_get in Hvu as (adj_v & Hav & Hmv).
  destruct (@NxFacts.add_edge_again (graph s) (r_source rel) (r_target rel)
              kwargs adj_u adj_v Hu Hv Hau Hmu Hav Hmv)
    as (Hnode & Htopo & Hattr).
  unfold edge_updated. cbn [graph entities relationships].
  repeat split; auto.
  - now apply NxFacts.edges_topology.
  - now apply NxFacts.degree_topology.
  - rewrite Hattr. unfold Dict.get_default at 3. now rewrite Hau.
Qed.

(** C5, as stated, fails.  app.py ingests two facts between [a] and [b], a
    contract and a kinship.  Both are in the relationship list, but the graph
    has one edge between [a] and [b], which carries the attributes of both
    facts with the type of the second, and the degree of [a] is 1, not 2. *)
Lemma parallel_facts_share_one_edge :
  App._update_graph init Repeated.batch = (Repeated.twice, None) /\
  relationships Repeated.twice = [Repeated.contract; Repeated.kinship] /\
  Nx.edges (graph Repeated.twice) = [("a", "b")] /\
  Nx.degree (graph Repeated.twice) = [("a", 1); ("b", 1)] /\
  Dict.get "b" (Dict.get_default "a" (Nx._adj (graph Repeated.twice)) [])
  = Some [("monto", SInt 100); ("relationship_type", SStr "familiar")].
Proof. repeat split. Qed.

(** C5, amended.  Every relationship fact is appended to the relationship
    list as a record of its own.  The graph has one edge at most between two
    nodes: a fact between two nodes that are joined already adds no node and
    no edge and changes no degree; it updates the attribute dict of the edge
    that is there with the keywords of the call.  This holds for
    [_update_graph] of app.py and for lines 108-116 of main.py. *)
Theorem repeated_fact_updates_edge (s : analyzer) (rel : relationship) :
  free_of edge_keywords (r_attributes rel) ->
  Dict.mem (r_source rel) (Nx._node (graph s)) = true ->
  Dict.mem (r_target rel) (Nx._node (graph s)) = true ->
  Nx.has_edge (graph s) (r_source rel) (r_target rel) = true ->
  Nx.has_edge (graph s) (r_target rel) (r_source rel) = true ->
  (exists s',
      App._update_graph s {| res_entities := []; res_relationships := [rel] |}
      = (s', None) /\
      edge_updated s rel
        (r_attributes rel ++ [("relationship_type", SStr (r_type rel))]) s') /\
  (forall rel_config, exists s',
      Main.add_relationship_with s rel rel_config = Ok s' /\
      edge_updated s rel
        (r_attributes rel ++
         [("relationship_type", SStr (r_type rel));
          ("color", SStr (Config.rc_color rel_config));
          ("risk_factor", SFloat (Config.rc_risk_factor rel_config))]) s').
Proof.
  intros Hfree Hu Hv Huv Hvu. split.
  - unfold App._update_graph. cbn [res_entities res_relationships for_each].
    unfold App.add_relationship.
    rewrite (IngestFacts.app_edge_call rel Hfree). cbn [bind].
    eexists. split; [reflexivity | now apply add_edge_updates].
  - intros rel_config. unfold Main.add_relationship_with.
    rewrite (IngestFacts.main_edge_call rel rel_config Hfree). cbn [bind].
    eexists. split; [reflexivity | now apply add_edge_updates].
Qed.

Lemma repeated_fact_updates_edge_witness :
  free_of edge_keywords (r_attributes Repeated.kinship) /\
  Dict.mem (r_source Repeated.kinship) (Nx._node (graph Repeated.once)) = true /\
  Dict.mem (r_target Repeated.kinship) (Nx._node (graph Repeated.once)) = true /\
  Nx.has_edge (graph Repeated.once) (r_source Repeated.kinship)
    (r_target Repeated.kinship) = true /\
  Nx.has_edge (graph Repeated.once) (r_target Repeated.kinship)
    (r_source Repeated.kinship) = true /\
  exists s',
    App._update_graph Repeated.once
      {| res_entities := []; res_relationships := [Repeated.kinship] |}
    = (s', None) /\
    edge_updated Repeated.once Repeated.kinship
      (r_attributes Repeated.kinship ++
       [("relationship_type", SStr (r_type Repeated.kinship))]) s'.
Proof.
  assert (H1 : free_of edge_keywords (r_attributes Repeated.kinship))
    by (intros k _; reflexivity).
  split; [exact H1|]. repeat (split; [reflexivity|]).
  exact (proj1 (repeated_fact_updates_edge
                  Repeated.once Repeated.kinship H1
                  eq_refl eq_refl eq_refl eq_refl)).
Defined.

(** ** The two detectors *)

Module DetectFacts.

Lemma mapM_in {A B} (f : A -> result B) (l : list A) (out : list B) (y : B) :
  mapM f l = Ok out -> In y out -> exists x, In x l /\ f x = Ok y.
Proof.
  revert out. induction l as [|x l IH]; intros out; simpl.
  - intros [= <-] [].
  - destruct (f x) as [b|] eqn:Hf; simpl; [|discriminate].
    destruct (mapM f l) as [bs|]; simpl; [|discriminate].
    intros [= <-] [<-|Hin].
    + exists x. auto.
    + destruct (IH bs eq_refl Hin) as (x' & Hx' & Hfx'). exists x'. auto.
Qed.

Lemma mem_string_in (x : string) (l : list string) :
  mem_string x l = true -> In x l.
Proof.
  unfold mem_string. intros H. apply existsb_exists in H as (y & Hy & Heq).
  apply String.eqb_eq in Heq. now subst.
Qed.

Lemma types_have (s : analyzer) (t : string) (cycle : list node)
  (types : list string) :
  mapM (entity_type_of s) cycle = Ok types ->
  mem_string t types = true -> has_type s t cycle.
Proof.
  intros Hm Ht. apply mem_string_in in Ht.
  destruct (@mapM_in _ _ _ _ _ _ Hm Ht) as (n & Hn & Hty).
  unfold entity_type_of, subscript in Hty.
  destruct (Dict.get n (entities s)) as [e|] eqn:Hget; simpl in Hty; [|discriminate].
  injection Hty as Hty. exists n, e. auto.
Qed.

Lemma check_cycle_adds s min_length risk_level found cycle out :
  check_cycle s min_length risk_level found cycle = Ok out ->
  out = found \/
  exists p, out = found ++ [p] /\ reported s min_length risk_level p.
Proof.
  unfold check_cycle.
  destruct (Nat.leb min_length (length cycle)) eqn:Hlen; [|intros [= <-]; auto].
  destruct (mapM (entity_type_of s) cycle) as [types|] eqn:Hm; simpl; [|discriminate].
  destruct (mem_string "funcionario" types) eqn:Hf; simpl; [|intros [= <-]; auto].
  destruct (mem_string "empresa" types) eqn:He; simpl; [|intros [= <-]; auto].
  intros [= <-]. right. eexists. split; [reflexivity|].
  exists cycle. split; [reflexivity|]. split; [now apply Nat.leb_le|].
  split; eapply types_have; eauto.
Qed.

Lemma check_cycles_add s min_length risk_level cycles : forall found out,
  check_cycles s min_length risk_level found cycles = Ok out ->
  exists added, out = found ++ added /\
                Forall (reported s min_length risk_level) added.
Proof.
  induction cycles as [|cycle cycles IH]; intros found out; simpl.
  - intros [= <-]. exists []. split; [now rewrite app_nil_r | constructor].
  - destruct (check_cycle s min_length risk_level found cycle) as [found'|] eqn:Hc;
      simpl; [|discriminate].
    intros H. apply IH in H as (added & -> & Hall).
    apply check_cycle_adds in Hc as [->|(p & -> & Hp)].
    + eauto.
    + exists (p :: added). split; [now rewrite <- app_assoc | now constructor].
Qed.

Lemma over_threshold_kind threshold risk_level degrees :
  Forall (fun p => is_concentracion p = true)
         (over_threshold threshold risk_level degrees).
Proof.
  unfold over_threshold. apply Forall_forall. intros p Hp.
  apply in_flat_map in Hp as (nd & _ & Hp).
  destruct (Float64.ltb _ _); [|destruct Hp].
  destruct Hp as [<-|[]]. reflexivity.
Qed.

Lemma over_threshold_none threshold risk_level degrees :
  (forall nd, In nd degrees ->
              Float64.ltb threshold (Float64.of_nat (snd nd)) = false) ->
  over_threshold threshold risk_level degrees = [].
Proof.
  unfold over_threshold. induction degrees as [|nd l IH]; intros H; simpl; auto.
  rewrite (H nd) by now left. simpl. apply IH. intros; apply H; now right.
Qed.

(** The findings of main.py: findings for cycles, then what
    [concentration] makes of the degrees of the companies. *)
Lemma main_findings (s : analyzer) (found : list pattern) :
  Main.detect_suspicious_patterns s = Ok found ->
  found = [] \/
  exists cyc degrees more,
    found = cyc ++ more /\
    Forall (reported s (Config.min_cycle_length Config.RISK_THRESHOLDS)
              (Some "high")) cyc /\
    empresa_degrees s = Ok degrees /\
    Main.concentration degrees = Ok more.
Proof.
  unfold Main.detect_suspicious_patterns, Main.detect_body.
  destruct (Nx.cycle_basis (graph s)) as [cycles|]; simpl; [|intros [= <-]; auto].
  destruct (check_cycles _ _ _ _ _) as [cyc|] eqn:Hc; simpl; [|intros [= <-]; auto].
  destruct (empresa_degrees s) as [degrees|]; simpl; [|intros [= <-]; auto].
  destruct (Main.concentration degrees) as [more|] eqn:Hm; simpl; [|intros [= <-]; auto].
  intros [= <-]. right. exists cyc, degrees, more.
  apply check_cycles_add in Hc as (added & -> & Hall). simpl. auto.
Qed.

Lemma concentration_kind (degrees : list (node * nat)) (more : list pattern) :
  Main.concentration degrees = Ok more ->
  Forall (fun p => is_concentracion p = true) more.
Proof.
  unfold Main.concentration. destruct degrees as [|nd l].
  - intros [= <-]. constructor.
  - destruct (Main.threshold _); cbn [bind]; [|discriminate].
    intros H. injection H as <-.
    exact (over_threshold_kind _ _ (nd :: l)).
Qed.

Lemma reported_kind s min_length risk_level p :
  reported s min_length risk_level p -> is_concentracion p = false.
Proof. intros (cycle & -> & _). reflexivity. Qed.

End DetectFacts.

(** ** The triangle *)

Module TriangleFacts.

Lemma perm3 {A} (a b c : A) (l : list A) :
  Permutation l [a; b; c] ->
  l = [a; b; c] \/ l = [a; c; b] \/ l = [b; a; c] \/
  l = [b; c; a] \/ l = [c; a; b] \/ l = [c; b; a].
Proof.
  intros H.
  destruct (Permutation_vs_cons_inv H) as (l1 & l2 & ->).
  apply Permutation_sym, Permutation_cons_app_inv in H.
  apply Permutation_length_2_inv in H.
  destruct l1 as [|x [|y [|z l1]]]; simpl in *;
    destruct H as [H|H]; try discriminate H; try injection H as -> ->;
    subst; auto 7.
Qed.

Lemma keys2 {V} (d : Dict.t V) (a b : string) :
  Permutation (Dict.keys d) [a; b] ->
  exists x y, d = [(a, x); (b, y)] \/ d = [(b, y); (a, x)].
Proof.
  intros H. apply Permutation_sym, Permutation_length_2_inv in H.
  destruct d as [|[k1 v1] [|[k2 v2] [|]]]; simpl in H;
    destruct H as [H|H]; try discriminate H; injection H as -> ->; eauto.
Qed.

Lemma keys3 {V} (d : Dict.t V) (k1 k2 k3 : string) :
  Dict.keys d = [k1; k2; k3] ->
  exists v1 v2 v3, d = [(k1, v1); (k2, v2); (k3, v3)].
Proof.
  destruct d as [|[a v1] [|[b v2] [|[c v3] [|]]]]; simpl; try discriminate.
  intros [= -> -> ->]. eauto.
Qed.

(** One way of writing the triangle down: run the detector on it, with the
    types of the three nodes read from [HA], [HB], [HC]. *)
Ltac run_detector HA HB HC Hg :=
  unfold Main.detect_suspicious_patterns, Main.detect_body, empresa_degrees;
  rewrite Hg;
  match goal with
  | |- context [Nx.cycle_basis ?g] =>
      let r := eval vm_compute in (Nx.cycle_basis g) in
      replace (Nx.cycle_basis g) with r by (vm_compute; reflexivity)
  end;
  cbn [bind check_cycles check_cycle mapM length Nat.leb
       Config.min_cycle_length Config.RISK_THRESHOLDS];
  rewrite ?HA, ?HB, ?HC;
  cbn [bind];
  match goal with
  | |- context [Nx.degree ?g] =>
      let r := eval vm_compute in (Nx.degree g) in
      replace (Nx.degree g) with r by (vm_compute; reflexivity)
  end;
  cbn [filterM bind fst];
  rewrite ?HA, ?HB, ?HC;
  cbn [bind].

(** All the ways of writing the triangle down *)
Ltac each_triangle Hshape Hg :=
  destruct Hshape
    as (Hn & Hk & (na & HgA & HpA) & (nb & HgB & HpB) & (nc & HgC & HpC));
  match type of Hn with
  | Permutation (Dict.keys (Nx._node (graph ?s))) _ =>
      destruct (graph s) as [nodes adj] eqn:Hg
  end;
  cbn [Nx._node Nx._adj] in *;
  apply keys2 in HpA as (a1 & a2 & HpA);
  apply keys2 in HpB as (b1 & b2 & HpB);
  apply keys2 in HpC as (c1 & c2 & HpC);
  apply perm3 in Hn;
  destruct Hn as [Hn|[Hn|[Hn|[Hn|[Hn|Hn]]]]];
  rewrite Hn in Hk;
  apply keys3 in Hn as (n1 & n2 & n3 & ->);
  apply keys3 in Hk as (v1 & v2 & v3 & ->);
  cbn in HgA, HgB, HgC;
  injection HgA as <-; injection HgB as <-; injection HgC as <-;
  destruct HpA as [-> | ->]; destruct HpB as [-> | ->];
  destruct HpC as [-> | ->].

Lemma officials_only (s : analyzer) :
  is_triangle s ->
  entity_type_of s "A" = Ok "funcionario" ->
  entity_type_of s "B" = Ok "funcionario" ->
  entity_type_of s "C" = Ok "funcionario" ->
  Main.detect_suspicious_patterns s = Ok [].
Proof.
  intros Hshape HA HB HC.
  each_triangle Hshape Hg; run_detector HA HB HC Hg; vm_compute; reflexivity.
Qed.

Lemma is_triangle_state (ta tb tc : string) : is_triangle (Triangle.state ta tb tc).
Proof.
  split; [apply Permutation_refl|]. split; [reflexivity|].
  repeat split; eexists; (split; [reflexivity|]); cbn;
    try apply Permutation_refl; apply perm_swap.
Qed.

End TriangleFacts.

(** C6.  On every analyzer whose graph is the triangle A - B - C - A, with
    officials at A and C and a contractor at B, main.py returns one finding:
    a [ciclo_sospechoso] whose nodes are the three nodes. *)
Theorem triangle_gives_one_cycle_finding (s : analyzer) :
  is_triangle s ->
  entity_type_of s "A" = Ok "funcionario" ->
  entity_type_of s "B" = Ok "empresa" ->
  entity_type_of s "C" = Ok "funcionario" ->
  exists nodes,
    Main.detect_suspicious_patterns s
    = Ok [ciclo_sospechoso nodes (Some "high") description_ciclo] /\
    length nodes = 3 /\ In "A" nodes /\ In "B" nodes /\ In "C" nodes.
Proof.
  intros Hshape HA HB HC.
  TriangleFacts.each_triangle Hshape Hg;
    TriangleFacts.run_detector HA HB HC Hg;
    (eexists; split; [vm_compute; reflexivity | simpl; tauto]).
Qed.

Lemma triangle_gives_one_cycle_finding_witness :
  is_triangle Triangle.mixed /\
  entity_type_of Triangle.mixed "A" = Ok "funcionario" /\
  entity_type_of Triangle.mixed "B" = Ok "empresa" /\
  entity_type_of Triangle.mixed "C" = Ok "funcionario" /\
  exists nodes,
    Main.detect_suspicious_patterns Triangle.mixed
    = Ok [ciclo_sospechoso nodes (Some "high") description_ciclo] /\
    length nodes = 3 /\ In "A" nodes /\ In "B" nodes /\ In "C" nodes.
Proof.
  pose proof (TriangleFacts.is_triangle_state
                "funcionario" "empresa" "funcionario") as H.
  split; [exact H|]. repeat (split; [reflexivity|]).
  exact (triangle_gives_one_cycle_finding H eq_refl eq_refl eq_refl).
Defined.

(** C7.  A finding for a cycle is emitted only when some node of the cycle
    is an official and some node is a contractor: whatever the length of a
    cycle, if its nodes do not have both types, no finding of main.py names
    it.  In particular, on every analyzer whose graph is the triangle
    A - B - C - A of three officials, main.py returns no finding. *)
Theorem cycle_without_both_types_not_reported :
  (forall (s : analyzer) (cycle : list node),
      ~ (has_type s "funcionario" cycle /\ has_type s "empresa" cycle) ->
      forall found risk_level description,
        Main.detect_suspicious_patterns s = Ok found ->
        ~ In (ciclo_sospechoso cycle risk_level description) found) /\
  (forall s : analyzer,
      is_triangle s ->
      entity_type_of s "A" = Ok "funcionario" ->
      entity_type_of s "B" = Ok "funcionario" ->
      entity_type_of s "C" = Ok "funcionario" ->
      Main.detect_suspicious_patterns s = Ok []).
Proof.
  split; [|exact TriangleFacts.officials_only].
  intros s cycle Hno found risk_level description Hd Hin.
  apply DetectFacts.main_findings in Hd as [->|(cyc & degrees & more & -> & Hcyc & _ & Hm)];
    [destruct Hin|].
  apply in_app_or in Hin as [Hin|Hin].
  - rewrite Forall_forall in Hcyc.
    destruct (Hcyc _ Hin) as (cycle' & Heq & _ & Hf & He).
    injection Heq as <- _ _. tauto.
  - apply DetectFacts.concentration_kind in Hm.
    rewrite Forall_forall in Hm. specialize (Hm _ Hin). discriminate.
Qed.

Lemma cycle_without_both_types_not_reported_witness :
  ~ (has_type Triangle.officials "funcionario" ["B"; "A"; "C"] /\
     has_type Triangle.officials "empresa" ["B"; "A"; "C"]) /\
  Nx.cycle_basis (graph Triangle.officials) = Ok [["B"; "A"; "C"]] /\
  (forall found risk_level description,
      Main.detect_suspicious_patterns Triangle.officials = Ok found ->
      ~ In (ciclo_sospechoso ["B"; "A"; "C"] risk_level description) found) /\
  is_triangle Triangle.officials /\
  Main.detect_suspicious_patterns Triangle.officials = Ok [].
Proof.
  assert (H : ~ (has_type Triangle.officials "funcionario" ["B"; "A"; "C"] /\
                 has_type Triangle.officials "empresa" ["B"; "A"; "C"])).
  { intros [_ (n & e & Hn & Hget & Hty)]. simpl in Hn.
    destruct Hn as [<-|[<-|[<-|[]]]]; injection Hget as <-; discriminate Hty. }
  pose proof (TriangleFacts.is_triangle_state
                "funcionario" "funcionario" "funcionario") as Ht.
  split; [exact H|]. split; [reflexivity|].
  split; [exact (proj1 cycle_without_both_types_not_reported
                       Triangle.officials ["B"; "A"; "C"] H)|].
  split; [exact Ht|].
  exact (proj2 cycle_without_both_types_not_reported
               Triangle.officials Ht eq_refl eq_refl eq_refl).
Defined.

(** C9.  [detect_suspicious_patterns] of main.py raises on no analyzer,
    whatever its graph, connected or not: an exception of the [try] block
    ends in the answer [[]].  On the fresh analyzer the answer is [[]]. *)
Theorem detect_never_raises :
  (forall s : analyzer, exists found, Main.detect_suspicious_patterns s = Ok found) /\
  Main.detect_suspicious_patterns init = Ok [].
Proof.
  split; [|reflexivity].
  intros s. unfold Main.detect_suspicious_patterns.
  destruct (Main.detect_body s); eauto.
Qed.

(** The [try] block matters: app.py has none, and on the graph in which
    [add_edge] has created the nodes [x] and [y] its detector raises. *)
Lemma app_detect_raises (np_mean np_std : list nat -> Float64.float) :
  App.detect_suspicious_patterns np_mean np_std Dangling.accepted
  = Raise (KeyError "x") /\
  Main.detect_suspicious_patterns Dangling.accepted = Ok [].
Proof. split; reflexivity. Qed.

(** ** Degrees 1, 1, 1, 1, 10 *)

(** C3, as stated, fails.  The companies of [Star.state] have the degrees
    1, 1, 1, 1 and 10.  The mean is 2.8 and the deviation 3.6, so the
    threshold is 10, in binary64 as in exact arithmetic, and the degree 10 is
    not greater: main.py returns no finding. *)
Lemma outlier_among_five_not_flagged :
  empresa_degrees Star.state
  = Ok [("E1", 1); ("E2", 1); ("E3", 1); ("E4", 1); ("BIG", 10)] /\
  Main.threshold [1; 1; 1; 1; 10] = Ok (Float64.of_nat 10) /\
  Float64.ltb (Float64.of_nat 10) (Float64.of_nat 10) = false /\
  Main.detect_suspicious_patterns Star.state = Ok [].
Proof. repeat split; vm_compute; reflexivity. Qed.

(** The five degrees sit on the boundary: with one more company of degree
    1 the threshold falls below 10 and the company of degree 10 is the one
    finding. *)
Lemma outlier_among_six_flagged (a b c d e f : node) :
  Main.concentration [(a, 1); (b, 1); (c, 1); (d, 1); (e, 1); (f, 10)]
  = Ok [concentracion_contratos f 10 (Some "high") description_concentracion].
Proof. vm_compute. reflexivity. Qed.

Lemma one_outlier (l : list nat) :
  Permutation l [1; 1; 1; 1; 10] ->
  l = [1; 1; 1; 1; 10] \/ l = [1; 1; 1; 10; 1] \/ l = [1; 1; 10; 1; 1] \/
  l = [1; 10; 1; 1; 1] \/ l = [10; 1; 1; 1; 1].
Proof.
  intros H.
  destruct (Permutation_vs_elt_inv [1; 1; 1; 1] [] 10 H) as (l1 & l2 & ->).
  apply Permutation_app_inv with (l3 := [1; 1; 1; 1]) (l4 := []) in H.
  rewrite app_nil_r in H.
  change [1; 1; 1; 1] with (repeat 1 4) in H.
  apply Permutation_repeat in H. simpl in H.
  destruct l1 as [|a [|b [|c [|d [|e l1]]]]]; simpl in H;
    try (injection H as -> -> -> ->);
    repeat match goal with
           | H : _ :: _ = _ |- _ => injection H as ? H; subst
           | H : [] = _ :: _ |- _ => discriminate H
           | H : _ :: _ = [] |- _ => discriminate H
           | H : _ ++ _ = [] |- _ => apply app_eq_nil in H as [-> ->]
           end; subst; simpl; auto 6.
Qed.

(** C3, amended.  When the companies have the degrees 1, 1, 1, 1 and 10, in
    whatever order the graph lists them, the threshold of main.py, mean plus
    2.0 deviations, is 10; no degree is strictly greater, and no
    [concentracion_contratos] finding is emitted, for the company of degree
    10 or for any other. *)
Theorem five_companies_one_outlier (s : analyzer) (degrees : list (node * nat)) :
  empresa_degrees s = Ok degrees ->
  Permutation (map snd degrees) [1; 1; 1; 1; 10] ->
  Main.threshold (map snd degrees) = Ok (Float64.of_nat 10) /\
  forall found, Main.detect_suspicious_patterns s = Ok found ->
                forall p, In p found -> is_concentracion p = false.
Proof.
  intros Hd Hv. apply one_outlier in Hv.
  split.
  { destruct Hv as [Hv|[Hv|[Hv|[Hv|Hv]]]]; rewrite Hv; vm_compute; reflexivity. }
  intros found Hf p Hp.
  apply DetectFacts.main_findings in Hf
    as [->|(cyc & degrees' & more & -> & Hcyc & Hd' & Hm)]; [destruct Hp|].
  rewrite Hd in Hd'. injection Hd' as <-.
  assert (Hnone : more = []).
  { destruct degrees as [|[a x1] [|[b x2] [|[c x3] [|[d x4] [|[e x5] [|? ?]]]]]];
      try (exfalso; destruct Hv as [Hv|[Hv|[Hv|[Hv|Hv]]]]; discriminate Hv).
    cbn [map snd] in Hv.
    destruct Hv as [Hv|[Hv|[Hv|[Hv|Hv]]]]; injection Hv as -> -> -> -> ->;
      vm_compute in Hm; now injection Hm as <-. }
  subst more. rewrite app_nil_r in Hp.
  rewrite Forall_forall in Hcyc.
  eapply DetectFacts.reported_kind. eauto.
Qed.

Lemma five_companies_one_outlier_witness :
  empresa_degrees Star.state
  = Ok [("E1", 1); ("E2", 1); ("E3", 1); ("E4", 1); ("BIG", 10)] /\
  Main.threshold [1; 1; 1; 1; 10] = Ok (Float64.of_nat 10) /\
  forall found, Main.detect_suspicious_patterns Star.state = Ok found ->
                forall p, In p found -> is_concentracion p = false.
Proof.
  assert (H : empresa_degrees Star.state
              = Ok [("E1", 1); ("E2", 1); ("E3", 1); ("E4", 1); ("BIG", 10)])
    by reflexivity.
  split; [exact H|].
  exact (five_companies_one_outlier Star.state H (Permutation_refl _)).
Defined.

(** ** Binary64 arithmetic on small integers *)

Module Float64Facts.
Import Float64.
Local Open Scope Z_scope.
Unset Implicit Arguments.

Lemma digits2_pos_size (p : positive) : digits2_pos p = Pos.size p.
Proof. induction p; simpl; congruence. Qed.

Lemma digits_log2 (p : positive) : Zpos (digits2_pos p) = Z.log2 (Zpos p) + 1.
Proof.
  rewrite digits2_pos_size. destruct p; simpl; try reflexivity.
  - rewrite Pos.add_1_r. reflexivity.
  - rewrite Pos.add_1_r. reflexivity.
Qed.

Lemma div_eucl_div_mod (a b : Z) : Z.div_eucl a b = (a / b, a mod b).
Proof. unfold Z.div, Z.modulo. destruct (Z.div_eucl a b). reflexivity. Qed.

Lemma iter_xO (p k : positive) : Zpos (Pos.iter xO p k) = Zpos p * 2 ^ Zpos k.
Proof.
  induction k using Pos.peano_ind.
  - simpl. lia.
  - rewrite Pos.iter_succ, Pos2Z.inj_succ, Z.pow_succ_r by lia.
    rewrite Pos2Z.inj_xO, IHk. lia.
Qed.

Lemma new_location_zero (n : Z) : new_location n 0 = loc_Exact.
Proof. unfold new_location. destruct (Z.even n); reflexivity. Qed.


Lemma fexp_small (e : Z) : 1 <= e <= 53 -> fexp prec emax e = e - 53.
Proof. unfold fexp, emin, prec, emax. lia. Qed.

(** A mantissa of 53 digits is left as it is; one of 54 digits whose last
    digit is 0 loses that digit. *)
Lemma shr_fexp_53 (m : positive) (e : Z) :
  digits2_pos m = 53%positive -> -1074 <= e ->
  shr_fexp prec emax (Zpos m) e loc_Exact
  = ({| shr_m := Zpos m; shr_r := false; shr_s := false |}, e).
Proof.
  intros Hd He. unfold shr_fexp, Zdigits2. rewrite Hd.
  replace (fexp prec emax (53 + e) - e) with 0.
  - reflexivity.
  - unfold fexp, emin, prec, emax. lia.
Qed.

Lemma shr_fexp_54 (m : positive) (e : Z) :
  digits2_pos m = 53%positive -> -1074 <= e ->
  shr_fexp prec emax (Zpos m~0) (e - 1) loc_Exact
  = ({| shr_m := Zpos m; shr_r := false; shr_s := false |}, e).
Proof.
  intros Hd He. unfold shr_fexp, Zdigits2. simpl digits2_pos. rewrite Hd.
  replace (fexp prec emax (Zpos (Pos.succ 53) + (e - 1)) - (e - 1)) with 1.
  - simpl. f_equal. lia.
  - unfold fexp, emin, prec, emax. lia.
Qed.

Lemma round_53 (m : positive) (e : Z) :
  digits2_pos m = 53%positive -> -1074 <= e <= 971 ->
  binary_round_aux prec emax false (Zpos m) e loc_Exact = S754_finite false m e.
Proof.
  intros Hd He. unfold binary_round_aux.
  rewrite shr_fexp_53 by (auto; lia). cbn [shr_m loc_of_shr_record round_nearest_even].
  rewrite shr_fexp_53 by (auto; lia). cbn [shr_m].
  replace (Z.leb e (emax - prec)) with true; auto.
  symmetry. apply Z.leb_le. unfold emax, prec. lia.
Qed.

Lemma round_54 (m : positive) (e : Z) :
  digits2_pos m = 53%positive -> -1074 <= e <= 971 ->
  binary_round_aux prec emax false (Zpos m~0) (e - 1) loc_Exact = S754_finite false m e.
Proof.
  intros Hd He. unfold binary_round_aux.
  rewrite shr_fexp_54 by (auto; lia). cbn [shr_m loc_of_shr_record round_nearest_even].
  rewrite shr_fexp_53 by (auto; lia). cbn [shr_m].
  replace (Z.leb e (emax - prec)) with true; auto.
  symmetry. apply Z.leb_le. unfold emax, prec. lia.
Qed.

Lemma log2_bound (d : positive) : Zpos d < 2 ^ 53 -> 0 <= Z.log2 (Zpos d) <= 52.
Proof.
  intros H. split; [apply Z.log2_nonneg|].
  assert (Z.log2 (Zpos d) < 53); [|lia].
  apply Z.log2_lt_pow2; lia.
Qed.

Lemma of_pos_canonical (d : positive) :
  Zpos d < 2 ^ 53 ->
  exists M : positive,
    Zpos M = Zpos d * 2 ^ (52 - Z.log2 (Zpos d)) /\
    digits2_pos M = 53%positive /\
    binary_round prec emax false d 0 = S754_finite false M (Z.log2 (Zpos d) - 52).
Proof.
  intros Hd. pose proof (log2_bound d Hd) as Hl.
  unfold binary_round. rewrite Z.add_0_r, digits_log2.
  rewrite fexp_small by lia. unfold shl_align.
  replace (Z.log2 (Zpos d) + 1 - 53 - 0) with (Z.log2 (Zpos d) - 52) by lia.
  destruct (Z.log2 (Zpos d) - 52) as [|k|k] eqn:Hk; try lia.
  - exists d. assert (Hlog : Z.log2 (Zpos d) = 52) by lia.
    assert (Hdig : digits2_pos d = 53%positive).
    { pose proof (digits_log2 d). lia. }
    split; [rewrite Hlog; simpl; lia|]. split; [exact Hdig|].
    replace (Z.log2 (Zpos d) + 1 - 53) with 0 by lia.
    apply round_53; auto. lia.
  - exists (Pos.iter xO d k).
    assert (HM : Zpos (Pos.iter xO d k) = Zpos d * 2 ^ (52 - Z.log2 (Zpos d))).
    { rewrite iter_xO. f_equal. f_equal. lia. }
    assert (Hdig : digits2_pos (Pos.iter xO d k) = 53%positive).
    { pose proof (digits_log2 (Pos.iter xO d k)) as H. rewrite HM in H.
      rewrite Z.log2_mul_pow2 in H by lia. lia. }
    split; [exact HM|]. split; [exact Hdig|].
    replace (Z.log2 (Zpos d) + 1 - 53) with (Zneg k) by lia.
    apply round_53; auto. lia.
Qed.

Lemma shift_or_not (m s : Z) :
  0 <= s ->
  match s with Zpos _ => Z.shiftl m s | Z0 => m | Zneg _ => 0 end = m * 2 ^ s.
Proof.
  intros Hs. destruct s as [|p|p]; [now rewrite Z.pow_0_r, Z.mul_1_r| |lia].
  apply Z.shiftl_mul_pow2. lia.
Qed.

Lemma truediv_exact (n d : positive) :
  Zpos d < 2 ^ 53 ->
  (let '(q, e, l) := SFdiv_core_binary prec emax (Zpos (n * d)) 0 (Zpos n) 0 in
   binary_round_aux prec emax false q e l)
  = binary_round prec emax false d 0.
Proof.
  intros Hd. destruct (of_pos_canonical d Hd) as (M & HM & Hdig & ->).
  pose proof (log2_bound d Hd) as Hl.
  unfold SFdiv_core_binary, Zdigits2. rewrite !Z.add_0_r, !digits_log2.
  cbv zeta.
  assert (Hlo : Z.log2 (Zpos n) + Z.log2 (Zpos d) <= Z.log2 (Zpos (n * d)))
    by (rewrite Pos2Z.inj_mul; apply Z.log2_mul_below; lia).
  assert (Hhi : Z.log2 (Zpos (n * d)) <= Z.log2 (Zpos n) + Z.log2 (Zpos d) + 1)
    by (rewrite Pos2Z.inj_mul; apply Z.log2_mul_above; lia).
  pose proof (Z.log2_nonneg (Zpos n)) as Hn0.
  set (x := Z.log2 (Zpos (n * d)) + 1 - (Z.log2 (Zpos n) + 1)) in *.
  assert (Hfx : fexp prec emax x = x - 53).
  { unfold fexp, emin, prec, emax. lia. }
  rewrite Hfx.
  replace (Z.min (x - 53) (0 - 0)) with (x - 53) by lia.
  replace (0 - 0 - (x - 53)) with (53 - x) by lia.
  rewrite shift_or_not by lia.
  rewrite div_eucl_div_mod.
  replace (Zpos (n * d) * 2 ^ (53 - x)) with ((Zpos d * 2 ^ (53 - x)) * Zpos n)
    by (rewrite Pos2Z.inj_mul; ring).
  rewrite Z.div_mul, Z.mod_mul by lia.
  rewrite new_location_zero.
  assert (Hx : x = Z.log2 (Zpos d) \/ x = Z.log2 (Zpos d) + 1) by lia.
  destruct Hx as [Hx|Hx].
  - replace (Zpos d * 2 ^ (53 - x)) with (Zpos M~0).
    + replace (x - 53) with (Z.log2 (Zpos d) - 52 - 1) by lia.
      apply round_54; auto. lia.
    + rewrite Pos2Z.inj_xO, HM.
      replace (53 - x) with (Z.succ (52 - Z.log2 (Zpos d))) by lia.
      rewrite Z.pow_succ_r by lia. ring.
  - replace (Zpos d * 2 ^ (53 - x)) with (Zpos M).
    + replace (x - 53) with (Z.log2 (Zpos d) - 52) by lia.
      apply round_53; auto. lia.
    + rewrite HM. f_equal. f_equal. lia.
Qed.

Lemma int_truediv_exact (k d : nat) :
  (0 < k)%nat -> Z.of_nat d < 2 ^ 53 ->
  int_truediv (k * d) k = Ok (of_nat d).
Proof.
  intros Hk Hd. unfold int_truediv, of_nat, of_Z.
  destruct (Z.of_nat k) as [|pk|pk] eqn:Ek; try lia.
  destruct d as [|d'].
  - rewrite Nat.mul_0_r. reflexivity.
  - destruct (Z.of_nat (S d')) as [|pd|pd] eqn:Ed; try lia.
    assert (Ea : Z.of_nat (k * S d') = Zpos (pk * pd)) by lia.
    rewrite Ea. cbn [binary_normalize].
    assert (Hpd : Zpos pd < 2 ^ 53) by lia.
    pose proof (truediv_exact pk pd Hpd) as T.
    destruct (SFdiv_core_binary _ _ _ _ _ _) as [[q e] l].
    now rewrite T.
Qed.

Lemma sub_diag (x : float) : sub x x = zero \/ sub x x = nan.
Proof.
  destruct x as [s|s| |s m e]; unfold sub, zero, nan; simpl.
  - destruct s; auto.
  - destruct s; auto.
  - auto.
  - left. rewrite Z.sub_diag. reflexivity.
Qed.

Lemma ltb_irrefl (x : float) : ltb x x = false.
Proof.
  unfold ltb, SFltb.
  destruct x as [s|s| |s m e]; simpl; auto.
  - destruct s; auto.
  - rewrite Z.compare_refl, Pos.compare_cont_refl. destruct s; auto.
Qed.

Lemma sum_zeros (l : list float) :
  (forall x, In x l -> x = zero) -> sum l = zero.
Proof.
  unfold sum. intros H.
  assert (G : forall acc, acc = zero -> fold_left add l acc = zero).
  { induction l as [|x l IH]; intros acc ->; simpl; auto.
    apply IH; [intros; apply H; now right|].
    rewrite (H x) by now left. reflexivity. }
  now apply G.
Qed.

Lemma add_nan_l (x : float) : add nan x = nan.
Proof. reflexivity. Qed.

Lemma sum_nans (l : list float) :
  l <> [] -> (forall x, In x l -> x = nan) -> sum l = nan.
Proof.
  unfold sum. intros Hne H. destruct l as [|x l]; [congruence|].
  simpl. rewrite (H x) by now left.
  assert (G : forall l0, fold_left add l0 (add zero nan) = nan).
  { induction l0 as [|y l0 IH]; simpl; auto. }
  apply G.
Qed.

(** When every deviation from the mean [x] is 0 (or not a number), the
    threshold is not below [x]. *)
Lemma no_excess (x y dev : float) (l : list float) :
  dev = zero \/ dev = nan ->
  l <> [] -> (forall v, In v l -> v = pow2 dev) ->
  ltb (add x (mul (of_Z 2) (pow_half (div (sum l) y)))) x = false.
Proof.
  intros [->| ->] Hne Hl.
  - rewrite sum_zeros by (intros v Hv; rewrite (Hl v Hv); reflexivity).
    assert (Hv : (exists b, pow_half (div zero y) = S754_zero b)
                 \/ pow_half (div zero y) = nan).
    { unfold pow_half, sqrt, div, zero, nan.
      destruct y as [s|s| |s m e]; simpl; auto; left; eexists; reflexivity. }
    destruct Hv as [(b & ->) | ->].
    + assert (Hm : mul (of_Z 2) (S754_zero b) = S754_zero b) by (destruct b; reflexivity).
      rewrite Hm. destruct x as [s|s| |s m e].
      * unfold add, ltb, SFltb. destruct s, b; reflexivity.
      * apply ltb_irrefl.
      * reflexivity.
      * apply ltb_irrefl.
    + assert (Hm : mul (of_Z 2) nan = nan) by reflexivity.
      rewrite Hm. destruct x as [s|s| |s m e]; reflexivity.
  - assert (Hs : sum l = nan).
    { apply sum_nans; auto. }
    rewrite Hs.
    assert (Hm : mul (of_Z 2) (pow_half (div nan y)) = nan) by reflexivity.
    rewrite Hm. destruct x as [s|s| |s m e]; reflexivity.
Qed.

End Float64Facts.

Set Implicit Arguments.

(** ** Companies of equal degree *)

Lemma list_sum_uniform (values : list nat) (d : nat) :
  (forall v, In v values -> v = d) -> list_sum values = length values * d.
Proof.
  induction values as [|v l IH]; intros H; simpl; auto.
  rewrite (H v) by now left. rewrite IH; auto. intros; apply H; now right.
Qed.

Lemma threshold_uniform (values : list nat) (d : nat) :
  values <> [] -> (forall v, In v values -> v = d) ->
  (Z.of_nat d < 2 ^ 53)%Z ->
  exists limit,
    Main.threshold values = Ok limit /\
    Float64.ltb limit (Float64.of_nat d) = false.
Proof.
  intros Hne Hall Hd. unfold Main.threshold.
  rewrite (list_sum_uniform values Hall).
  rewrite Float64Facts.int_truediv_exact; auto.
  2:{ destruct values; [congruence | simpl; lia]. }
  cbn [bind]. eexists. split; [reflexivity|].
  apply Float64Facts.no_excess
    with (dev := Float64.sub (Float64.of_nat d) (Float64.of_nat d)).
  - apply Float64Facts.sub_diag.
  - destruct values; [congruence | discriminate].
  - intros v Hv. apply in_map_iff in Hv as (n & <- & Hn).
    now rewrite (Hall n Hn).
Qed.

(** C8.  When all companies have the same degree, and when there are fewer
    than two companies, main.py emits no [concentracion_contratos] finding,
    whatever the degree is, as long as it is below 2^53 and so is a binary64
    number: the mean is the degree itself, every deviation is 0, the
    threshold is the mean, and no degree is strictly greater. *)
Theorem uniform_companies_not_flagged (s : analyzer)
  (degrees : list (node * nat)) :
  empresa_degrees s = Ok degrees ->
  (exists d, forall nd, In nd degrees -> snd nd = d) \/ length degrees < 2 ->
  (forall nd, In nd degrees -> (Z.of_nat (snd nd) < 2 ^ 53)%Z) ->
  forall found, Main.detect_suspicious_patterns s = Ok found ->
                forall p, In p found -> is_concentracion p = false.
Proof.
  intros Hd Hshape Hsmall found Hf p Hp.
  apply DetectFacts.main_findings in Hf
    as [->|(cyc & degrees' & more & -> & Hcyc & Hd' & Hm)]; [destruct Hp|].
  rewrite Hd in Hd'. injection Hd' as <-.
  assert (Hnone : more = []).
  { destruct degrees as [|nd rest]; [now injection Hm as <-|].
    assert (Hsame : exists d, forall x, In x (nd :: rest) -> snd x = d).
    { destruct Hshape as [Hu|Hlen]; [exact Hu|].
      destruct rest; [|simpl in Hlen; lia].
      exists (snd nd). intros x [<-|[]]. reflexivity. }
    destruct Hsame as (d & Hsame).
    destruct (@threshold_uniform (map snd (nd :: rest)) d) as (limit & Hl & Hlt).
    - discriminate.
    - intros v Hv. apply in_map_iff in Hv as (x & <- & Hx). now apply Hsame.
    - rewrite <- (Hsame nd) by now left. apply Hsmall. now left.
    - unfold Main.concentration in Hm. rewrite Hl in Hm. cbn [bind] in Hm.
      assert (Hmore : over_threshold limit (Some "high") (nd :: rest) = more)
        by congruence.
      rewrite <- Hmore. apply DetectFacts.over_threshold_none.
      intros x Hx. now rewrite (Hsame x Hx). }
  subst more. rewrite app_nil_r in Hp.
  rewrite Forall_forall in Hcyc.
  eapply DetectFacts.reported_kind. eauto.
Qed.

Lemma uniform_companies_not_flagged_witness :
  empresa_degrees Star.uniform = Ok [("E1", 5); ("E2", 5); ("E3", 5)] /\
  (exists d, forall nd, In nd [("E1", 5); ("E2", 5); ("E3", 5)] -> snd nd = d) /\
  (forall nd, In nd [("E1", 5); ("E2", 5); ("E3", 5)] ->
              (Z.of_nat (snd nd) < 2 ^ 53)%Z) /\
  forall found, Main.detect_suspicious_patterns Star.uniform = Ok found ->
                forall p, In p found -> is_concentracion p = false.
Proof.
  assert (H1 : empresa_degrees Star.uniform
               = Ok [("E1", 5); ("E2", 5); ("E3", 5)]) by reflexivity.
  assert (H2 : exists d, forall nd,
               In nd [("E1", 5); ("E2", 5); ("E3", 5)] -> snd nd = d).
  { exists 5. intros nd [<-|[<-|[<-|[]]]]; reflexivity. }
  assert (H3 : forall nd, In nd [("E1", 5); ("E2", 5); ("E3", 5)] ->
                          (Z.of_nat (snd nd) < 2 ^ 53)%Z).
  { intros nd [<-|[<-|[<-|[]]]]; reflexivity. }
  split; [exact H1|]. split; [exact H2|]. split; [exact H3|].
  exact (uniform_companies_not_flagged Star.uniform H1 (or_introl H2) H3).
Defined.

(** * Further properties *)

Unset Implicit Arguments.

(** ** Calls with keywords *)

Module CallFacts.

Lemma find_ext_in {A} (f g : A -> bool) (l : list A) :
  (forall x, In x l -> f x = g x) -> find f l = find g l.
Proof.
  induction l as [|a l IH]; simpl; intros H; auto.
  rewrite (H a) by auto. destruct (g a); auto.
Qed.

Lemma find_app {A} (f : A -> bool) (l1 l2 : list A) :
  find f (l1 ++ l2) =
  match find f l1 with Some x => Some x | None => find f l2 end.
Proof.
  induction l1 as [|a l1 IH]; simpl; auto. destruct (f a); auto.
Qed.

(** The keyword the [TypeError] names is the first of the explicit ones that
    the attributes have too. *)
Lemma keywords_spec (explicit : list (string * scalar)) : forall kwargs,
  NoDup (Dict.keys explicit) ->
  keywords kwargs explicit =
  match find (fun k => Dict.mem k kwargs) (Dict.keys explicit) with
  | Some k => Raise (TypeError k)
  | None => Ok (kwargs ++ explicit)
  end.
Proof.
  induction explicit as [|[k v] rest IH]; intros kwargs Hnd; simpl.
  - now rewrite app_nil_r.
  - inversion Hnd as [|? ? Hk Hrest]; subst.
    destruct (Dict.mem k kwargs) eqn:E; auto.
    rewrite IH by assumption.
    rewrite (find_ext_in (fun k0 => Dict.mem k0 (kwargs ++ [(k, v)]))
               (fun k0 => Dict.mem k0 kwargs)).
    + destruct (find _ (Dict.keys rest)); auto.
      now rewrite <- app_assoc.
    + intros x Hx. rewrite IngestFacts.mem_app.
      unfold Dict.mem at 2. simpl.
      destruct (String.eqb_spec x k) as [->|]; [tauto|].
      apply orb_false_r.
Qed.

Lemma apart {A} (l1 l2 : list A) (x : A) :
  NoDup (l1 ++ l2) -> In x l1 -> In x l2 -> False.
Proof.
  induction l1 as [|a l1 IH]; simpl; intros Hnd H1 H2; [destruct H1|].
  inversion Hnd as [|? ? Ha Hl]; subst.
  destruct H1 as [->|H1]; [|now apply IH].
  apply Ha, in_or_app. auto.
Qed.

Lemma mem_string_iff (x : string) (l : list string) :
  mem_string x l = true <-> In x l.
Proof.
  unfold mem_string. rewrite existsb_exists. split.
  - intros (y & Hy & E). apply String.eqb_eq in E. now subst.
  - intros H. exists x. split; [exact H | apply String.eqb_refl].
Qed.

(** The keyword that the [TypeError] names is the first explicit one that
    the attributes have too, or else the first attribute named like a
    parameter given by position. *)
Lemma call_keywords_spec (positional : list string) (attributes : attr_dict)
  (explicit : list (string * scalar)) :
  NoDup (positional ++ Dict.keys explicit) ->
  call_keywords positional attributes explicit =
  match clashing positional attributes (Dict.keys explicit) with
  | Some k => Raise (TypeError k)
  | None => Ok (attributes ++ explicit)
  end.
Proof.
  intros Hnd. unfold call_keywords, clashing.
  rewrite keywords_spec by (now apply NoDup_app_remove_l in Hnd).
  destruct (find _ (Dict.keys explicit)); cbn [bind]; auto.
  unfold Dict.keys. rewrite map_app, find_app.
  destruct (find _ (map fst attributes)); auto.
  destruct (find _ (map fst explicit)) as [k|] eqn:E; auto.
  exfalso. apply find_some in E as [Hin Hk].
  apply mem_string_iff in Hk. exact (apart _ _ k Hnd Hk Hin).
Qed.

Lemma free_of_find (reserved : list string) (attributes : attr_dict) :
  free_of reserved attributes <->
  find (fun k => Dict.mem k attributes) reserved = None.
Proof.
  unfold free_of. split.
  - intros H. destruct (find _ reserved) as [k|] eqn:E; auto.
    apply find_some in E as [Hin Hmem]. rewrite (H k Hin) in Hmem.
    discriminate.
  - intros H k Hin.
    destruct (Dict.mem k attributes) eqn:E; auto.
    now rewrite (find_none _ _ H k Hin) in E.
Qed.

Lemma free_of_dec (reserved : list string) (attributes : attr_dict) :
  free_of reserved attributes \/ ~ free_of reserved attributes.
Proof.
  rewrite free_of_find. destruct (find _ reserved); [right | left]; congruence.
Qed.

(** No keyword clashes exactly when no attribute is named like an explicit
    keyword or like a parameter given by position. *)
Lemma clashing_none (positional : list string) (attributes : attr_dict)
  (explicit : list string) :
  clashing positional attributes explicit = None <->
  free_of (explicit ++ positional) attributes.
Proof.
  unfold clashing. split.
  - intros H k Hin.
    destruct (find _ explicit) as [k'|] eqn:E1; [discriminate|].
    apply in_app_or in Hin as [Hin|Hin].
    + destruct (Dict.mem k attributes) eqn:E; auto.
      now rewrite (find_none _ _ E1 k Hin) in E.
    + destruct (Dict.mem k attributes) eqn:E; auto.
      rewrite DictFacts.mem_keys in E. apply mem_string_iff in E.
      pose proof (find_none _ _ H k E) as Hk. cbv beta in Hk.
      apply mem_string_iff in Hin. congruence.
  - intros H.
    destruct (find _ explicit) as [k|] eqn:E1.
    + apply find_some in E1 as [Hin Hmem].
      rewrite (H k) in Hmem by (apply in_or_app; auto). discriminate.
    + destruct (find _ (Dict.keys attributes)) as [k|] eqn:E2; auto.
      apply find_some in E2 as [Hin Hk]. apply mem_string_iff in Hk.
      apply mem_string_iff in Hin. rewrite <- DictFacts.mem_keys in Hin.
      rewrite (H k) in Hin by (apply in_or_app; auto). discriminate.
Qed.

(** Lines 75-81 of app.py, by cases *)
Lemma add_entity_spec (s : analyzer) (e : entity) :
  App.add_entity s e =
  match clashing ["self"; "node_for_adding"] (e_attributes e)
          ["node_type"; "name"] with
  | Some k => Raise (TypeError k)
  | None =>
      Ok {| graph := Nx.add_node (graph s) (e_id e)
                       (e_attributes e ++
                        [("node_type", SStr (e_type e));
                         ("name", SStr (e_name e))]);
            entities := Dict.set (e_id e) e (entities s);
            relationships := relationships s |}
  end.
Proof.
  unfold App.add_entity.
  rewrite call_keywords_spec by IngestFacts.distinct_strings.
  simpl Dict.keys. destruct (clashing _ _ _); reflexivity.
Qed.

(** Lines 85-91 of app.py, by cases *)
Lemma add_relationship_spec (s : analyzer) (rel : relationship) :
  App.add_relationship s rel =
  match clashing ["self"; "u_of_edge"; "v_of_edge"] (r_attributes rel)
          ["relationship_type"] with
  | Some k => Raise (TypeError k)
  | None =>
      Ok {| graph := Nx.add_edge (graph s) (r_source rel) (r_target rel)
                       (r_attributes rel ++
                        [("relationship_type", SStr (r_type rel))]);
            entities := entities s;
            relationships := relationships s ++ [rel] |}
  end.
Proof.
  unfold App.add_relationship.
  rewrite call_keywords_spec by IngestFacts.distinct_strings.
  simpl Dict.keys. destruct (clashing _ _ _); reflexivity.
Qed.

Lemma entity_call_ok (s : analyzer) (e : entity) :
  free_of app_node_keywords (e_attributes e) ->
  App.add_entity s e =
  Ok {| graph := Nx.add_node (graph s) (e_id e)
                   (e_attributes e ++
                    [("node_type", SStr (e_type e));
                     ("name", SStr (e_name e))]);
        entities := Dict.set (e_id e) e (entities s);
        relationships := relationships s |}.
Proof.
  intros H. rewrite add_entity_spec.
  now rewrite (proj2 (clashing_none _ _ ["node_type"; "name"]) H).
Qed.

Lemma entity_call_raises (s : analyzer) (e : entity) :
  ~ free_of app_node_keywords (e_attributes e) ->
  exists k, App.add_entity s e = Raise (TypeError k).
Proof.
  intros H. rewrite add_entity_spec.
  destruct (clashing _ _ _) as [k|] eqn:E; [eauto|].
  elim H. exact (proj1 (clashing_none _ _ ["node_type"; "name"]) E).
Qed.

Lemma relationship_call_ok (s : analyzer) (rel : relationship) :
  free_of app_edge_keywords (r_attributes rel) ->
  App.add_relationship s rel =
  Ok {| graph := Nx.add_edge (graph s) (r_source rel) (r_target rel)
                   (r_attributes rel ++
                    [("relationship_type", SStr (r_type rel))]);
        entities := entities s;
        relationships := relationships s ++ [rel] |}.
Proof.
  intros H. rewrite add_relationship_spec.
  now rewrite (proj2 (clashing_none _ _ ["relationship_type"]) H).
Qed.

Lemma relationship_call_raises (s : analyzer) (rel : relationship) :
  ~ free_of app_edge_keywords (r_attributes rel) ->
  exists k, App.add_relationship s rel = Raise (TypeError k).
Proof.
  intros H. rewrite add_relationship_spec.
  destruct (clashing _ _ _) as [k|] eqn:E; [eauto|].
  elim H. exact (proj1 (clashing_none _ _ ["relationship_type"]) E).
Qed.

(** A loop over facts that are all accepted runs to its end. *)
Lemma for_each_all {A} (body : analyzer -> A -> result analyzer)
  (good : A -> Prop) (l : list A) :
  (forall s x, good x -> exists s', body s x = Ok s') ->
  (forall x, In x l -> good x) ->
  forall s, snd (for_each body s l) = None.
Proof.
  intros Hbody. induction l as [|x l IH]; intros Hall s; simpl; auto.
  destruct (Hbody s x (Hall x (or_introl eq_refl))) as [s' ->].
  apply IH. intros y Hy. apply Hall. now right.
Qed.

(** A loop stops at the first fact that is refused. *)
Lemma for_each_stops {A} (body : analyzer -> A -> result analyzer)
  (l1 l2 : list A) (x : A) : forall s,
  snd (for_each body s l1) = None ->
  (exists exn, body (fst (for_each body s l1)) x = Raise exn) ->
  fst (for_each body s (l1 ++ x :: l2)) = fst (for_each body s l1) /\
  snd (for_each body s (l1 ++ x :: l2)) <> None.
Proof.
  induction l1 as [|y l1 IH]; intros s Hok [exn Hx]; simpl in *.
  - rewrite Hx. simpl. split; [reflexivity | discriminate].
  - destruct (body s y) as [s'|e]; simpl in *; [|discriminate].
    apply IH; eauto.
Qed.

(** A loop that ran to its end accepted every fact. *)
Lemma for_each_none {A} (body : analyzer -> A -> result analyzer)
  (bad : A -> Prop) (l : list A) :
  (forall s x, bad x -> exists exn, body s x = Raise exn) ->
  forall s, snd (for_each body s l) = None -> forall x, In x l -> ~ bad x.
Proof.
  intros Hbody. induction l as [|y l IH]; intros s Hs x Hx Hbad;
    [destruct Hx | destruct Hx as [<-|Hin]].
  - simpl in Hs. destruct (Hbody s y Hbad) as [exn E]. rewrite E in Hs.
    discriminate.
  - simpl in Hs. destruct (body s y) as [s'|e]; [|discriminate].
    exact (IH s' Hs x Hin Hbad).
Qed.

(** What every step keeps, the whole loop keeps, however it ends. *)
Lemma for_each_keeps {A} (body : analyzer -> A -> result analyzer)
  (P : analyzer -> Prop) (l : list A) :
  (forall s x s', P s -> body s x = Ok s' -> P s') ->
  forall s, P s -> P (fst (for_each body s l)).
Proof.
  intros Hbody. induction l as [|x l IH]; intros s Hs; simpl; auto.
  destruct (body s x) as [s'|e] eqn:E; simpl; eauto.
Qed.

End CallFacts.

(** ** Documents that app.py accepts *)

Module DocumentFacts.
Import CallFacts.

Lemma entity_refused (s : analyzer) (e : entity) :
  ~ free_of app_node_keywords (e_attributes e) ->
  exists exn, App.add_entity s e = Raise exn.
Proof. intros H. destruct (entity_call_raises s e H) as [k E]. eauto. Qed.

Lemma relationship_refused (s : analyzer) (rel : relationship) :
  ~ free_of app_edge_keywords (r_attributes rel) ->
  exists exn, App.add_relationship s rel = Raise exn.
Proof. intros H. destruct (relationship_call_raises s rel H) as [k E]. eauto. Qed.

Lemma entities_accepted (l : list entity) (s : analyzer) :
  (forall e, In e l -> free_of app_node_keywords (e_attributes e)) ->
  snd (for_each App.add_entity s l) = None.
Proof.
  intros H.
  apply (for_each_all App.add_entity
           (fun e => free_of app_node_keywords (e_attributes e))); auto.
  intros s0 x Hx. rewrite (entity_call_ok s0 x Hx). eauto.
Qed.

Lemma relationships_accepted (l : list relationship) (s : analyzer) :
  (forall rel, In rel l -> free_of app_edge_keywords (r_attributes rel)) ->
  snd (for_each App.add_relationship s l) = None.
Proof.
  intros H.
  apply (for_each_all App.add_relationship
           (fun rel => free_of app_edge_keywords (r_attributes rel))); auto.
  intros s0 x Hx. rewrite (relationship_call_ok s0 x Hx). eauto.
Qed.

Lemma update_graph_accepts (s : analyzer) (r : analysis_result) :
  snd (App._update_graph s r) = None <-> well_named r.
Proof.
  unfold App._update_graph, well_named. split.
  - intros H.
    destruct (for_each App.add_entity s (res_entities r)) as [s1 [e|]] eqn:E1;
      [discriminate|].
    split.
    + intros e He.
      destruct (free_of_dec app_node_keywords (e_attributes e)) as [|Hbad];
        auto.
      exfalso.
      refine (for_each_none App.add_entity
                (fun e => ~ free_of app_node_keywords (e_attributes e))
                (res_entities r) _ s _ e He Hbad).
      * intros s0 x. apply entity_refused.
      * now rewrite E1.
    + intros rel Hrel.
      destruct (free_of_dec app_edge_keywords (r_attributes rel)) as [|Hbad];
        auto.
      exfalso.
      refine (for_each_none App.add_relationship
                (fun rel => ~ free_of app_edge_keywords (r_attributes rel))
                (res_relationships r) _ s1 H rel Hrel Hbad).
      intros s0 x. apply relationship_refused.
  - intros [He Hr].
    pose proof (entities_accepted (res_entities r) s He) as H1.
    destruct (for_each App.add_entity s (res_entities r)) as [s1 [e|]];
      [discriminate|].
    now apply relationships_accepted.
Qed.

(** The entity mapping after a loop of [add_entity] that ran to its end *)
Lemma entities_after (l : list entity) : forall s id,
  snd (for_each App.add_entity s l) = None ->
  Dict.get id (entities (fst (for_each App.add_entity s l))) =
  match find (fun e => String.eqb (e_id e) id) (rev l) with
  | Some e => Some e
  | None => Dict.get id (entities s)
  end.
Proof.
  induction l as [|e l IH]; intros s id Hok; simpl; auto.
  simpl in Hok. rewrite add_entity_spec in *.
  destruct (clashing _ _ _); [discriminate|].
  rewrite IH by assumption. rewrite find_app.
  destruct (find _ (rev l)); auto. simpl.
  destruct (String.eqb_spec (e_id e) id) as [<-|Hne].
  - apply DictFacts.get_set_same.
  - apply DictFacts.get_set_other. congruence.
Qed.

Lemma relationships_keep_entities (l : list relationship) (s : analyzer) :
  entities (fst (for_each App.add_relationship s l)) = entities s.
Proof.
  apply (for_each_keeps App.add_relationship
           (fun s' => entities s' = entities s)); auto.
  intros s0 rel s' H. rewrite add_relationship_spec.
  destruct (clashing _ _ _); [discriminate|].
  now intros [= <-].
Qed.

Lemma entities_keep_relationships (l : list entity) (s : analyzer) :
  relationships (fst (for_each App.add_entity s l)) = relationships s.
Proof.
  apply (for_each_keeps App.add_entity
           (fun s' => relationships s' = relationships s)); auto.
  intros s0 e s' H. rewrite add_entity_spec.
  destruct (clashing _ _ _); [discriminate|].
  now intros [= <-].
Qed.

Lemma relationships_after (l : list relationship) : forall s,
  snd (for_each App.add_relationship s l) = None ->
  relationships (fst (for_each App.add_relationship s l)) =
  relationships s ++ l.
Proof.
  induction l as [|rel l IH]; intros s Hok; simpl.
  - now rewrite app_nil_r.
  - simpl in Hok. rewrite add_relationship_spec in *.
    destruct (clashing _ _ _); [discriminate|].
    rewrite IH by assumption. simpl. now rewrite <- app_assoc.
Qed.

End DocumentFacts.

(** X1. [process_document] of app.py returns the facts of the answer when
    the client and the parser delivered them and no fact has an attribute
    named like a keyword of its [add_node] or [add_edge] call ([node_type],
    [name], [self], [node_for_adding]; [relationship_type], [self],
    [u_of_edge], [v_of_edge]); in every other case it returns [None]. *)
Theorem document_returned_iff_well_named (s : analyzer)
  (answer : option analysis_result) (r : analysis_result) :
  snd (Page.process_document s answer) = Some r <->
  answer = Some r /\ well_named r.
Proof.
  unfold Page.process_document. destruct answer as [r0|].
  - rewrite <- (DocumentFacts.update_graph_accepts s r).
    destruct (App._update_graph s r0) as [s' [e|]] eqn:E; simpl.
    + split; [discriminate|]. intros [[= ->] H]. rewrite E in H.
      discriminate.
    + split.
      * intros [= ->]. rewrite E. auto.
      * now intros [[= ->] _].
  - simpl. split; [discriminate | intros [H _]; discriminate].
Qed.

(** X2. [process_document] of app.py does not undo what it did before an
    entity was refused: it returns [None], and the analyzer is the one that
    the entities before the refused one give; the entities after it and
    the relationships of the answer are not looked at. *)
Theorem refused_entity_keeps_earlier_ones (s : analyzer)
  (good rest : list entity) (bad : entity) (rels : list relationship) :
  (forall e, In e good -> free_of app_node_keywords (e_attributes e)) ->
  ~ free_of app_node_keywords (e_attributes bad) ->
  Page.process_document s
    (Some {| res_entities := good ++ bad :: rest;
             res_relationships := rels |})
  = (fst (App._update_graph s
            {| res_entities := good; res_relationships := [] |}),
     None).
Proof.
  intros Hgood Hbad. unfold Page.process_document, App._update_graph.
  cbn [res_entities res_relationships].
  pose proof (DocumentFacts.entities_accepted good s Hgood) as Hok.
  destruct (CallFacts.for_each_stops App.add_entity good rest bad s Hok
              (DocumentFacts.entity_refused _ bad Hbad)) as [Hfst Hsnd].
  destruct (for_each App.add_entity s (good ++ bad :: rest)) as [s1 [e|]];
    [|now elim Hsnd].
  simpl in Hfst. subst s1.
  destruct (for_each App.add_entity s good) as [s2 [e'|]]; [discriminate|].
  reflexivity.
Qed.

Lemma refused_entity_keeps_earlier_ones_witness :
  (forall e, In e [Repeated.company] ->
             free_of app_node_keywords (e_attributes e)) /\
  ~ free_of app_node_keywords (e_attributes Clash.entity_named) /\
  Page.process_document init
    (Some {| res_entities :=
               [Repeated.company] ++ Clash.entity_named :: [Repeated.official];
             res_relationships := [Repeated.contract] |})
  = (fst (App._update_graph init
            {| res_entities := [Repeated.company];
               res_relationships := [] |}),
     None).
Proof.
  assert (H1 : forall e, In e [Repeated.company] ->
                         free_of app_node_keywords (e_attributes e)).
  { intros e [<-|[]] k _. reflexivity. }
  assert (H2 : ~ free_of app_node_keywords (e_attributes Clash.entity_named)).
  { intros H. specialize (H "name" (or_intror (or_introl eq_refl))).
    discriminate H. }
  split; [exact H1|]. split; [exact H2|].
  exact (refused_entity_keeps_earlier_ones init [Repeated.company]
           [Repeated.official] Clash.entity_named [Repeated.contract] H1 H2).
Defined.

(** X3. The same for a relationship that is refused: the entities of the
    answer and the relationships before the refused one stay ingested,
    although [process_document] returns [None]. *)
Theorem refused_relationship_keeps_earlier_facts (s : analyzer)
  (ents : list entity) (good rest : list relationship) (bad : relationship) :
  (forall e, In e ents -> free_of app_node_keywords (e_attributes e)) ->
  (forall rel, In rel good -> free_of app_edge_keywords (r_attributes rel)) ->
  ~ free_of app_edge_keywords (r_attributes bad) ->
  Page.process_document s
    (Some {| res_entities := ents;
             res_relationships := good ++ bad :: rest |})
  = (fst (App._update_graph s
            {| res_entities := ents; res_relationships := good |}),
     None).
Proof.
  intros Hents Hgood Hbad. unfold Page.process_document, App._update_graph.
  cbn [res_entities res_relationships].
  pose proof (DocumentFacts.entities_accepted ents s Hents) as Hok.
  destruct (for_each App.add_entity s ents) as [s1 [e|]]; [discriminate|].
  pose proof (DocumentFacts.relationships_accepted good s1 Hgood) as Hok'.
  destruct (CallFacts.for_each_stops App.add_relationship good rest bad s1
              Hok' (DocumentFacts.relationship_refused _ bad Hbad))
    as [Hfst Hsnd].
  destruct (for_each App.add_relationship s1 (good ++ bad :: rest))
    as [s2 [e|]]; [|now elim Hsnd].
  simpl in Hfst. now subst s2.
Qed.

Lemma refused_relationship_keeps_earlier_facts_witness :
  (forall e, In e [Repeated.company; Repeated.official] ->
             free_of app_node_keywords (e_attributes e)) /\
  (forall rel, In rel [Repeated.contract] ->
               free_of app_edge_keywords (r_attributes rel)) /\
  ~ free_of app_edge_keywords (r_attributes Clash.fact_typed) /\
  Page.process_document init
    (Some {| res_entities := [Repeated.company; Repeated.official];
             res_relationships :=
               [Repeated.contract] ++ Clash.fact_typed :: [Repeated.kinship] |})
  = (fst (App._update_graph init
            {| res_entities := [Repeated.company; Repeated.official];
               res_relationships := [Repeated.contract] |}),
     None).
Proof.
  assert (H1 : forall e, In e [Repeated.company; Repeated.official] ->
                         free_of app_node_keywords (e_attributes e)).
  { intros e [<-|[<-|[]]] k _; reflexivity. }
  assert (H2 : forall rel, In rel [Repeated.contract] ->
                           free_of app_edge_keywords (r_attributes rel)).
  { intros rel [<-|[]] k Hk. simpl in Hk.
    repeat (destruct Hk as [<-|Hk]; [reflexivity|]). destruct Hk. }
  assert (H3 : ~ free_of app_edge_keywords (r_attributes Clash.fact_typed)).
  { intros H. specialize (H "relationship_type" (or_introl eq_refl)).
    discriminate H. }
  split; [exact H1|]. split; [exact H2|]. split; [exact H3|].
  exact (refused_relationship_keeps_earlier_facts init
           [Repeated.company; Repeated.official] [Repeated.contract]
           [Repeated.kinship] Clash.fact_typed H1 H2 H3).
Defined.

(** X4. After a document that app.py accepted, the record of an entity id
    is the last entity of the answer with that id, or the record from
    before when the answer has none; the relationship list is the old one
    followed by the relationships of the answer, in their order. *)
Theorem accepted_document_is_recorded (s s' : analyzer) (r : analysis_result) :
  Page.process_document s (Some r) = (s', Some r) ->
  (forall id,
      Dict.get id (entities s') =
      match find (fun e => String.eqb (e_id e) id) (rev (res_entities r)) with
      | Some e => Some e
      | None => Dict.get id (entities s)
      end) /\
  relationships s' = relationships s ++ res_relationships r.
Proof.
  unfold Page.process_document, App._update_graph.
  pose proof (DocumentFacts.entities_after (res_entities r) s) as He.
  pose proof (DocumentFacts.entities_keep_relationships (res_entities r) s)
    as Hr.
  destruct (for_each App.add_entity s (res_entities r)) as [s1 [e|]];
    [discriminate|].
  pose proof (DocumentFacts.relationships_keep_entities
                (res_relationships r) s1) as He'.
  pose proof (DocumentFacts.relationships_after (res_relationships r) s1)
    as Hr'.
  destruct (for_each App.add_relationship s1 (res_relationships r))
    as [s2 [e|]]; [discriminate|].
  intros [= <-]. simpl in *. split.
  - intros id. rewrite He'. now apply He.
  - rewrite Hr' by reflexivity. now rewrite Hr.
Qed.

Lemma accepted_document_is_recorded_witness :
  Page.process_document init (Some Repeated.batch)
  = (Repeated.twice, Some Repeated.batch) /\
  (forall id,
      Dict.get id (entities Repeated.twice) =
      match find (fun e => String.eqb (e_id e) id)
                 (rev (res_entities Repeated.batch)) with
      | Some e => Some e
      | None => Dict.get id (entities init)
      end) /\
  relationships Repeated.twice
  = relationships init ++ res_relationships Repeated.batch.
Proof.
  assert (H : Page.process_document init (Some Repeated.batch)
              = (Repeated.twice, Some Repeated.batch)) by reflexivity.
  split; [exact H|].
  exact (accepted_document_is_recorded init Repeated.twice Repeated.batch H).
Defined.

(** ** The graph of an analyzer that app.py has built *)

Module GraphFacts.
Import Nx.

Lemma mem_in {V} (k : string) (d : Dict.t V) :
  Dict.mem k d = true <-> In k (Dict.keys d).
Proof.
  rewrite DictFacts.mem_keys. unfold mem_string. rewrite existsb_exists.
  split.
  - intros [x [Hx E]]. apply String.eqb_eq in E. now subst.
  - intros H. exists k. split; auto. apply String.eqb_refl.
Qed.

Lemma mem_same_keys {V W} (k : string) (d : Dict.t V) (d' : Dict.t W) :
  Dict.keys d = Dict.keys d' -> Dict.mem k d = Dict.mem k d'.
Proof. intros H. now rewrite !DictFacts.mem_keys, H. Qed.

Lemma keys_set {V} (k : string) (v : V) (d : Dict.t V) :
  Dict.keys (Dict.set k v d) =
  if Dict.mem k d then Dict.keys d else Dict.keys d ++ [k].
Proof.
  destruct (Dict.mem k d) eqn:E.
  - now apply DictFacts.keys_set_old.
  - now apply DictFacts.keys_set_new.
Qed.

Lemma nodup_set {V} (k : string) (v : V) (d : Dict.t V) :
  NoDup (Dict.keys d) -> NoDup (Dict.keys (Dict.set k v d)).
Proof.
  intros H. rewrite keys_set. destruct (Dict.mem k d) eqn:E; auto.
  apply NoDup_app; auto.
  - constructor; [intros [] | constructor].
  - intros x Hx [<-|[]]. apply mem_in in Hx. congruence.
Qed.

Lemma get_default_set {V} (x k : string) (v def : V) (d : Dict.t V) :
  Dict.get_default x (Dict.set k v d) def =
  if String.eqb x k then v else Dict.get_default x d def.
Proof.
  unfold Dict.get_default. destruct (String.eqb_spec x k) as [->|Hne].
  - now rewrite DictFacts.get_set_same.
  - now rewrite DictFacts.get_set_other.
Qed.

Lemma get_default_absent {V} (x : string) (def : V) (d : Dict.t V) :
  Dict.mem x d = false -> Dict.get_default x d def = def.
Proof.
  unfold Dict.mem, Dict.get_default. destruct (Dict.get x d); congruence.
Qed.

Lemma has_edge_nbrs (g : Graph) (u v : node) :
  has_edge g u v = Dict.mem v (nbrs_of g u).
Proof. reflexivity. Qed.

Section SameKeys.

Variable g : Graph.
Hypothesis Hkeys : Dict.keys (_adj g) = Dict.keys (_node g).

Lemma adj_mem (n : node) : Dict.mem n (_adj g) = Dict.mem n (_node g).
Proof. now apply mem_same_keys. Qed.

Lemma add_node_keys (n : node) (attr : attr_dict) :
  Dict.keys (_node (add_node g n attr)) =
  (if Dict.mem n (_node g) then Dict.keys (_node g)
   else Dict.keys (_node g) ++ [n]) /\
  Dict.keys (_adj (add_node g n attr)) = Dict.keys (_node (add_node g n attr)).
Proof.
  unfold add_node. unfold Dict.mem.
  destruct (Dict.get n (_node g)) as [old|] eqn:E; simpl.
  - rewrite DictFacts.keys_set_old by (unfold Dict.mem; now rewrite E).
    auto.
  - assert (Hn : Dict.mem n (_node g) = false)
      by (unfold Dict.mem; now rewrite E).
    rewrite !DictFacts.keys_set_new, Hkeys; auto.
    now rewrite adj_mem.
Qed.

Lemma add_node_mem (n n' : node) (attr : attr_dict) :
  Dict.mem n' (_node (add_node g n attr)) =
  String.eqb n' n || Dict.mem n' (_node g).
Proof.
  unfold add_node.
  destruct (Dict.get n (_node g)); simpl; apply DictFacts.mem_set.
Qed.

Lemma add_node_nbrs (n x : node) (attr : attr_dict) :
  nbrs_of (add_node g n attr) x = nbrs_of g x.
Proof.
  unfold nbrs_of, add_node.
  destruct (Dict.get n (_node g)) as [old|] eqn:E; simpl; auto.
  rewrite get_default_set. destruct (String.eqb_spec x n) as [->|]; auto.
  symmetry. apply get_default_absent. rewrite adj_mem.
  unfold Dict.mem. now rewrite E.
Qed.

Lemma add_node_get_other (n n' : node) (attr : attr_dict) :
  n' <> n -> Dict.get n' (_node (add_node g n attr)) = Dict.get n' (_node g).
Proof.
  intros H. unfold add_node.
  destruct (Dict.get n (_node g)); simpl; now apply DictFacts.get_set_other.
Qed.

Lemma add_node_get_same (n : node) (attr : attr_dict) :
  exists old, Dict.get n (_node (add_node g n attr)) =
              Some (Dict.update old attr).
Proof.
  unfold add_node.
  destruct (Dict.get n (_node g)) as [old|]; simpl;
    eexists; apply DictFacts.get_set_same.
Qed.

Lemma ensure_node_keys (u : node) :
  Dict.keys (_node (ensure_node g u)) =
  (if Dict.mem u (_node g) then Dict.keys (_node g)
   else Dict.keys (_node g) ++ [u]) /\
  Dict.keys (_adj (ensure_node g u)) = Dict.keys (_node (ensure_node g u)).
Proof.
  unfold ensure_node. destruct (Dict.mem u (_node g)) eqn:E; simpl; auto.
  rewrite !DictFacts.keys_set_new, Hkeys; auto. now rewrite adj_mem.
Qed.

Lemma ensure_node_nbrs (u x : node) :
  nbrs_of (ensure_node g u) x = nbrs_of g x.
Proof.
  unfold nbrs_of, ensure_node.
  destruct (Dict.mem u (_node g)) eqn:E; simpl; auto.
  rewrite get_default_set. destruct (String.eqb_spec x u) as [->|]; auto.
  symmetry. apply get_default_absent. now rewrite adj_mem.
Qed.

Lemma ensure_node_get (u n : node) (attr : attr_dict) :
  Dict.get n (_node g) = Some attr ->
  Dict.get n (_node (ensure_node g u)) = Some attr.
Proof.
  intros H. unfold ensure_node.
  destruct (Dict.mem u (_node g)) eqn:E; simpl; auto.
  rewrite DictFacts.get_set_other; auto.
  intros ->. unfold Dict.mem in E. now rewrite H in E.
Qed.

Lemma ensure_node_adj (u n : node) (nbrs : Dict.t attr_dict) :
  Dict.get n (_adj (ensure_node g u)) = Some nbrs ->
  Dict.get n (_adj g) = Some nbrs \/ nbrs = [].
Proof.
  unfold ensure_node. destruct (Dict.mem u (_node g)) eqn:E; simpl; auto.
  destruct (String.eqb_spec n u) as [->|Hne].
  - rewrite DictFacts.get_set_same. intros [= <-]. auto.
  - rewrite DictFacts.get_set_other by assumption. auto.
Qed.

End SameKeys.

Lemma nbrs_of_get (g : Graph) (n : node) (nbrs : Dict.t attr_dict) :
  Dict.get n (_adj g) = Some nbrs -> nbrs_of g n = nbrs.
Proof. intros H. unfold nbrs_of, Dict.get_default. now rewrite H. Qed.

Lemma nbrs_of_nodup (g : Graph) (x : node) :
  (forall n nbrs, Dict.get n (_adj g) = Some nbrs -> NoDup (Dict.keys nbrs)) ->
  NoDup (Dict.keys (nbrs_of g x)).
Proof.
  intros H. unfold nbrs_of, Dict.get_default.
  destruct (Dict.get x (_adj g)) as [nbrs|] eqn:E; [eauto | constructor].
Qed.

Lemma ensure_twice_keys (g : Graph) (a b : node) :
  Dict.keys (_adj g) = Dict.keys (_node g) ->
  Dict.keys (_adj (ensure_node (ensure_node g a) b)) =
  Dict.keys (_node (ensure_node (ensure_node g a) b)).
Proof.
  intros H. apply ensure_node_keys. now apply ensure_node_keys.
Qed.

Lemma add_edge_keys (g : Graph) (a b : node) (attr : attr_dict) :
  Dict.keys (_adj g) = Dict.keys (_node g) ->
  Dict.keys (_adj (add_edge g a b attr)) =
  Dict.keys (_node (add_edge g a b attr)).
Proof.
  intros H. pose proof (ensure_twice_keys g a b H) as H1.
  unfold add_edge. cbv zeta. cbn [_node _adj].
  set (g1 := ensure_node (ensure_node g a) b) in *.
  assert (Ha : Dict.mem a (_adj g1) = true).
  { rewrite (mem_same_keys a _ _ H1). subst g1.
    apply NxFacts.ensure_node_keeps, NxFacts.ensure_node_mem. }
  assert (Hb : Dict.mem b (_adj g1) = true).
  { rewrite (mem_same_keys b _ _ H1). subst g1.
    apply NxFacts.ensure_node_mem. }
  rewrite DictFacts.keys_set_old.
  - now rewrite DictFacts.keys_set_old.
  - rewrite DictFacts.mem_set, Hb. apply orb_true_r.
Qed.

Lemma ensure_node_mem_any (g : Graph) (u n : node) :
  Dict.mem n (_node (ensure_node g u)) =
  String.eqb n u || Dict.mem n (_node g).
Proof.
  unfold ensure_node. destruct (Dict.mem u (_node g)) eqn:E; simpl.
  - destruct (String.eqb_spec n u) as [->|]; auto.
  - apply DictFacts.mem_set.
Qed.

Lemma add_edge_mem (g : Graph) (a b n : node) (attr : attr_dict) :
  Dict.mem n (_node (add_edge g a b attr)) =
  String.eqb n b || (String.eqb n a || Dict.mem n (_node g)).
Proof.
  rewrite NxFacts.add_edge_nodes. now rewrite !ensure_node_mem_any.
Qed.

Lemma add_node_nodup (g : Graph) (n : node) (attr : attr_dict) :
  NoDup (Dict.keys (_node g)) ->
  NoDup (Dict.keys (_node (add_node g n attr))).
Proof.
  intros H. unfold add_node.
  destruct (Dict.get n (_node g)); simpl; now apply nodup_set.
Qed.

Lemma add_node_grow (g : Graph) (n : node) (attr : attr_dict) :
  exists more, Dict.keys (_node (add_node g n attr)) =
               Dict.keys (_node g) ++ more.
Proof.
  unfold add_node. destruct (Dict.get n (_node g)) as [old|] eqn:E; simpl.
  - exists []. rewrite app_nil_r. apply DictFacts.keys_set_old.
    unfold Dict.mem. now rewrite E.
  - exists [n]. apply DictFacts.keys_set_new. unfold Dict.mem. now rewrite E.
Qed.

Lemma ensure_node_grow (g : Graph) (u : node) :
  exists more, Dict.keys (_node (ensure_node g u)) =
               Dict.keys (_node g) ++ more.
Proof.
  unfold ensure_node. destruct (Dict.mem u (_node g)) eqn:E; simpl.
  - exists []. now rewrite app_nil_r.
  - exists [u]. now apply DictFacts.keys_set_new.
Qed.

Lemma ensure_node_nodup (g : Graph) (u : node) :
  NoDup (Dict.keys (_node g)) ->
  NoDup (Dict.keys (_node (ensure_node g u))).
Proof.
  intros H. unfold ensure_node. destruct (Dict.mem u (_node g)); simpl; auto.
  now apply nodup_set.
Qed.

Lemma add_edge_keys_grow (g : Graph) (a b : node) (attr : attr_dict) :
  exists more, Dict.keys (_node (add_edge g a b attr)) =
               Dict.keys (_node g) ++ more.
Proof.
  rewrite NxFacts.add_edge_nodes.
  destruct (ensure_node_grow (ensure_node g a) b) as [m2 ->].
  destruct (ensure_node_grow g a) as [m1 ->].
  exists (m1 ++ m2). now rewrite app_assoc.
Qed.

Lemma add_edge_nodup (g : Graph) (a b : node) (attr : attr_dict) :
  NoDup (Dict.keys (_node g)) ->
  NoDup (Dict.keys (_node (add_edge g a b attr))).
Proof.
  intros H. rewrite NxFacts.add_edge_nodes.
  now apply ensure_node_nodup, ensure_node_nodup.
Qed.

Lemma add_edge_get_node (g : Graph) (a b n : node) (attr old : attr_dict) :
  Dict.get n (_node g) = Some old ->
  Dict.get n (_node (add_edge g a b attr)) = Some old.
Proof.
  intros H. rewrite NxFacts.add_edge_nodes.
  unfold ensure_node at 1.
  assert (H1 : Dict.get n (_node (ensure_node g a)) = Some old).
  { unfold ensure_node. destruct (Dict.mem a (_node g)) eqn:Ea; simpl; auto.
    rewrite DictFacts.get_set_other; auto.
    intros ->. unfold Dict.mem in Ea. now rewrite H in Ea. }
  destruct (Dict.mem b (_node (ensure_node g a))) eqn:Eb; simpl; auto.
  rewrite DictFacts.get_set_other; auto.
  intros ->. unfold Dict.mem in Eb. now rewrite H1 in Eb.
Qed.

(** The neighbour dicts after [add_edge(a, b, **attr)] *)
Lemma add_edge_nbrs (g : Graph) (a b x : node) (attr : attr_dict) :
  Dict.keys (_adj g) = Dict.keys (_node g) ->
  nbrs_of (add_edge g a b attr) x =
  let datadict := Dict.update (Dict.get_default b (nbrs_of g a) []) attr in
  if String.eqb x b then
    Dict.set a datadict
      (if String.eqb b a then Dict.set b datadict (nbrs_of g a)
       else nbrs_of g b)
  else if String.eqb x a then Dict.set b datadict (nbrs_of g a)
  else nbrs_of g x.
Proof.
  intros H.
  assert (H1 : Dict.keys (_adj (ensure_node g a)) =
               Dict.keys (_node (ensure_node g a)))
    by now apply ensure_node_keys.
  assert (Hn : forall y, nbrs_of (ensure_node (ensure_node g a) b) y
                         = nbrs_of g y).
  { intros y. rewrite ensure_node_nbrs by assumption.
    now apply ensure_node_nbrs. }
  unfold add_edge. cbv zeta.
  set (g1 := ensure_node (ensure_node g a) b) in *.
  change (Dict.get_default a (_adj g1) []) with (nbrs_of g1 a).
  rewrite (Hn a).
  set (dd := Dict.update (Dict.get_default b (nbrs_of g a) []) attr).
  unfold nbrs_of at 1. cbn [_adj].
  rewrite !get_default_set.
  change (Dict.get_default b (_adj g1) []) with (nbrs_of g1 b).
  change (Dict.get_default x (_adj g1) []) with (nbrs_of g1 x).
  now rewrite !Hn.
Qed.

Lemma add_edge_has_edge (g : Graph) (a b u v : node) (attr : attr_dict) :
  Dict.keys (_adj g) = Dict.keys (_node g) ->
  has_edge (add_edge g a b attr) u v =
  has_edge g u v
  || String.eqb u a && String.eqb v b
  || String.eqb u b && String.eqb v a.
Proof.
  intros H. rewrite !has_edge_nbrs, add_edge_nbrs by assumption. cbv zeta.
  repeat first
    [ rewrite DictFacts.mem_set
    | rewrite String.eqb_refl
    | match goal with
      | |- context [String.eqb ?x ?y] =>
          destruct (String.eqb_spec x y); [subst|]
      end ];
    simpl; rewrite ?orb_true_r, ?orb_false_r; try reflexivity;
    try congruence.
Qed.

Lemma add_edge_neighbours_nodup (g : Graph) (a b : node) (attr : attr_dict) :
  Dict.keys (_adj g) = Dict.keys (_node g) ->
  (forall n nbrs, Dict.get n (_adj g) = Some nbrs -> NoDup (Dict.keys nbrs)) ->
  forall n nbrs, Dict.get n (_adj (add_edge g a b attr)) = Some nbrs ->
                 NoDup (Dict.keys nbrs).
Proof.
  intros H Hnd n nbrs Hget.
  apply nbrs_of_get in Hget. rewrite add_edge_nbrs in Hget by assumption.
  cbv zeta in Hget. subst nbrs.
  pose proof (nbrs_of_nodup g) as Hn.
  destruct (String.eqb n b).
  - apply nodup_set. destruct (String.eqb b a); auto.
    now apply nodup_set, Hn.
  - destruct (String.eqb n a); auto. now apply nodup_set, Hn.
Qed.

End GraphFacts.

Module ConsistentFacts.
Import CallFacts GraphFacts.

Lemma init_consistent : consistent init.
Proof.
  constructor.
  - reflexivity.
  - constructor.
  - constructor.
  - intros n nbrs H. discriminate H.
  - intros n. split.
    + intros H. discriminate H.
    + intros [H|[rel [[] _]]]. discriminate H.
  - intros u v. split.
    + intros H. discriminate H.
    + intros [rel [[] _]].
  - intros id e H. discriminate H.
Qed.

Lemma add_entity_consistent (s s' : analyzer) (e : entity) :
  consistent s -> App.add_entity s e = Ok s' -> consistent s'.
Proof.
  intros [Hk Hn He Hnb Hnodes Hedges Hents]. rewrite add_entity_spec.
  destruct (clashing _ _ _); [discriminate|].
  intros [= <-].
  set (kw := e_attributes e ++
             [("node_type", SStr (e_type e)); ("name", SStr (e_name e))]).
  constructor; cbn [graph entities relationships].
  - now apply add_node_keys.
  - now apply add_node_nodup.
  - now apply nodup_set.
  - intros n nbrs Hget. apply nbrs_of_get in Hget.
    rewrite add_node_nbrs in Hget by assumption. subst nbrs.
    now apply nbrs_of_nodup.
  - intros n. rewrite add_node_mem, DictFacts.mem_set.
    destruct (String.eqb n (e_id e)); simpl; [tauto | apply Hnodes].
  - intros u v. rewrite has_edge_nbrs, add_node_nbrs by assumption.
    apply Hedges.
  - intros id e' Hget.
    destruct (String.eqb_spec id (e_id e)) as [->|Hne].
    + rewrite DictFacts.get_set_same in Hget. injection Hget as <-.
      split; [reflexivity|].
      destruct (add_node_get_same (graph s) (e_id e) kw) as [old Hold].
      exists (Dict.update old kw). split; [exact Hold|].
      rewrite !DictFacts.get_update. subst kw.
      rewrite rev_app_distr. simpl. auto.
    + rewrite DictFacts.get_set_other in Hget by assumption.
      rewrite add_node_get_other by assumption. now apply Hents.
Qed.

Lemma add_relationship_consistent (s s' : analyzer) (rel : relationship) :
  consistent s -> App.add_relationship s rel = Ok s' -> consistent s'.
Proof.
  intros [Hk Hn He Hnb Hnodes Hedges Hents]. rewrite add_relationship_spec.
  destruct (clashing _ _ _); [discriminate|].
  intros [= <-].
  set (kw := r_attributes rel ++ [("relationship_type", SStr (r_type rel))]).
  constructor; cbn [graph entities relationships].
  - now apply add_edge_keys.
  - now apply add_edge_nodup.
  - assumption.
  - now apply add_edge_neighbours_nodup.
  - intros n. rewrite add_edge_mem. split.
    + intros H. apply orb_prop in H as [H|H].
      * apply String.eqb_eq in H. right. exists rel. split.
        -- apply in_or_app. right. now left.
        -- right. congruence.
      * apply orb_prop in H as [H|H].
        -- apply String.eqb_eq in H. right. exists rel. split.
           ++ apply in_or_app. right. now left.
           ++ left. congruence.
        -- apply Hnodes in H as [H|[r [Hr Hm]]]; auto.
           right. exists r. split; auto. apply in_or_app. auto.
    + intros [H|[r [Hr Hm]]].
      * rewrite (proj2 (Hnodes n) (or_introl H)). now rewrite !orb_true_r.
      * apply in_app_or in Hr as [Hr|[<-|[]]].
        -- rewrite (proj2 (Hnodes n) (or_intror (ex_intro _ r (conj Hr Hm)))).
           now rewrite !orb_true_r.
        -- destruct Hm as [<-|<-]; rewrite String.eqb_refl;
             now rewrite ?orb_true_r.
  - intros u v. rewrite add_edge_has_edge by assumption. split.
    + intros H. apply orb_prop in H as [H|H];
        [apply orb_prop in H as [H|H]|].
      * apply Hedges in H as [r [Hr Hj]]. exists r. split; auto.
        apply in_or_app. auto.
      * apply andb_prop in H as [H1 H2].
        apply String.eqb_eq in H1, H2. exists rel. split.
        -- apply in_or_app. right. now left.
        -- left. split; congruence.
      * apply andb_prop in H as [H1 H2].
        apply String.eqb_eq in H1, H2. exists rel. split.
        -- apply in_or_app. right. now left.
        -- right. split; congruence.
    + intros [r [Hr Hj]]. apply in_app_or in Hr as [Hr|[<-|[]]].
      * rewrite (proj2 (Hedges u v) (ex_intro _ r (conj Hr Hj))).
        reflexivity.
      * destruct Hj as [[<- <-]|[<- <-]]; rewrite !String.eqb_refl;
          simpl; now rewrite ?orb_true_r.
  - intros id e Hget. destruct (Hents id e Hget) as [Hid [attr [Ha Ht]]].
    split; auto. exists attr. split; auto.
    now apply add_edge_get_node.
Qed.

Lemma update_graph_consistent (s : analyzer) (r : analysis_result) :
  consistent s -> consistent (fst (App._update_graph s r)).
Proof.
  intros H. unfold App._update_graph.
  pose proof (for_each_keeps App.add_entity consistent (res_entities r)
                (fun s0 x s1 H0 E => add_entity_consistent s0 s1 x H0 E)
                s H) as H1.
  destruct (for_each App.add_entity s (res_entities r)) as [s1 [e|]];
    [exact H1|].
  exact (for_each_keeps App.add_relationship consistent (res_relationships r)
           (fun s0 x s2 H0 E => add_relationship_consistent s0 s2 x H0 E)
           s1 H1).
Qed.

Lemma process_document_consistent (s : analyzer)
  (answer : option analysis_result) :
  consistent s -> consistent (fst (Page.process_document s answer)).
Proof.
  intros H. unfold Page.process_document. destruct answer as [r|]; auto.
  pose proof (update_graph_consistent s r H) as H1.
  destruct (App._update_graph s r) as [s' [e|]]; exact H1.
Qed.

Lemma fold_consistent (answers : list (option analysis_result)) :
  forall s, consistent s ->
  consistent (fold_left (fun s answer => fst (Page.process_document s answer))
                answers s).
Proof.
  induction answers as [|a l IH]; intros s H; simpl; auto.
  apply IH. now apply process_document_consistent.
Qed.

Lemma session_consistent (answers : list (option analysis_result)) :
  consistent (Page.session answers).
Proof. apply fold_consistent, init_consistent. Qed.

End ConsistentFacts.

(** X5. app.py only adds: whatever the answer, and whether
    [process_document] returns it or [None], the entity ids, the nodes of
    the graph and the relationship list after the call are the ones from
    before, in their order, with the new ones after them. *)
Theorem process_document_only_adds (s : analyzer)
  (answer : option analysis_result) :
  let s' := fst (Page.process_document s answer) in
  extends (Dict.keys (entities s')) (Dict.keys (entities s)) /\
  extends (Dict.keys (Nx._node (graph s'))) (Dict.keys (Nx._node (graph s))) /\
  extends (relationships s') (relationships s).
Proof.
  set (P := fun s' : analyzer =>
    extends (Dict.keys (entities s')) (Dict.keys (entities s)) /\
    extends (Dict.keys (Nx._node (graph s')))
            (Dict.keys (Nx._node (graph s))) /\
    extends (relationships s') (relationships s)).
  assert (P0 : P s).
  { repeat split; exists []; now rewrite app_nil_r. }
  assert (Pe : forall s0 e s1, P s0 -> App.add_entity s0 e = Ok s1 -> P s1).
  { intros s0 e s1 (H1 & H2 & H3). rewrite CallFacts.add_entity_spec.
    destruct (clashing _ _ _); [discriminate|].
    intros [= <-]. repeat split; cbn [graph entities relationships]; auto.
    - destruct H1 as [m H1]. rewrite GraphFacts.keys_set, H1.
      destruct (Dict.mem _ _); [now exists m|].
      exists (m ++ [e_id e]). now rewrite app_assoc.
    - destruct H2 as [m H2].
      destruct (GraphFacts.add_node_grow (graph s0) (e_id e)
                  (e_attributes e ++
                   [("node_type", SStr (e_type e));
                    ("name", SStr (e_name e))])) as [m' ->].
      rewrite H2. exists (m ++ m'). now rewrite app_assoc. }
  assert (Pr : forall s0 rel s1,
             P s0 -> App.add_relationship s0 rel = Ok s1 -> P s1).
  { intros s0 rel s1 (H1 & H2 & H3). rewrite CallFacts.add_relationship_spec.
    destruct (clashing _ _ _); [discriminate|].
    intros [= <-]. repeat split; cbn [graph entities relationships]; auto.
    - destruct H2 as [m H2].
      destruct (GraphFacts.add_edge_keys_grow (graph s0) (r_source rel)
                  (r_target rel)
                  (r_attributes rel ++
                   [("relationship_type", SStr (r_type rel))])) as [m' ->].
      rewrite H2. exists (m ++ m'). now rewrite app_assoc.
    - destruct H3 as [m H3]. rewrite H3. exists (m ++ [rel]).
      now rewrite app_assoc. }
  change (P (fst (Page.process_document s answer))).
  unfold Page.process_document. destruct answer as [r|]; [|exact P0].
  assert (H : P (fst (App._update_graph s r))).
  { unfold App._update_graph.
    pose proof (CallFacts.for_each_keeps App.add_entity P (res_entities r)
                  Pe s P0) as H1.
    destruct (for_each App.add_entity s (res_entities r)) as [s1 [e|]];
      [exact H1|].
    exact (CallFacts.for_each_keeps App.add_relationship P
             (res_relationships r) Pr s1 H1). }
  destruct (App._update_graph s r) as [s' [e|]]; exact H.
Qed.

(** X6. In an analyzer that app.py has built from [__init__] through any
    calls of [process_document], a name is a node of the graph exactly when
    it is the id of a recorded entity or an endpoint of a recorded
    relationship. *)
Theorem session_nodes_come_from_facts
  (answers : list (option analysis_result)) (n : node) :
  let s := Page.session answers in
  Dict.mem n (Nx._node (graph s)) = true <->
  Dict.mem n (entities s) = true \/
  exists rel, In rel (relationships s) /\ mentions rel n.
Proof.
  exact (@nodes_of_facts _ (ConsistentFacts.session_consistent answers) n).
Qed.

(** X7. In an analyzer that app.py has built from [__init__] through any
    calls of [process_document], two nodes are joined by an edge exactly
    when a recorded relationship has them as its endpoints, in either
    direction; the graph has no other edge, and no recorded relationship is
    without its edge. *)
Theorem session_edges_come_from_facts
  (answers : list (option analysis_result)) (u v : node) :
  let s := Page.session answers in
  Nx.has_edge (graph s) u v = true <->
  exists rel, In rel (relationships s) /\ joins rel u v.
Proof.
  exact (@edges_of_facts _ (ConsistentFacts.session_consistent answers) u v).
Qed.

(** X8. In an analyzer that app.py has built from [__init__] through any
    calls of [process_document], the record stored under an id has that id,
    the id is a node of the graph, and the attributes [node_type] and
    [name] of the node are the type and the name of the record. *)
Theorem session_nodes_agree_with_records
  (answers : list (option analysis_result)) (id : node) (e : entity) :
  let s := Page.session answers in
  Dict.get id (entities s) = Some e ->
  e_id e = id /\
  exists attr, Dict.get id (Nx._node (graph s)) = Some attr /\
               Dict.get "node_type" attr = Some (SStr (e_type e)) /\
               Dict.get "name" attr = Some (SStr (e_name e)).
Proof.
  exact (@nodes_of_entities _ (ConsistentFacts.session_consistent answers) id e).
Qed.

Lemma session_nodes_agree_with_records_witness :
  Dict.get "a" (entities (Page.session [Some Repeated.batch]))
  = Some Repeated.company /\
  e_id Repeated.company = "a" /\
  exists attr,
    Dict.get "a" (Nx._node (graph (Page.session [Some Repeated.batch])))
    = Some attr /\
    Dict.get "node_type" attr = Some (SStr (e_type Repeated.company)) /\
    Dict.get "name" attr = Some (SStr (e_name Repeated.company)).
Proof.
  assert (H : Dict.get "a" (entities (Page.session [Some Repeated.batch]))
              = Some Repeated.company) by reflexivity.
  split; [exact H|].
  exact (session_nodes_agree_with_records [Some Repeated.batch] "a"
           Repeated.company H).
Defined.

(** ** The statistics of the page *)

Lemma one_count (t : string) :
  (if String.eqb t "funcionario" then 1 else 0)
  + (if String.eqb t "empresa" then 1 else 0)
  + (if String.eqb t "beneficiario" then 1 else 0)
  + (if String.eqb t "ppe" then 1 else 0)
  + (if negb (mem_string t page_types) then 1 else 0) = 1.
Proof.
  unfold mem_string, page_types. cbn [existsb].
  destruct (String.eqb_spec t "funcionario") as [->|_]; [reflexivity|].
  destruct (String.eqb_spec t "empresa") as [->|_]; [reflexivity|].
  destruct (String.eqb_spec t "beneficiario") as [->|_]; [reflexivity|].
  destruct (String.eqb_spec t "ppe") as [->|_]; reflexivity.
Qed.

Lemma count_by_type (l : list entity) :
  length (filter (fun e => String.eqb (e_type e) "funcionario") l)
  + length (filter (fun e => String.eqb (e_type e) "empresa") l)
  + length (filter (fun e => String.eqb (e_type e) "beneficiario") l)
  + length (filter (fun e => String.eqb (e_type e) "ppe") l)
  + length (filter (fun e => negb (mem_string (e_type e) page_types)) l)
  = length l.
Proof.
  induction l as [|e l IH]; [reflexivity|].
  cbn [filter]. pose proof (one_count (e_type e)) as H.
  destruct (String.eqb (e_type e) "funcionario"),
    (String.eqb (e_type e) "empresa"),
    (String.eqb (e_type e) "beneficiario"),
    (String.eqb (e_type e) "ppe"),
    (negb (mem_string (e_type e) page_types));
    cbn [length] in *; lia.
Qed.

(** X9. The four counts by type that [main()] shows add up to the total
    count of entities less the entities whose type is none of
    [funcionario], [empresa], [beneficiario], [ppe]: such entities are in
    the total and in no other count. *)
Theorem counts_by_type_miss_other_types (s : analyzer) :
  shown s "Funcionarios" + shown s "Empresas" + shown s "Beneficiarios"
  + shown s "PPEs" + length (of_other_type s)
  = shown s "Total de Entidades".
Proof.
  unfold shown, Page.stats, of_other_type, count_type. cbn [Dict.get_default
    Dict.get String.eqb Ascii.eqb Bool.eqb].
  rewrite count_by_type. unfold Dict.values. apply length_map.
Qed.

(** ** The figure *)

Module FigureFacts.

Lemma for_fold_raises {A B} (body : B -> A -> result B)
  (P : exception -> Prop) (l : list A) :
  (forall acc x e, body acc x = Raise e -> P e) ->
  (exists x, In x l /\ forall acc, exists e, body acc x = Raise e) ->
  forall acc, exists e, for_fold body acc l = Raise e /\ P e.
Proof.
  intros HP. induction l as [|x l IH]; intros [bad [Hin Hbad]] acc.
  - destruct Hin.
  - simpl. destruct (body acc x) as [acc'|e] eqn:E; simpl.
    + apply IH. destruct Hin as [->|Hin]; [|eauto].
      destruct (Hbad acc) as [e E']. congruence.
    + exists e. split; [reflexivity | eauto].
Qed.

Lemma for_fold_runs {A B} (body : B -> A -> result B) (l : list A) :
  (forall x, In x l -> forall acc, exists acc', body acc x = Ok acc') ->
  forall acc, exists r, for_fold body acc l = Ok r.
Proof.
  induction l as [|x l IH]; intros H acc; simpl; [eauto|].
  destruct (H x (or_introl eq_refl) acc) as [acc' ->]. simpl.
  apply IH. intros y Hy. apply H. now right.
Qed.

Lemma for_fold_ran {A B} (body : B -> A -> result B) (l : list A) :
  forall acc r, for_fold body acc l = Ok r ->
  forall x, In x l -> exists acc0 acc1, body acc0 x = Ok acc1.
Proof.
  induction l as [|y l IH]; intros acc r H x Hx; [destruct Hx|].
  simpl in H. destruct (body acc y) as [acc'|e] eqn:E; simpl in H;
    [|discriminate].
  destruct Hx as [<-|Hx]; eauto.
Qed.

(** A node can be plotted when it has a position, a record and a colour. *)
Lemma plot_node_ok (pos : Dict.t Page.position) (s : analyzer)
  (trace : Page.node_trace) (n : node) (trace' : Page.node_trace) :
  Page.plot_node pos s trace n = Ok trace' <->
  exists xy e c,
    Dict.get n pos = Some xy /\
    Dict.get n (entities s) = Some e /\
    Dict.get (e_type e) Page.color_map = Some c /\
    trace' = {| Page.nt_x := Page.nt_x trace ++ [fst xy];
                Page.nt_y := Page.nt_y trace ++ [snd xy];
                Page.nt_text := Page.nt_text trace ++ [Page.node_text e];
                Page.nt_color := Page.nt_color trace ++ [c] |}.
Proof.
  unfold Page.plot_node, subscript. split.
  - destruct (Dict.get n pos) as [xy|] eqn:E1; cbn [bind]; [|discriminate].
    destruct (Dict.get n (entities s)) as [e|] eqn:E2; cbn [bind];
      [|discriminate].
    destruct (Dict.get (e_type e) Page.color_map) as [c|] eqn:E3; cbn [bind];
      [|discriminate].
    intros [= <-]. exists xy, e, c. repeat split; auto.
  - intros (xy & e & c & -> & -> & Hc & ->). cbn [bind]. now rewrite Hc.
Qed.

Lemma plot_node_key_error (pos : Dict.t Page.position) (s : analyzer)
  (trace : Page.node_trace) (n : node) (exn : exception) :
  Page.plot_node pos s trace n = Raise exn -> exists k, exn = KeyError k.
Proof.
  unfold Page.plot_node, subscript.
  destruct (Dict.get n pos) as [xy|]; cbn [bind]; [|intros [= <-]; eauto].
  destruct (Dict.get n (entities s)) as [e|]; cbn [bind]; [|intros [= <-]; eauto].
  destruct (Dict.get (e_type e) Page.color_map) as [c|]; cbn [bind];
    [discriminate | intros [= <-]; eauto].
Qed.

Lemma plot_edge_ok (pos : Dict.t Page.position) (trace : Page.edge_trace)
  (edge : node * node) :
  Dict.mem (fst edge) pos = true -> Dict.mem (snd edge) pos = true ->
  exists trace', Page.plot_edge pos trace edge = Ok trace'.
Proof.
  unfold Page.plot_edge, subscript, Dict.mem.
  destruct (Dict.get (fst edge) pos); [|discriminate].
  destruct (Dict.get (snd edge) pos); [|discriminate].
  simpl. eauto.
Qed.

(** What the loop over the nodes appends to the node trace *)
Lemma node_loop (pos : Dict.t Page.position) (s : analyzer) (l : list node) :
  forall trace trace',
  for_fold (Page.plot_node pos s) trace l = Ok trace' ->
  exists xs ys texts colors,
    Page.nt_x trace' = Page.nt_x trace ++ xs /\
    Page.nt_y trace' = Page.nt_y trace ++ ys /\
    Page.nt_text trace' = Page.nt_text trace ++ texts /\
    Page.nt_color trace' = Page.nt_color trace ++ colors /\
    length xs = length l /\ length ys = length l /\
    length texts = length l /\ length colors = length l /\
    Forall2 (fun n tc => marker_of s n (fst tc) (snd tc))
            l (combine texts colors).
Proof.
  induction l as [|n l IH]; intros trace trace' H; simpl in H.
  - injection H as <-. exists [], [], [], [].
    rewrite !app_nil_r. repeat split; constructor.
  - destruct (Page.plot_node pos s trace n) as [t1|] eqn:E; simpl in H;
      [|discriminate].
    apply plot_node_ok in E as (xy & e & c & Hxy & He & Hc & ->).
    destruct (IH _ _ H)
      as (xs & ys & ts & cs & H1 & H2 & H3 & H4 & L1 & L2 & L3 & L4 & HF).
    cbn [Page.nt_x Page.nt_y Page.nt_text Page.nt_color] in *.
    exists (fst xy :: xs), (snd xy :: ys), (Page.node_text e :: ts), (c :: cs).
    rewrite H1, H2, H3, H4, <- !app_assoc. simpl.
    repeat split; auto.
    constructor; auto. exists e. auto.
Qed.

(** The node trace after the loop over the nodes, entry by entry *)
Lemma node_loop_exact (pos : Dict.t Page.position) (s : analyzer)
  (l : list node) :
  forall trace trace',
  for_fold (Page.plot_node pos s) trace l = Ok trace' ->
  exists marks,
    Forall2 (marked pos s) l marks /\
    trace' =
    {| Page.nt_x := Page.nt_x trace ++ map (fun m => fst (mk_at m)) marks;
       Page.nt_y := Page.nt_y trace ++ map (fun m => snd (mk_at m)) marks;
       Page.nt_text :=
         Page.nt_text trace
         ++ map (fun m => Page.node_text (mk_record m)) marks;
       Page.nt_color := Page.nt_color trace ++ map mk_color marks |}.
Proof.
  induction l as [|n l IH]; intros trace trace' H; simpl in H.
  - injection H as <-. exists []. split; [constructor|].
    simpl. rewrite !app_nil_r. now destruct trace.
  - destruct (Page.plot_node pos s trace n) as [t1|] eqn:E; simpl in H;
      [|discriminate].
    apply plot_node_ok in E as (xy & e & c & Hxy & He & Hc & ->).
    destruct (IH _ _ H) as (marks & HF & ->).
    cbn [Page.nt_x Page.nt_y Page.nt_text Page.nt_color].
    exists ({| mk_at := xy; mk_record := e; mk_color := c |} :: marks).
    split.
    + constructor; [|exact HF]. repeat split; assumption.
    + cbn [map mk_at mk_record mk_color]. now rewrite <- !app_assoc.
Qed.

(** The edge trace after the loop over the edges, entry by entry *)
Lemma edge_loop_exact (pos : Dict.t Page.position) (l : list (node * node)) :
  forall trace trace',
  for_fold (Page.plot_edge pos) trace l = Ok trace' ->
  exists lines,
    Forall2 (drawn pos) l lines /\
    trace' =
    {| Page.et_x :=
         Page.et_x trace
         ++ flat_map (fun ends => segment (fst (fst ends)) (fst (snd ends)))
              lines;
       Page.et_y :=
         Page.et_y trace
         ++ flat_map (fun ends => segment (snd (fst ends)) (snd (snd ends)))
              lines |}.
Proof.
  induction l as [|edge l IH]; intros trace trace' H; simpl in H.
  - injection H as <-. exists []. split; [constructor|].
    simpl. rewrite !app_nil_r. now destruct trace.
  - unfold Page.plot_edge at 1 in H. unfold subscript at 1 2 in H.
    destruct (Dict.get (fst edge) pos) as [xy0|] eqn:E0; simpl in H;
      [|discriminate].
    destruct (Dict.get (snd edge) pos) as [xy1|] eqn:E1; simpl in H;
      [|discriminate].
    destruct (IH _ _ H) as (lines & HF & ->).
    cbn [Page.et_x Page.et_y].
    exists ((xy0, xy1) :: lines). split.
    + constructor; [|exact HF]. split; assumption.
    + cbn [flat_map fst snd]. unfold segment at 1 3.
      now rewrite <- !app_assoc.
Qed.

Lemma in_edges_from (u v : node) (adj : Dict.t (Dict.t attr_dict)) :
  forall seen, In (u, v) (Nx.edges_from seen adj) ->
  exists nbrs, In (u, nbrs) adj /\ In v (Dict.keys nbrs).
Proof.
  induction adj as [|[n nbrs] adj IH]; intros seen H; simpl in H;
    [destruct H|].
  apply in_app_or in H as [H|H].
  - apply in_map_iff in H as (w & [= <- <-] & Hw).
    apply filter_In in Hw as [Hw _]. exists nbrs. split; auto. now left.
  - destruct (IH _ H) as (nb & Hin & Hv). exists nb. split; auto. now right.
Qed.

Lemma in_get {V} (k : string) (v : V) (d : Dict.t V) :
  NoDup (Dict.keys d) -> In (k, v) d -> Dict.get k d = Some v.
Proof.
  induction d as [|[k' v'] d IH]; simpl; intros Hnd Hin; [destruct Hin|].
  inversion Hnd as [|? ? Hk Hd]; subst.
  destruct Hin as [[= -> ->]|Hin].
  - now rewrite String.eqb_refl.
  - destruct (String.eqb_spec k k') as [->|]; auto.
    exfalso. apply Hk. change k' with (fst (k', v)).
    now apply in_map.
Qed.

(** In a consistent analyzer the two ends of an edge are nodes. *)
Lemma edge_ends_are_nodes (s : analyzer) (u v : node) :
  consistent s -> In (u, v) (Nx.edges (graph s)) ->
  Dict.mem u (Nx._node (graph s)) = true /\
  Dict.mem v (Nx._node (graph s)) = true.
Proof.
  intros Hc Hin. apply in_edges_from in Hin as (nbrs & Hin & Hv).
  assert (Hk : NoDup (Dict.keys (Nx._adj (graph s))))
    by (rewrite (same_keys Hc); apply (unique_nodes Hc)).
  apply in_get in Hin; auto.
  assert (He : Nx.has_edge (graph s) u v = true).
  { rewrite GraphFacts.has_edge_nbrs, (GraphFacts.nbrs_of_get _ _ _ Hin).
    now apply GraphFacts.mem_in. }
  apply (edges_of_facts Hc) in He as (rel & Hrel & Hj).
  split; apply (nodes_of_facts Hc); right; exists rel; split; auto;
    destruct Hj as [[<- <-]|[<- <-]]; unfold mentions; auto.
Qed.

(** On a consistent analyzer, with a layout that places every node, the
    figure is built exactly when no endpoint dangles and every entity has
    a colour. *)
Lemma figure_iff_known (s : analyzer) (pos : Dict.t Page.position) :
  consistent s ->
  (forall n, Dict.mem n (Nx._node (graph s)) = true -> Dict.mem n pos = true) ->
  (exists fig, Page.generate_network_visualization pos s = Ok fig) <->
  no_dangling s /\ drawable s.
Proof.
  intros Hc Hpos. split.
  - intros [fig Hfig]. unfold Page.generate_network_visualization in Hfig.
    destruct (for_fold (Page.plot_node pos s) _ _) as [nt|] eqn:En;
      simpl in Hfig; [|discriminate].
    assert (Hnode : forall n, Dict.mem n (Nx._node (graph s)) = true ->
              exists e, Dict.get n (entities s) = Some e /\
                        Dict.mem (e_type e) Page.color_map = true).
    { intros n Hn. apply GraphFacts.mem_in in Hn.
      destruct (for_fold_ran _ _ _ _ En n Hn) as (a0 & a1 & E).
      apply plot_node_ok in E as (xy & e & c & _ & He & Hcol & _).
      exists e. split; auto. unfold Dict.mem. now rewrite Hcol. }
    split.
    + intros rel n Hrel Hm.
      destruct (Hnode n) as (e & He & _).
      * apply (nodes_of_facts Hc). right. eauto.
      * unfold Dict.mem. now rewrite He.
    + intros id e He.
      destruct (Hnode id) as (e' & He' & Hcol).
      * apply (nodes_of_facts Hc). left. unfold Dict.mem. now rewrite He.
      * congruence.
  - intros [Hd Hdraw]. unfold Page.generate_network_visualization.
    destruct (for_fold_runs (Page.plot_node pos s)
                (Dict.keys (Nx._node (graph s))))
      with (acc := {| Page.nt_x := []; Page.nt_y := []; Page.nt_text := [];
                      Page.nt_color := [] |}) as [nt ->].
    { intros n Hn acc. apply GraphFacts.mem_in in Hn.
      assert (He : Dict.mem n (entities s) = true).
      { apply (nodes_of_facts Hc) in Hn as Hn'.
        destruct Hn' as [|(rel & Hrel & Hm)]; eauto. }
      apply DictFacts.mem_get in He as [e He].
      pose proof (Hdraw n e He) as Hcol.
      apply DictFacts.mem_get in Hcol as [c Hcol].
      destruct (DictFacts.mem_get _ _ (Hpos n Hn)) as [xy Hxy].
      eexists. apply plot_node_ok. exists xy, e, c. eauto. }
    simpl.
    destruct (for_fold_runs (Page.plot_edge pos) (Nx.edges (graph s)))
      with (acc := {| Page.et_x := []; Page.et_y := [] |}) as [et ->].
    { intros [u v] Hin acc.
      destruct (edge_ends_are_nodes s u v Hc Hin) as [Hu Hv].
      apply plot_edge_ok; apply Hpos; assumption. }
    simpl. eauto.
Qed.

End FigureFacts.

(** X10. [generate_network_visualization] of app.py raises a [KeyError],
    and builds no figure, as soon as some node of the graph has no entity
    record or a record whose type is not a key of [color_map], whatever the
    layout. *)
Theorem figure_needs_known_nodes (pos : Dict.t Page.position) (s : analyzer)
  (n : node) :
  In n (Dict.keys (Nx._node (graph s))) ->
  Dict.get n (entities s) = None \/
  (exists e, Dict.get n (entities s) = Some e /\
             Dict.get (e_type e) Page.color_map = None) ->
  exists k, Page.generate_network_visualization pos s = Raise (KeyError k).
Proof.
  intros Hin Hbad. unfold Page.generate_network_visualization.
  destruct (FigureFacts.for_fold_raises (Page.plot_node pos s)
              (fun exn => exists k, exn = KeyError k)
              (Dict.keys (Nx._node (graph s)))
              (FigureFacts.plot_node_key_error pos s))
    with (acc := {| Page.nt_x := []; Page.nt_y := []; Page.nt_text := [];
                    Page.nt_color := [] |})
    as (exn & -> & k & ->); [|simpl; eauto].
  exists n. split; auto. intros acc.
  destruct (Page.plot_node pos s acc n) as [t|exn] eqn:E; [|eauto].
  exfalso. apply FigureFacts.plot_node_ok in E as (xy & e & c & _ & He & Hc & _).
  destruct Hbad as [Hbad|(e' & He' & Hc')]; congruence.
Qed.

Lemma figure_needs_known_nodes_witness :
  In "x" (Dict.keys (Nx._node (graph Dangling.accepted))) /\
  Dict.get "x" (entities Dangling.accepted) = None /\
  exists k,
    Page.generate_network_visualization Drawn.pos Dangling.accepted
    = Raise (KeyError k).
Proof.
  assert (H1 : In "x" (Dict.keys (Nx._node (graph Dangling.accepted))))
    by (simpl; auto).
  assert (H2 : Dict.get "x" (entities Dangling.accepted) = None)
    by reflexivity.
  split; [exact H1|]. split; [exact H2|].
  exact (figure_needs_known_nodes Drawn.pos Dangling.accepted "x" H1
           (or_introl H2)).
Defined.

(** X11. The figure that [generate_network_visualization] returns has
    one marker for each node of the graph, in the order of the nodes: its
    [x] and [y] are the position that the layout gives the node, its text
    and its colour are those of the node's record.  The edge trace has
    three entries for each edge, in the order of [graph.edges()]: in [x]
    the [x] of the position of the first end, the [x] of the position of
    the second end and [None], and the same in [y]. *)
Theorem figure_shows_every_node_and_edge (pos : Dict.t Page.position)
  (s : analyzer) (fig : Page.Figure) :
  Page.generate_network_visualization pos s = Ok fig ->
  exists (marks : list mark)
         (lines : list (Page.position * Page.position)),
    Forall2 (marked pos s) (Dict.keys (Nx._node (graph s))) marks /\
    Page.fig_node_trace fig =
    {| Page.nt_x := map (fun m => fst (mk_at m)) marks;
       Page.nt_y := map (fun m => snd (mk_at m)) marks;
       Page.nt_text := map (fun m => Page.node_text (mk_record m)) marks;
       Page.nt_color := map mk_color marks |} /\
    Forall2 (drawn pos) (Nx.edges (graph s)) lines /\
    Page.fig_edge_trace fig =
    {| Page.et_x :=
         flat_map (fun ends => segment (fst (fst ends)) (fst (snd ends)))
           lines;
       Page.et_y :=
         flat_map (fun ends => segment (snd (fst ends)) (snd (snd ends)))
           lines |}.
Proof.
  unfold Page.generate_network_visualization.
  destruct (for_fold (Page.plot_node pos s) _ _) as [nt|] eqn:En; simpl;
    [|discriminate].
  destruct (for_fold (Page.plot_edge pos) _ _) as [et|] eqn:Ee; simpl;
    [|discriminate].
  intros [= <-]. cbn [Page.fig_node_trace Page.fig_edge_trace].
  apply FigureFacts.node_loop_exact in En as (marks & HM & ->).
  apply FigureFacts.edge_loop_exact in Ee as (lines & HL & ->).
  exists marks, lines. simpl. auto.
Qed.

Lemma figure_shows_every_node_and_edge_witness :
  Page.generate_network_visualization Drawn.pos Repeated.twice
  = Ok Drawn.fig /\
  exists (marks : list mark)
         (lines : list (Page.position * Page.position)),
    Forall2 (marked Drawn.pos Repeated.twice)
      (Dict.keys (Nx._node (graph Repeated.twice))) marks /\
    Page.fig_node_trace Drawn.fig =
    {| Page.nt_x := map (fun m => fst (mk_at m)) marks;
       Page.nt_y := map (fun m => snd (mk_at m)) marks;
       Page.nt_text := map (fun m => Page.node_text (mk_record m)) marks;
       Page.nt_color := map mk_color marks |} /\
    Forall2 (drawn Drawn.pos) (Nx.edges (graph Repeated.twice)) lines /\
    Page.fig_edge_trace Drawn.fig =
    {| Page.et_x :=
         flat_map (fun ends => segment (fst (fst ends)) (fst (snd ends)))
           lines;
       Page.et_y :=
         flat_map (fun ends => segment (snd (fst ends)) (snd (snd ends)))
           lines |}.
Proof.
  assert (H : Page.generate_network_visualization Drawn.pos Repeated.twice
              = Ok Drawn.fig) by (vm_compute; reflexivity).
  split; [exact H|].
  exact (figure_shows_every_node_and_edge Drawn.pos Repeated.twice
           Drawn.fig H).
Defined.

(** X12. On an analyzer that app.py has built through calls of
    [process_document], and with a layout that places every node,
    [generate_network_visualization] returns a figure exactly when every
    endpoint of a recorded relationship is the id of an entity and every
    entity has one of the four types of [color_map]; otherwise it raises. *)
Theorem session_figure_iff_all_known
  (answers : list (option analysis_result)) (pos : Dict.t Page.position) :
  let s := Page.session answers in
  (forall n, Dict.mem n (Nx._node (graph s)) = true -> Dict.mem n pos = true) ->
  (exists fig, Page.generate_network_visualization pos s = Ok fig) <->
  no_dangling s /\ drawable s.
Proof.
  intros s Hpos.
  exact (FigureFacts.figure_iff_known s pos
           (ConsistentFacts.session_consistent answers) Hpos).
Qed.

Lemma session_figure_iff_all_known_witness :
  (forall n,
      Dict.mem n (Nx._node (graph (Page.session [Some Repeated.batch]))) = true ->
      Dict.mem n Drawn.pos = true) /\
  ((exists fig,
       Page.generate_network_visualization Drawn.pos
         (Page.session [Some Repeated.batch]) = Ok fig) <->
   no_dangling (Page.session [Some Repeated.batch]) /\
   drawable (Page.session [Some Repeated.batch])).
Proof.
  assert (H : forall n,
             Dict.mem n (Nx._node (graph (Page.session [Some Repeated.batch])))
             = true ->
             Dict.mem n Drawn.pos = true).
  { intros n. unfold Dict.mem. simpl.
    destruct (String.eqb n "a"); [reflexivity|].
    destruct (String.eqb n "b"); [reflexivity | discriminate]. }
  split; [exact H|].
  exact (session_figure_iff_all_known [Some Repeated.batch] Drawn.pos H).
Defined.

(** ** What the detectors report *)

Module FindingFacts.

Lemma filterM_in {A} (keep : A -> result bool) (l : list A) :
  forall out, filterM keep l = Ok out ->
  forall x, In x out <-> In x l /\ keep x = Ok true.
Proof.
  induction l as [|y l IH]; intros out H x; simpl in H.
  - injection H as <-. simpl. tauto.
  - destruct (keep y) as [b|] eqn:Ey; cbn [bind] in H; [|discriminate].
    destruct (filterM keep l) as [xs|]; cbn [bind] in H; [|discriminate].
    injection H as <-. specialize (IH xs eq_refl x).
    destruct b; simpl; rewrite IH; intuition (subst; auto; congruence).
Qed.

Lemma filterM_raises {A} (keep : A -> result bool) (l : list A) (x : A) :
  In x l -> (exists exn, keep x = Raise exn) ->
  exists exn, filterM keep l = Raise exn.
Proof.
  intros Hin [exn Hx]. induction l as [|y l IH]; [destruct Hin|].
  simpl. destruct Hin as [->|Hin].
  - rewrite Hx. simpl. eauto.
  - destruct (keep y); cbn [bind]; [|eauto].
    destruct (IH Hin) as [e ->]. simpl. eauto.
Qed.

Lemma filterM_runs {A} (keep : A -> result bool) (l : list A) :
  (forall x, In x l -> exists b, keep x = Ok b) ->
  exists out, filterM keep l = Ok out.
Proof.
  induction l as [|y l IH]; intros H; simpl; [eauto|].
  destruct (H y (or_introl eq_refl)) as [b ->]. cbn [bind].
  destruct IH as [out ->]; [intros x Hx; apply H; now right|].
  cbn [bind]. eauto.
Qed.

Lemma empresa_degrees_in (s : analyzer) (degrees : list (node * nat)) :
  empresa_degrees s = Ok degrees ->
  forall n d, In (n, d) degrees <->
              In (n, d) (Nx.degree (graph s)) /\
              entity_type_of s n = Ok "empresa".
Proof.
  intros H n d. unfold empresa_degrees in H.
  rewrite (filterM_in _ _ _ H (n, d)). cbn [fst].
  split; intros [H1 H2]; split; auto.
  - destruct (entity_type_of s n) as [t|]; cbn [bind] in H2; [|discriminate].
    injection H2 as H2. apply String.eqb_eq in H2. now subst.
  - rewrite H2. cbn [bind]. reflexivity.
Qed.

Lemma over_threshold_in (limit : Float64.float) (risk_level : option string)
  (degrees : list (node * nat)) (p : pattern) :
  In p (over_threshold limit risk_level degrees) <->
  exists n d,
    p = concentracion_contratos n d risk_level description_concentracion /\
    In (n, d) degrees /\
    Float64.ltb limit (Float64.of_nat d) = true.
Proof.
  unfold over_threshold. rewrite in_flat_map. split.
  - intros ([n d] & Hin & Hp). cbn [fst snd] in Hp.
    destruct (Float64.ltb limit (Float64.of_nat d)) eqn:E; [|destruct Hp].
    destruct Hp as [<-|[]]. exists n, d. auto.
  - intros (n & d & -> & Hin & E). exists (n, d). split; auto.
    cbn [fst snd]. rewrite E. now left.
Qed.

Lemma findings_for_companies (s : analyzer) (limit : Float64.float)
  (risk_level : option string) (degrees : list (node * nat)) (p : pattern) :
  empresa_degrees s = Ok degrees ->
  In p (over_threshold limit risk_level degrees) <->
  company_over s limit risk_level p.
Proof.
  intros H. rewrite over_threshold_in. unfold company_over.
  split; intros (n & d & -> & H1 & H2); exists n, d.
  - apply (empresa_degrees_in s degrees H) in H1 as [H1 H3]. auto.
  - destruct H2 as [H2 H3]. split; auto. split; auto.
    apply (empresa_degrees_in s degrees H). auto.
Qed.

(** The detector of app.py looks up the record of every node. *)
Lemma detector_needs_records
  (np_mean np_std : list nat -> Float64.float) (s : analyzer) (n : node) :
  In n (Dict.keys (Nx._adj (graph s))) ->
  Dict.get n (entities s) = None ->
  exists exn, App.detect_suspicious_patterns np_mean np_std s = Raise exn.
Proof.
  intros Hin Hnone. unfold App.detect_suspicious_patterns.
  destruct (Nx.cycle_basis (graph s)) as [cycles|]; cbn [bind]; [|eauto].
  destruct (check_cycles s 3 None [] cycles) as [found|]; cbn [bind]; [|eauto].
  apply in_map_iff in Hin as ([k nb] & Hk & Hin). cbn [fst] in Hk. subst k.
  destruct (filterM_raises
              (fun nd => t <- entity_type_of s (fst nd) ;;
                         Ok (String.eqb t "empresa"))
              (Nx.degree (graph s)) (n, Nx.degree_of n nb))
    as [exn E].
  - unfold Nx.degree. apply in_map_iff. exists (n, nb). auto.
  - cbn [fst]. unfold entity_type_of, subscript. rewrite Hnone.
    cbn [bind]. eauto.
  - unfold empresa_degrees. rewrite E. cbn [bind]. eauto.
Qed.


End FindingFacts.

(** X13. [detect_suspicious_patterns] of app.py raises as soon as some
    node of the graph has no entity record: the degrees of the companies
    are collected by looking up the record of every node. *)
Theorem app_detector_needs_known_nodes
  (np_mean np_std : list nat -> Float64.float) (s : analyzer) (n : node) :
  In n (Dict.keys (Nx._adj (graph s))) ->
  Dict.get n (entities s) = None ->
  exists exn, App.detect_suspicious_patterns np_mean np_std s = Raise exn.
Proof. apply FindingFacts.detector_needs_records. Qed.

(** X14. The findings of app.py are findings for cycles, which have three
    nodes at least, an official and a contractor among them, followed by
    findings for companies; a finding for a company is emitted exactly for
    the nodes whose record has the type [empresa] and whose degree is above
    [np.mean + 2 * np.std] of the degrees of all such nodes, and it carries
    that degree. *)
Theorem app_findings_are_justified
  (np_mean np_std : list nat -> Float64.float) (s : analyzer)
  (found : list pattern) :
  App.detect_suspicious_patterns np_mean np_std s = Ok found ->
  exists cyc more degrees,
    found = cyc ++ more /\
    Forall (reported s 3 None) cyc /\
    empresa_degrees s = Ok degrees /\
    forall p,
      In p more <->
      company_over s
        (Float64.add (np_mean (map snd degrees))
           (Float64.mul (Float64.of_Z 2) (np_std (map snd degrees))))
        None p.
Proof.
  unfold App.detect_suspicious_patterns.
  destruct (Nx.cycle_basis (graph s)) as [cycles|]; cbn [bind];
    [|discriminate].
  destruct (check_cycles s 3 None [] cycles) as [cyc|] eqn:Hc; cbn [bind];
    [|discriminate].
  destruct (empresa_degrees s) as [degrees|] eqn:Hd; cbn [bind];
    [|discriminate].
  intros [= <-].
  apply DetectFacts.check_cycles_add in Hc as (added & -> & Hall).
  exists added, (App.concentration np_mean np_std degrees), degrees.
  repeat split; auto.
  - unfold App.concentration. destruct degrees as [|nd l]; [intros []|].
    apply (FindingFacts.findings_for_companies s _ None (nd :: l) p Hd).
  - unfold App.concentration. destruct degrees as [|nd l].
    + intros (n & d & _ & Hin & Ht & _).
      apply (FindingFacts.empresa_degrees_in s [] Hd n d). auto.
    + apply (FindingFacts.findings_for_companies s _ None (nd :: l) p Hd).
Qed.

Lemma app_findings_are_justified_witness :
  App.detect_suspicious_patterns Deterministic.np_const
    Deterministic.np_const Triangle.mixed
  = Ok [ciclo_sospechoso ["B"; "A"; "C"] None description_ciclo;
        concentracion_contratos "B" 2 None description_concentracion] /\
  exists cyc more degrees,
    [ciclo_sospechoso ["B"; "A"; "C"] None description_ciclo;
     concentracion_contratos "B" 2 None description_concentracion]
    = cyc ++ more /\
    Forall (reported Triangle.mixed 3 None) cyc /\
    empresa_degrees Triangle.mixed = Ok degrees /\
    forall p,
      In p more <->
      company_over Triangle.mixed
        (Float64.add (Deterministic.np_const (map snd degrees))
           (Float64.mul (Float64.of_Z 2)
              (Deterministic.np_const (map snd degrees))))
        None p.
Proof.
  assert (H : App.detect_suspicious_patterns Deterministic.np_const
                Deterministic.np_const Triangle.mixed
              = Ok [ciclo_sospechoso ["B"; "A"; "C"] None description_ciclo;
                    concentracion_contratos "B" 2 None
                      description_concentracion])
    by (vm_compute; reflexivity).
  split; [exact H|].
  exact (app_findings_are_justified Deterministic.np_const
           Deterministic.np_const Triangle.mixed _ H).
Defined.

Lemma app_detector_needs_known_nodes_witness :
  In "x" (Dict.keys (Nx._adj (graph Dangling.accepted))) /\
  Dict.get "x" (entities Dangling.accepted) = None /\
  exists exn,
    App.detect_suspicious_patterns Deterministic.np_const
      Deterministic.np_const Dangling.accepted = Raise exn.
Proof.
  assert (H1 : In "x" (Dict.keys (Nx._adj (graph Dangling.accepted))))
    by (simpl; auto).
  assert (H2 : Dict.get "x" (entities Dangling.accepted) = None)
    by reflexivity.
  split; [exact H1|]. split; [exact H2|].
  exact (app_detector_needs_known_nodes Deterministic.np_const
           Deterministic.np_const Dangling.accepted "x" H1 H2).
Defined.

(** X15. Every finding for a company that main.py returns names a node
    whose record has the type [empresa], carries the degree of that node,
    and that degree is above the threshold of lines 147-155, the mean of
    the degrees of all such nodes plus [max_degree_std] times their
    standard deviation. *)
Theorem main_company_findings_are_justified (s : analyzer)
  (found : list pattern) (p : pattern) :
  Main.detect_suspicious_patterns s = Ok found ->
  In p found -> is_concentracion p = true ->
  exists degrees limit,
    empresa_degrees s = Ok degrees /\
    Main.threshold (map snd degrees) = Ok limit /\
    company_over s limit (Some "high") p.
Proof.
  intros Hd Hin Hkind.
  apply DetectFacts.main_findings in Hd
    as [->|(cyc & degrees & more & -> & Hcyc & Hdeg & Hm)]; [destruct Hin|].
  apply in_app_or in Hin as [Hin|Hin].
  - rewrite Forall_forall in Hcyc.
    apply Hcyc, DetectFacts.reported_kind in Hin. congruence.
  - unfold Main.concentration in Hm. destruct degrees as [|nd l].
    + injection Hm as <-. destruct Hin.
    + destruct (Main.threshold (map snd (nd :: l))) as [limit|] eqn:Ht;
        cbn [bind] in Hm; [|discriminate].
      assert (Hmore : over_threshold limit (Some "high") (nd :: l) = more)
        by congruence.
      rewrite <- Hmore in Hin.
      exists (nd :: l), limit. repeat split; auto.
      now apply (FindingFacts.findings_for_companies s limit (Some "high")
                   (nd :: l) p Hdeg).
Qed.

Lemma main_company_findings_are_justified_witness :
  Main.detect_suspicious_patterns Outlier.state
  = Ok [concentracion_contratos "BIG" 10 (Some "high")
          description_concentracion] /\
  exists degrees limit,
    empresa_degrees Outlier.state = Ok degrees /\
    Main.threshold (map snd degrees) = Ok limit /\
    company_over Outlier.state limit (Some "high")
      (concentracion_contratos "BIG" 10 (Some "high")
         description_concentracion).
Proof.
  assert (H : Main.detect_suspicious_patterns Outlier.state
              = Ok [concentracion_contratos "BIG" 10 (Some "high")
                      description_concentracion])
    by (vm_compute; reflexivity).
  split; [exact H|].
  exact (main_company_findings_are_justified Outlier.state _
           (concentracion_contratos "BIG" 10 (Some "high")
              description_concentracion)
           H (or_introl eq_refl) eq_refl).
Defined.

(** ** [cycle_basis] on an undirected graph *)

Module WalkFacts.
Import Nx.

Lemma in_mem_string (x : string) (l : list string) :
  In x l -> mem_string x l = true.
Proof.
  intros H. unfold mem_string. apply existsb_exists. exists x. split; auto.
  apply String.eqb_refl.
Qed.

Lemma length_set_new {V} (k : string) (v : V) (d : Dict.t V) :
  Dict.mem k d = false -> length (Dict.set k v d) = S (length d).
Proof.
  intros H. apply (DictFacts.keys_set_new k v) in H.
  apply (f_equal (@length _)) in H. unfold Dict.keys in H.
  rewrite length_app, !length_map in H. simpl in H. lia.
Qed.

Lemma get_mem {V} (k : string) (v : V) (d : Dict.t V) :
  Dict.get k d = Some v -> Dict.mem k d = true.
Proof. unfold Dict.mem. now intros ->. Qed.

Lemma get_fresh {V} (k n : string) (v w : V) (d : Dict.t V) :
  Dict.mem n d = false -> Dict.get k d = Some v ->
  Dict.get k (Dict.set n w d) = Some v.
Proof.
  intros Hn Hk. rewrite DictFacts.get_set_other; auto.
  intros ->. apply get_mem in Hk. congruence.
Qed.

Lemma climbs_extend (pred : Dict.t node) (n v m a : node) (k : nat) :
  Dict.mem n pred = false -> climbs pred m a k ->
  climbs (Dict.set n v pred) m a k.
Proof.
  intros Hn H. induction H as [m|m p a k Hget Hne _ IH].
  - constructor.
  - apply climbs_step with (p := p); auto. now apply get_fresh.
Qed.

Lemma climbs_trans (pred : Dict.t node) (a b c : node) (k1 k2 : nat) :
  climbs pred a b k1 -> climbs pred b c k2 -> climbs pred a c (k1 + k2).
Proof.
  intros H1 H2. induction H1 as [m|m p a' k Hget Hne _ IH]; simpl; auto.
  apply climbs_step with (p := p); auto.
Qed.

Lemma climbs_le_depth (pred : Dict.t node) (root m a : node) (k d : nat) :
  Dict.get root pred = Some root ->
  climbs pred m a k -> climbs pred m root d -> k <= d.
Proof.
  intros Hroot H. revert d. induction H as [m|m p a k Hget Hne _ IH];
    intros d Hd; [lia|].
  inversion Hd as [m'|m' p' a' d' Hget' Hne' Hd']; subst.
  - congruence.
  - assert (p' = p) by congruence. subst p'. apply IH in Hd'. lia.
Qed.

Lemma chain_extend (pred : Dict.t node) (n v : node) (l : list node) :
  Dict.mem n pred = false ->
  forall q, chain pred q l -> chain (Dict.set n v pred) q l.
Proof.
  intros Hn. induction l as [|m l IH]; intros q H; simpl in *; auto.
  destruct H as (p & k & Hget & Hc & Hl). exists p, k. repeat split.
  - now apply get_fresh.
  - now apply climbs_extend.
  - now apply IH.
Qed.

Lemma chain_in (pred : Dict.t node) (l : list node) :
  forall q m, chain pred q l -> In m l ->
  exists p k, Dict.get m pred = Some p /\ climbs pred q p k.
Proof.
  induction l as [|x l IH]; intros q m H Hin; [destruct Hin|].
  simpl in H. destruct H as (p & k & Hget & Hc & Hl).
  destruct Hin as [->|Hin]; [eauto|].
  destruct (IH p m Hl Hin) as (p' & k' & Hget' & Hc').
  exists p', (k + k'). split; auto. eapply climbs_trans; eauto.
Qed.

Lemma chain_weaken (pred : Dict.t node) (z pz : node) (l : list node) :
  Dict.get z pred = Some pz -> pz <> z ->
  chain pred pz l -> chain pred z l.
Proof.
  intros Hget Hne H. destruct l as [|m l]; simpl in *; auto.
  destruct H as (p & k & Hm & Hc & Hl). exists p, (S k). repeat split; auto.
  now apply climbs_step with (p := pz).
Qed.

(** The way up from [p] meets [pn] before the fuel is gone. *)
Lemma climb_ok (pred : Dict.t node) (pn : list node) (a : node) :
  (forall m q, Dict.get m pred = Some q -> Dict.mem q pred = true) ->
  In a pn ->
  forall k fuel p cycle,
    climbs pred p a k -> k <= fuel -> Dict.mem p pred = true ->
    exists c, climb fuel pred pn p cycle = Ok c /\
              forall n, In n c -> In n cycle \/ Dict.mem n pred = true.
Proof.
  intros Hpar Ha. induction k as [|k IH]; intros fuel p cycle Hc Hk Hp.
  - inversion Hc; subst. destruct fuel; simpl;
      rewrite (in_mem_string a pn Ha); eexists; split; try reflexivity;
      intros n Hn; apply in_app_or in Hn as [Hn|[<-|[]]]; auto.
  - destruct fuel as [|fuel]; [lia|]. simpl.
    destruct (mem_string p pn) eqn:E.
    + eexists. split; [reflexivity|].
      intros n Hn. apply in_app_or in Hn as [Hn|[<-|[]]]; auto.
    + inversion Hc as [|m p' a' k' Hget Hne Hc']; subst.
      unfold subscript. rewrite Hget. cbn [bind].
      destruct (IH fuel p' (cycle ++ [p]) Hc') as (c & -> & Hnodes);
        [lia | eauto |].
      exists c. split; auto. intros n Hn.
      destruct (Hnodes n Hn) as [Hn'|Hn']; auto.
      apply in_app_or in Hn' as [Hn'|[<-|[]]]; auto.
Qed.


(** From a node that is its own parent and not in [pn] the way up never
    ends. *)
Lemma climb_self (pred : Dict.t node) (pn : list node) (p : node) :
  mem_string p pn = false -> Dict.get p pred = Some p ->
  forall fuel cycle, exists e, climb fuel pred pn p cycle = Raise e.
Proof.
  intros Hp Hget. induction fuel as [|fuel IH]; intros cycle; simpl;
    rewrite Hp; [eauto|].
  unfold subscript. rewrite Hget. cbn [bind]. apply IH.
Qed.

Lemma last_cons (x d d' : node) (l : list node) :
  last (x :: l) d = last (x :: l) d'.
Proof.
  revert x. induction l as [|y l IH]; intros x; [reflexivity|].
  change (last (y :: l) d = last (y :: l) d'). apply IH.
Qed.

(** What [climb] appends goes up the parents, by steps to another node,
    and ends in [pn]. *)
Lemma climb_path (pred : Dict.t node) (pn : list node) :
  forall fuel p cycle c,
    climb fuel pred pn p cycle = Ok c ->
    exists rest, c = cycle ++ p :: rest /\ rises pred p rest /\
                 In (last rest p) pn.
Proof.
  induction fuel as [|fuel IH]; intros p cycle c; simpl;
    destruct (mem_string p pn) eqn:E; try discriminate.
  - intros [= <-]. exists []. simpl.
    split; [reflexivity|]. split; [exact I|].
    now apply DetectFacts.mem_string_in.
  - intros [= <-]. exists []. simpl.
    split; [reflexivity|]. split; [exact I|].
    now apply DetectFacts.mem_string_in.
  - unfold subscript. destruct (Dict.get p pred) as [p'|] eqn:Hget;
      cbn [bind]; [|discriminate].
    intros H. destruct (String.eqb_spec p' p) as [Heq|Hne].
    + subst p'. destruct (climb_self pred pn p E Hget fuel (cycle ++ [p]))
        as [e He]. congruence.
    + apply IH in H as (rest & -> & Hr & Hl). exists (p' :: rest).
      rewrite <- app_assoc. simpl. split; [reflexivity|].
      split; [auto|]. destruct rest as [|n rest]; [exact Hl|].
      change (In (last (n :: rest) p) pn).
      now rewrite (last_cons n p p' rest).
Qed.

Lemma linked_rises (g : Graph) (pred : Dict.t node) :
  (forall m p, Dict.get m pred = Some p -> p <> m -> joined g p m) ->
  forall rest p, rises pred p rest -> linked (joined g) (p :: rest).
Proof.
  intros Hpred. induction rest as [|y rest IH]; intros p H; simpl in *.
  - auto.
  - destruct H as (Hget & Hne & Hr). split.
    + destruct (Hpred p y Hget Hne) as [H|H]; [right | left]; exact H.
    + now apply IH.
Qed.

Lemma reached_fresh (used : Dict.t (list node)) (n : node) (v : list node)
  (a b : node) :
  Dict.mem n used = false -> reached_from used a b ->
  reached_from (Dict.set n v used) a b.
Proof.
  intros Hn (l & Hl & Hin). exists l. split; auto.
  now apply get_fresh.
Qed.

Lemma reached_grow (used : Dict.t (list node)) (n : node) (pn pn' : list node)
  (a b : node) :
  Dict.get n used = Some pn -> incl pn pn' -> reached_from used a b ->
  reached_from (Dict.set n pn' used) a b.
Proof.
  intros Hn Hincl (l & Hl & Hin). destruct (String.eqb_spec a n) as [->|Hne].
  - exists pn'. split; [apply DictFacts.get_set_same|].
    apply Hincl. congruence.
  - exists l. split; auto. now rewrite DictFacts.get_set_other.
Qed.

Lemma joined_sym (g : Graph) (a b : node) : joined g a b -> joined g b a.
Proof. unfold joined. tauto. Qed.

Lemma has_edge_in (g : Graph) (z nbr : node) (nbrs : Dict.t attr_dict) :
  Dict.get z (_adj g) = Some nbrs -> In nbr (Dict.keys nbrs) ->
  has_edge g z nbr = true.
Proof.
  intros Hz Hin. rewrite GraphFacts.has_edge_nbrs.
  rewrite (GraphFacts.nbrs_of_get _ _ _ Hz). now apply GraphFacts.mem_in.
Qed.

Lemma last_tail (x d : node) (l : list node) : last (x :: l) d = last l x.
Proof.
  revert x. induction l as [|y l IH]; intros x; [reflexivity|].
  change (last (y :: l) d = last (y :: l) x). apply last_cons.
Qed.

Lemma tracing_push (g : Graph) (z nbr : node) (st : walk_state) :
  tracing g st -> has_edge g z nbr = true ->
  tracing g {| stack := nbr :: stack st; pred := Dict.set nbr z (pred st);
               used := Dict.set nbr [z] (used st); cycles := cycles st |}.
Proof.
  intros [Hp Hu Hc] He. constructor; cbn [pred used cycles]; auto.
  - intros m p Hm Hne. destruct (String.eqb_spec m nbr) as [E|Hmn];
      [subst m|].
    + rewrite DictFacts.get_set_same in Hm. injection Hm as <-. now left.
    + rewrite DictFacts.get_set_other in Hm by assumption. auto.
  - intros w y (l & Hl & Hy). destruct (String.eqb_spec w nbr) as [E|Hwn];
      [subst w|].
    + rewrite DictFacts.get_set_same in Hl. injection Hl as <-.
      destruct Hy as [<-|[]]. now left.
    + rewrite DictFacts.get_set_other in Hl by assumption.
      apply Hu. exists l. auto.
Qed.

Lemma tracing_next (g : Graph) (st : walk_state) (found : list (list node)) :
  tracing g st -> (forall c, In c found -> ring (joined g) c) ->
  tracing g {| stack := stack st; pred := pred st; used := used st;
               cycles := cycles st ++ found |}.
Proof.
  intros [Hp Hu Hc] Hf. constructor; cbn [pred used cycles]; auto.
  intros c H. apply in_app_or in H as [H|H]; auto.
Qed.

Lemma tracing_close (g : Graph) (z nbr : node) (st : walk_state)
  (pn pn' cycle : list node) :
  tracing g st -> has_edge g z nbr = true ->
  Dict.get nbr (used st) = Some pn ->
  (forall x, In x pn' -> In x pn \/ x = z) ->
  ring (joined g) cycle ->
  tracing g {| stack := stack st; pred := pred st;
               used := Dict.set nbr pn' (used st);
               cycles := cycles st ++ [cycle] |}.
Proof.
  intros [Hp Hu Hc] He Hpn Hpn' Hring.
  constructor; cbn [pred used cycles]; auto.
  - intros w y (l & Hl & Hy). destruct (String.eqb_spec w nbr) as [E|Hwn];
      [subst w|].
    + rewrite DictFacts.get_set_same in Hl. injection Hl as <-.
      destruct (Hpn' y Hy) as [Hold| ->].
      * apply Hu. exists pn. auto.
      * now left.
    + rewrite DictFacts.get_set_other in Hl by assumption.
      apply Hu. exists l. auto.
  - intros c H. apply in_app_or in H as [H|[<-|[]]]; auto.
Qed.

(** The cycle that a neighbour closes goes round in the graph. *)
Lemma ring_climbed (g : Graph) (z nbr pz : node) (st : walk_state)
  (pn c : list node) (fuel : nat) :
  tracing g st -> has_edge g z nbr = true ->
  Dict.get z (pred st) = Some pz -> pz <> z ->
  Dict.get nbr (used st) = Some pn ->
  climb fuel (pred st) pn pz [nbr; z] = Ok c ->
  ring (joined g) c.
Proof.
  intros [Hp Hu Hc] He Hz Hne Hpn Hclimb.
  apply climb_path in Hclimb as (rest & -> & Hr & Hl).
  cbn [app]. unfold ring. split.
  - cbn [linked]. split; [now right|]. split.
    + apply joined_sym. auto.
    + now apply linked_rises with (pred := pred st).
  - rewrite !last_tail. apply Hu. exists pn. auto.
Qed.

Section Walk.

Variable g : Graph.
Variable root : node.
Hypothesis Hg : undirected g.

(** A neighbour that has not been reached is pushed. *)
Lemma walking_push (z nbr : node) (visited : list node) (st : walk_state)
  (nbrs : Dict.t attr_dict) :
  walking g root (Some z) visited st ->
  Dict.get z (_adj g) = Some nbrs -> In nbr (Dict.keys nbrs) ->
  Dict.get nbr (used st) = None ->
  walking g root (Some z) (visited ++ [nbr])
    {| stack := nbr :: stack st; pred := Dict.set nbr z (pred st);
       used := Dict.set nbr [z] (used st); cycles := cycles st |}.
Proof.
  intros [Hkeys Hadj Hroot Hproper Hpar Hdepth Hstack Hreach Hcur Halone
            Hchain Hpu Hdone Hdoing Hused Hpred Hcyc] Hnbrs Hin Hnew.
  assert (Hfu : Dict.mem nbr (used st) = false)
    by (unfold Dict.mem; now rewrite Hnew).
  assert (Hfp : Dict.mem nbr (pred st) = false) by (now rewrite <- Hkeys).
  destruct (Hcur z eq_refl) as [Hz1 Hz2].
  assert (Hzn : z <> nbr) by (intros ->; congruence).
  assert (Hproc : forall y, processed st (Some z) y ->
            processed {| stack := nbr :: stack st;
                         pred := Dict.set nbr z (pred st);
                         used := Dict.set nbr [z] (used st);
                         cycles := cycles st |} (Some z) y).
  { intros y (H1 & H2 & H3). repeat split; cbn [stack pred]; auto.
    - rewrite DictFacts.mem_set, H1. apply orb_true_r.
    - intros [->|H]; [congruence | auto]. }
  assert (Hproc' : forall y,
            processed {| stack := nbr :: stack st;
                         pred := Dict.set nbr z (pred st);
                         used := Dict.set nbr [z] (used st);
                         cycles := cycles st |} (Some z) y ->
            processed st (Some z) y).
  { intros y (H1 & H2 & H3). cbn [stack pred] in *.
    rewrite DictFacts.mem_set in H1.
    destruct (String.eqb_spec y nbr) as [E|Hne];
      [elim H2; left; now rewrite E|].
    repeat split; auto. intros H. apply H2. now right. }
  constructor; cbn [stack pred used cycles].
  - intros m. now rewrite !DictFacts.mem_set, Hkeys.
  - intros m. rewrite DictFacts.mem_set.
    destruct (String.eqb_spec m nbr) as [E|Hne]; [subst m|]; simpl; auto.
    intros _. exact (und_closed Hg z nbr Hnbrs Hin).
  - now apply get_fresh.
  - intros m Hm. destruct (String.eqb_spec m nbr) as [E|Hne]; [subst m|].
    + rewrite DictFacts.get_set_same in Hm. congruence.
    + rewrite DictFacts.get_set_other in Hm by assumption. auto.
  - intros m p Hm. rewrite DictFacts.mem_set.
    destruct (String.eqb_spec m nbr) as [E|Hne]; [subst m|].
    + rewrite DictFacts.get_set_same in Hm. injection Hm as <-.
      rewrite Hz1. apply orb_true_r.
    + rewrite DictFacts.get_set_other in Hm by assumption.
      rewrite (Hpar m p Hm). apply orb_true_r.
  - intros m Hm. rewrite DictFacts.mem_set in Hm.
    rewrite (length_set_new nbr z (pred st) Hfp).
    destruct (String.eqb_spec m nbr) as [E|Hne]; [subst m|].
    + destruct (Hdepth z Hz1) as (d & Hc & Hd). exists (S d). split; [|lia].
      apply climbs_step with (p := z); auto.
      * apply DictFacts.get_set_same.
      * now apply climbs_extend.
    + simpl in Hm. destruct (Hdepth m Hm) as (d & Hc & Hd). exists d.
      split; [now apply climbs_extend | lia].
  - constructor; auto. intros H. apply Hreach in H. congruence.
  - intros m [<-|H]; rewrite DictFacts.mem_set.
    + now rewrite String.eqb_refl.
    + rewrite (Hreach m H). apply orb_true_r.
  - intros z' [= <-]. split.
    + rewrite DictFacts.mem_set, Hz1. apply orb_true_r.
    + intros [H|H]; [congruence | auto].
  - intros [H|H].
    + apply get_mem in Hroot. congruence.
    + destruct (Halone H) as [_ H']. discriminate H'.
  - destruct Hchain as (q & Hq & Hc). rewrite (Hq z eq_refl) in Hc.
    exists z. split; [now intros z' [= <-]|]. simpl.
    exists z, 0. split; [apply DictFacts.get_set_same|].
    split; [constructor | now apply chain_extend].
  - intros m [<-|H] Hne.
    + exists z. split; [apply DictFacts.get_set_same|].
      exists [z]. split; [apply DictFacts.get_set_same | now left].
    + destruct (Hpu m H Hne) as (p & Hp & Hr). exists p.
      split; [now apply get_fresh | now apply reached_fresh].
  - intros y ny w Hy Hny Hw Hwy. apply Hproc' in Hy.
    destruct (Hdone y ny w Hy Hny Hw Hwy) as [H|H];
      [left | right]; now apply reached_fresh.
  - intros z' w [= <-] Hw Hwz. apply in_app_or in Hw as [Hw|[<-|[]]].
    + destruct (Hdoing z w eq_refl Hw Hwz) as [H|H];
        [left | right]; now apply reached_fresh.
    + left. exists [z]. split; [apply DictFacts.get_set_same | now left].
  - intros m w (l & Hl & Hw). destruct (String.eqb_spec m nbr) as [E|Hne]; [subst m|].
    + rewrite DictFacts.get_set_same in Hl. injection Hl as <-.
      destruct Hw as [<-|[]]. right. split; auto.
      apply in_or_app. right. now left.
    + rewrite DictFacts.get_set_other in Hl by assumption.
      destruct (Hused m w (ex_intro _ l (conj Hl Hw))) as [H|[H1 H2]].
      * left. now apply Hproc.
      * right. split; auto. apply in_or_app. auto.
  - intros m p Hm. destruct (String.eqb_spec m nbr) as [E|Hne]; [subst m|].
    + rewrite DictFacts.get_set_same in Hm. injection Hm as <-.
      right. right. split; auto. apply in_or_app. right. now left.
    + rewrite DictFacts.get_set_other in Hm by assumption.
      destruct (Hpred m p Hm) as [H|[H|[H1 H2]]]; auto.
      right. right. split; auto. apply in_or_app. auto.
  - exact Hcyc.
Qed.


(** A neighbour that needs nothing: itself, or one that reached this
    node.  Cycles may have been found. *)
Lemma walking_next (z nbr : node) (visited : list node) (st : walk_state)
  (found : list (list node)) :
  walking g root (Some z) visited st ->
  (nbr <> z -> reached_from (used st) nbr z \/ reached_from (used st) z nbr) ->
  (forall c n, In c found -> In n c -> Dict.mem n (_adj g) = true) ->
  walking g root (Some z) (visited ++ [nbr])
    {| stack := stack st; pred := pred st; used := used st;
       cycles := cycles st ++ found |}.
Proof.
  intros [Hkeys Hadj Hroot Hproper Hpar Hdepth Hstack Hreach Hcur Halone
            Hchain Hpu Hdone Hdoing Hused Hpred Hcyc] Hnbr Hfound.
  constructor; cbn [stack pred used cycles]; auto.
  - intros z' w [= <-] Hw Hwz. apply in_app_or in Hw as [Hw|[<-|[]]]; auto.
  - intros m w H. destruct (Hused m w H) as [H'|[H1 H2]]; auto.
    right. split; auto. apply in_or_app. auto.
  - intros m p Hm. destruct (Hpred m p Hm) as [H|[H|[H1 H2]]]; auto.
    right. right. split; auto. apply in_or_app. auto.
  - intros c n Hc. apply in_app_or in Hc as [Hc|Hc]; eauto.
Qed.

(** A neighbour that closes a cycle: this node joins its [used]. *)
Lemma walking_close (z nbr : node) (visited : list node) (st : walk_state)
  (pn pn' cycle : list node) :
  walking g root (Some z) visited st ->
  Dict.get nbr (used st) = Some pn -> nbr <> z ->
  incl pn pn' -> In z pn' -> (forall x, In x pn' -> In x pn \/ x = z) ->
  (forall n, In n cycle -> Dict.mem n (_adj g) = true) ->
  walking g root (Some z) (visited ++ [nbr])
    {| stack := stack st; pred := pred st;
       used := Dict.set nbr pn' (used st);
       cycles := cycles st ++ [cycle] |}.
Proof.
  intros [Hkeys Hadj Hroot Hproper Hpar Hdepth Hstack Hreach Hcur Halone
            Hchain Hpu Hdone Hdoing Hused Hpred Hcyc]
         Hpn Hne Hincl Hz Hpn' Hcycle.
  assert (Hgrow : forall a b, reached_from (used st) a b ->
                              reached_from (Dict.set nbr pn' (used st)) a b)
    by (intros a b; now apply reached_grow with (pn := pn)).
  constructor; cbn [stack pred used cycles]; auto.
  - intros m. rewrite DictFacts.mem_set, <- Hkeys.
    destruct (String.eqb_spec m nbr) as [E|Hm]; [subst m|]; auto.
    simpl. symmetry. now apply get_mem with (v := pn).
  - intros m Hm Hmr. destruct (Hpu m Hm Hmr) as (p & Hp & Hr). eauto.
  - intros y ny w Hy Hny Hw Hwy.
    destruct (Hdone y ny w Hy Hny Hw Hwy); auto.
  - intros z' w [= <-] Hw Hwz. apply in_app_or in Hw as [Hw|[<-|[]]].
    + destruct (Hdoing z w eq_refl Hw Hwz); auto.
    + left. exists pn'. split; [apply DictFacts.get_set_same | auto].
  - intros m w (l & Hl & Hw). destruct (String.eqb_spec m nbr) as [E|Hm];
      [subst m|].
    + rewrite DictFacts.get_set_same in Hl. injection Hl as <-.
      destruct (Hpn' w Hw) as [Hold| ->].
      * destruct (Hused nbr w (ex_intro _ pn (conj Hpn Hold)))
          as [H|[H1 H2]]; auto.
        right. split; auto. apply in_or_app. auto.
      * right. split; auto. apply in_or_app. right. now left.
    + rewrite DictFacts.get_set_other in Hl by assumption.
      destruct (Hused m w (ex_intro _ l (conj Hl Hw))) as [H|[H1 H2]]; auto.
      right. split; auto. apply in_or_app. auto.
  - intros m p Hm. destruct (Hpred m p Hm) as [H|[H|[H1 H2]]]; auto.
    right. right. split; auto. apply in_or_app. auto.
  - intros c n Hc. apply in_app_or in Hc as [Hc|[<-|[]]]; eauto.
Qed.

(** The next node is popped. *)
Lemma walking_pop (z : node) (rest : list node) (st : walk_state) :
  walking g root None [] st -> stack st = z :: rest ->
  walking g root (Some z) []
    {| stack := rest; pred := pred st; used := used st;
       cycles := cycles st |}.
Proof.
  intros [Hkeys Hadj Hroot Hproper Hpar Hdepth Hstack Hreach Hcur Halone
            Hchain Hpu Hdone Hdoing Hused Hpred Hcyc] Hst.
  rewrite Hst in *. inversion Hstack as [|? ? Hz Hrest]; subst.
  assert (Hnoroot : ~ In root rest).
  { intros H. destruct (Halone (or_intror H)) as [E _].
    injection E as _ ->. destruct H. }
  assert (Hproc : forall y,
            processed {| stack := rest; pred := pred st; used := used st;
                         cycles := cycles st |} (Some z) y ->
            processed st None y).
  { intros y (H1 & H2 & H3). cbn [stack pred] in *. repeat split; auto.
    - rewrite Hst. intros [E|H]; [congruence | auto].
    - discriminate. }
  assert (Hproc' : forall y, processed st None y ->
            processed {| stack := rest; pred := pred st; used := used st;
                         cycles := cycles st |} (Some z) y).
  { intros y (H1 & H2 & H3). rewrite Hst in H2.
    repeat split; cbn [stack pred]; auto.
    - intros H. apply H2. now right.
    - intros [= ->]. apply H2. now left. }
  constructor; cbn [stack pred used cycles]; auto.
  - intros m H. apply Hreach. now right.
  - intros z' [= <-]. split; auto. apply Hreach. now left.
  - intros H. now elim Hnoroot.
  - destruct Hchain as (q & _ & Hc). simpl in Hc.
    destruct Hc as (p & k & Hp & Hk & Hl).
    exists z. split; [now intros z' [= <-]|].
    destruct rest as [|m rest']; [exact I|].
    apply chain_weaken with (pz := p); auto.
    intros ->. apply Hproper in Hp. subst z.
    destruct (Halone (or_introl eq_refl)) as [E _]. discriminate E.
  - intros m H Hm. apply Hpu; auto. now right.
  - intros y ny w Hy. apply Hproc in Hy. now apply Hdone.
  - intros z' w _ [].
  - intros m w H. destruct (Hused m w H) as [H'|[H1 _]];
      [left; now apply Hproc' | discriminate H1].
  - intros m p Hm. destruct (Hpred m p Hm) as [H|[H|[H1 _]]];
      [now left | right; left; now apply Hproc' | discriminate H1].
Qed.

(** All neighbours of the node have been visited. *)
Lemma walking_finish (z : node) (st : walk_state) (nbrs : Dict.t attr_dict) :
  walking g root (Some z) (Dict.keys nbrs) st ->
  Dict.get z (_adj g) = Some nbrs ->
  walking g root None [] st.
Proof.
  intros [Hkeys Hadj Hroot Hproper Hpar Hdepth Hstack Hreach Hcur Halone
            Hchain Hpu Hdone Hdoing Hused Hpred Hcyc] Hnbrs.
  destruct (Hcur z eq_refl) as [Hz1 Hz2].
  assert (Hproc : forall y, processed st None y ->
                            y = z \/ processed st (Some z) y).
  { intros y (H1 & H2 & _). destruct (String.eqb_spec y z) as [E|Hne];
      [now left|]. right. repeat split; auto. congruence. }
  assert (Hproc' : forall y, processed st (Some z) y -> processed st None y).
  { intros y (H1 & H2 & _). repeat split; auto. discriminate. }
  constructor; auto.
  - intros z' H. discriminate H.
  - intros H. destruct (Halone H) as [_ E]. discriminate E.
  - destruct Hchain as (q & _ & Hc). exists q. split; auto.
    intros z' H. discriminate H.
  - intros y ny w Hy Hny Hw Hwy. destruct (Hproc y Hy) as [->|Hy'].
    + assert (ny = nbrs) by congruence. subst ny.
      destruct (Hdoing z w eq_refl Hw Hwy); auto.
    + eauto.
  - intros z' w H. discriminate H.
  - intros m w H. left. destruct (Hused m w H) as [H'|[H1 _]]; auto.
    injection H1 as <-. repeat split; auto. discriminate.
  - intros m p Hm. destruct (Hpred m p Hm) as [H|[H|[H1 _]]]; auto.
    injection H1 as <-. right. left. repeat split; auto. discriminate.
Qed.


(** No visit of a neighbour raises. *)
Lemma visit_ok (z nbr : node) (zused visited : list node) (st : walk_state)
  (nbrs : Dict.t attr_dict) :
  walking g root (Some z) visited st -> tracing g st ->
  Dict.get z (_adj g) = Some nbrs -> In nbr (Dict.keys nbrs) ->
  ~ In nbr visited ->
  Dict.get z (used st) = Some zused ->
  exists st', visit z zused st nbr = Ok st' /\
              walking g root (Some z) (visited ++ [nbr]) st' /\
              tracing g st' /\
              Dict.get z (used st') = Some zused.
Proof.
  intros Hw Ht Hnbrs Hin Hfresh Hzused. unfold visit.
  pose proof (has_edge_in g z nbr nbrs Hnbrs Hin) as Hedge.
  pose proof Hw as Hw0.
  destruct Hw0 as [Hkeys Hadj Hroot Hproper Hpar Hdepth Hstack Hreach Hcur Halone
            Hchain Hpu Hdone Hdoing Hused Hpred Hcyc].
  destruct Hg as [_ _ Hsym _].
  destruct (Hcur z eq_refl) as [Hz1 Hz2].
  destruct (Dict.get nbr (used st)) as [pn|] eqn:Hpn.
  - destruct (String.eqb_spec nbr z) as [E|Hne]; [subst nbr|].
    { eexists. split; [reflexivity|]. split; [|split; [|exact Hzused]].
      - apply walking_next; [exact Hw | intros H; now elim H |].
        intros c n [<-|[]] [<-|[]]. now apply Hadj.
      - apply tracing_next; auto. intros c [<-|[]]. simpl.
        split; [auto | now left]. }
    destruct (mem_string nbr zused) eqn:Ez; cbn [negb].
    { exists st. split; [reflexivity|]. split; [|split; [exact Ht | exact Hzused]].
      assert (H : walking g root (Some z) (visited ++ [nbr])
                    {| stack := stack st; pred := pred st; used := used st;
                       cycles := cycles st ++ [] |}).
      { apply walking_next; [exact Hw | | intros c n []].
        intros _. right. exists zused. split; auto.
        now apply DetectFacts.mem_string_in. }
      rewrite app_nil_r in H. now destruct st. }
    assert (Hreached : Dict.mem nbr (pred st) = true).
    { rewrite <- Hkeys. now apply get_mem with (v := pn). }
    destruct (in_dec string_dec nbr (stack st)) as [Hs|Hs].
    + assert (Hnr : nbr <> root).
      { intros ->. destruct (Halone Hs) as [_ E]. discriminate E. }
      destruct Hchain as (q & Hq & Hc). rewrite (Hq z eq_refl) in Hc.
      destruct (chain_in (pred st) (stack st) z nbr Hc Hs)
        as (p & k & Hp & Hk).
      assert (Hpz : p <> z).
      { intros ->. destruct (Hpred nbr z Hp) as [H|[H|[_ H]]]; auto.
        destruct H as (_ & _ & H). now apply H. }
      inversion Hk as [|m pz a k' Hzp Hpzz Hk']; subst; [congruence|].
      unfold subscript. rewrite Hzp. cbn [bind].
      assert (Hppn : In p pn).
      { destruct (Hpu nbr Hs Hnr) as (p' & Hp' & l & Hl & Hpl).
        congruence. }
      destruct (Hdepth pz (Hpar z pz Hzp)) as (d & Hd & Hdl).
      pose proof (climbs_le_depth (pred st) root pz p k' d Hroot
                    Hk' Hd) as Hle.
      destruct (climb_ok (pred st) pn p Hpar Hppn k'
                  (length (pred st)) pz [nbr; z] Hk')
        as (c & Hclimb & Hc'); [lia | exact (Hpar z pz Hzp) |].
      rewrite Hclimb. cbn [bind]. eexists. split; [reflexivity|].
      assert (Hpn' : forall x,
                In x (if mem_string z pn then pn else pn ++ [z]) ->
                In x pn \/ x = z).
      { intros x Hx. destruct (mem_string z pn); auto.
        apply in_app_or in Hx as [Hx|[<-|[]]]; auto. }
      split; [|split].
      * apply walking_close with (pn := pn); auto.
        -- destruct (mem_string z pn); [apply incl_refl|].
           now apply incl_appl, incl_refl.
        -- destruct (mem_string z pn) eqn:Ezp.
           ++ now apply DetectFacts.mem_string_in.
           ++ apply in_or_app. right. now left.
        -- intros n Hn. destruct (Hc' n Hn) as [[<-|[<-|[]]]|H].
           ++ now apply Hadj.
           ++ now apply Hadj.
           ++ now apply Hadj.
      * apply tracing_close with (z := z) (pn := pn); auto.
        now apply ring_climbed
          with (z := z) (nbr := nbr) (pz := pz) (st := st) (pn := pn)
               (fuel := length (pred st)).
      * cbn [used]. rewrite DictFacts.get_set_other; auto.
    + exfalso.
      destruct (Hsym z nbr nbrs Hnbrs Hin) as (nv & Hnv & Hzin).
      assert (Hproc : processed st (Some z) nbr).
      { repeat split; auto. congruence. }
      assert (Hzn : z <> nbr) by congruence.
      destruct (Hdone nbr nv z Hproc Hnv Hzin Hzn) as [H|H].
      * destruct H as (l & Hl & Hnl). assert (l = zused) by congruence.
        subst l. apply in_mem_string in Hnl. congruence.
      * destruct (Hused nbr z H) as [(_ & _ & H')|[_ H']]; auto.
  - eexists. split; [reflexivity|]. split; [|split].
    + now apply walking_push with (nbrs := nbrs).
    + now apply tracing_push.
    + cbn [used]. apply get_fresh; auto. unfold Dict.mem. now rewrite Hpn.
Qed.

Lemma visit_all_ok (z : node) (zused : list node) (nbrs : Dict.t attr_dict) :
  Dict.get z (_adj g) = Some nbrs ->
  forall todo visited st,
    walking g root (Some z) visited st -> tracing g st ->
    (forall x, In x todo -> In x (Dict.keys nbrs)) ->
    NoDup (visited ++ todo) ->
    Dict.get z (used st) = Some zused ->
    exists st', visit_all z zused st todo = Ok st' /\
                walking g root (Some z) (visited ++ todo) st' /\
                tracing g st'.
Proof.
  intros Hnbrs. induction todo as [|nbr todo IH];
    intros visited st Hw Ht Hsub Hnd Hzused; simpl.
  - exists st. rewrite app_nil_r. auto.
  - assert (Hfresh : ~ In nbr visited).
    { intros H. apply NoDup_remove_2 in Hnd. apply Hnd.
      apply in_or_app. auto. }
    destruct (visit_ok z nbr zused visited st nbrs Hw Ht Hnbrs
                (Hsub nbr (or_introl eq_refl)) Hfresh Hzused)
      as (st1 & -> & Hw1 & Ht1 & Hz1).
    cbn [bind].
    destruct (IH (visited ++ [nbr]) st1 Hw1 Ht1) as (st' & Hv & Hw' & Ht');
      auto.
    + intros x Hx. apply Hsub. now right.
    + now rewrite <- app_assoc.
    + exists st'. split; auto. now rewrite <- app_assoc in Hw'.
Qed.

(** The walk from [root] raises nothing; the cycles it finds are made of
    nodes and go round in the graph. *)
Lemma walk_ok : forall fuel st,
  walking g root None [] st -> tracing g st ->
  forall r, walk fuel g st = Some r ->
  exists st', r = Ok st' /\
              (forall c n, In c (cycles st') -> In n c ->
                           Dict.mem n (_adj g) = true) /\
              (forall c, In c (cycles st') -> ring (joined g) c).
Proof.
  induction fuel as [|fuel IH]; intros st Hw Ht r; simpl.
  - destruct (stack st); [|discriminate].
    intros [= <-]. exists st. split; auto.
    destruct Hw as [_ _ _ _ _ _ _ _ _ _ _ _ _ _ _ _ Hcyc].
    destruct Ht as [_ _ Hring]. auto.
  - destruct (stack st) as [|z rest] eqn:Hst.
    + intros [= <-]. exists st. split; auto.
      destruct Hw as [_ _ _ _ _ _ _ _ _ _ _ _ _ _ _ _ Hcyc].
      destruct Ht as [_ _ Hring]. auto.
    + pose proof (walking_pop z rest st Hw Hst) as Hp.
      pose proof Hw as Hw0.
      destruct Hw0 as [Hkeys Hadj _ _ _ _ _ Hreach _ _ _ _ _ _ _ _ _].
      destruct Hg as [_ _ _ Hsimple].
      assert (Hz : Dict.mem z (pred st) = true).
      { apply Hreach. rewrite Hst. now left. }
      assert (Hzu : Dict.mem z (used st) = true)
        by (now rewrite Hkeys).
      apply DictFacts.mem_get in Hzu as [zused Hzu].
      destruct (DictFacts.mem_get _ _ (Hadj z Hz)) as [nbrs Hnbrs].
      unfold subscript. rewrite Hzu, Hnbrs.
      assert (Ht0 : tracing g {| stack := rest; pred := pred st;
                                 used := used st; cycles := cycles st |}).
      { destruct Ht as [H1 H2 H3]. constructor; auto. }
      destruct (visit_all_ok z zused nbrs Hnbrs (Dict.keys nbrs) [] _ Hp Ht0)
        as (st' & -> & Hw' & Ht'); auto.
      * exact (Hsimple z nbrs Hnbrs).
      * apply IH; auto.
        now apply walking_finish with (z := z) (nbrs := nbrs).
Qed.

End Walk.

Lemma walking_start (g : Graph) (root : node) (found : list (list node)) :
  Dict.mem root (_adj g) = true ->
  (forall c n, In c found -> In n c -> Dict.mem n (_adj g) = true) ->
  walking g root None []
    {| stack := [root]; pred := [(root, root)]; used := [(root, [])];
       cycles := found |}.
Proof.
  intros Hroot Hfound.
  assert (Hone : forall m : node, Dict.mem m [(root, root)] = true -> m = root).
  { intros m. unfold Dict.mem. simpl.
    destruct (String.eqb_spec m root); [auto | discriminate]. }
  constructor; cbn [stack pred used cycles].
  - intros m. unfold Dict.mem. simpl. now destruct (String.eqb m root).
  - intros m Hm. apply Hone in Hm. now subst.
  - simpl. now rewrite String.eqb_refl.
  - intros m Hm. apply Hone. now apply get_mem with (v := m).
  - intros m p Hm. simpl in Hm.
    destruct (String.eqb_spec m root); [|discriminate].
    injection Hm as <-. unfold Dict.mem. simpl. now rewrite String.eqb_refl.
  - intros m Hm. apply Hone in Hm. subst m. exists 0. split; [constructor|].
    simpl. lia.
  - constructor; [intros [] | constructor].
  - intros m [<-|[]]. unfold Dict.mem. simpl. now rewrite String.eqb_refl.
  - intros z H. discriminate H.
  - intros _. auto.
  - exists root. split; [intros z H; discriminate H|]. simpl.
    exists root, 0. split; [now rewrite String.eqb_refl|].
    split; [constructor | exact I].
  - intros m [<-|[]] H. now elim H.
  - intros y ny w (H1 & H2 & _). cbn [stack pred] in *. elim H2.
    left. symmetry. now apply Hone.
  - intros z w H. discriminate H.
  - intros m w (l & Hl & Hin). simpl in Hl.
    destruct (String.eqb m root); [|discriminate].
    injection Hl as <-. destruct Hin.
  - intros m p Hm. simpl in Hm.
    destruct (String.eqb_spec m root); [|discriminate].
    injection Hm as <-. now left.
  - exact Hfound.
Qed.

Lemma popitem_in (gnodes rest : list node) (root : node) :
  popitem gnodes = Some (root, rest) ->
  In root gnodes /\ incl rest gnodes.
Proof.
  revert root rest. induction gnodes as [|n l IH]; intros root rest;
    simpl; [discriminate|].
  destruct l as [|m l'].
  - intros [= <- <-]. split; [now left | intros x []].
  - destruct (popitem (m :: l')) as [[r rest']|] eqn:Hp; [|discriminate].
    intros [= <- <-]. destruct (IH r rest' eq_refl) as [H1 H2]. split.
    + now right.
    + intros x [<-|Hx]; [now left | right; auto].
Qed.

Lemma tracing_start (g : Graph) (root : node) (found : list (list node)) :
  (forall c, In c found -> ring (joined g) c) ->
  tracing g {| stack := [root]; pred := [(root, root)];
               used := [(root, [])]; cycles := found |}.
Proof.
  intros Hf. constructor; cbn [pred used cycles]; auto.
  - intros m p Hm Hne. simpl in Hm.
    destruct (String.eqb_spec m root); [|discriminate]. congruence.
  - intros w y (l & Hl & Hy). simpl in Hl.
    destruct (String.eqb w root); [|discriminate].
    injection Hl as <-. destruct Hy.
Qed.

Lemma components_ok (g : Graph) :
  undirected g ->
  forall fuel gnodes found,
    (forall n, In n gnodes -> Dict.mem n (_adj g) = true) ->
    (forall c n, In c found -> In n c -> Dict.mem n (_adj g) = true) ->
    (forall c, In c found -> ring (joined g) c) ->
    forall r, components fuel g gnodes found = Some r ->
    exists cycles, r = Ok cycles /\
                   (forall c n, In c cycles -> In n c ->
                                Dict.mem n (_adj g) = true) /\
                   (forall c, In c cycles -> ring (joined g) c).
Proof.
  intros Hg. induction fuel as [|fuel IH]; intros gnodes found Hn Hf Hr r;
    cbn [components].
  - destruct (popitem gnodes) as [[root rest]|]; [discriminate|].
    intros [= <-]. eauto.
  - destruct (popitem gnodes) as [[root rest]|] eqn:Hp;
      [|intros [= <-]; eauto].
    apply popitem_in in Hp as [Hroot Hrest].
    pose proof (walk_ok g root Hg (walk_fuel g) _
                  (walking_start g root found (Hn root Hroot) Hf)
                  (tracing_start g root found Hr)) as Hw.
    destruct (walk (walk_fuel g) g _) as [[st|e]|]; [| |discriminate].
    + destruct (Hw (Ok st) eq_refl) as (st' & [= <-] & Hc & Hring).
      apply IH; auto.
      intros n Hin. apply filter_In in Hin as [Hin _]. auto.
    + destruct (Hw (Raise e) eq_refl) as (st' & H & _). discriminate H.
Qed.

End WalkFacts.

(** [nx.cycle_basis] raises nothing on a graph as the class keeps it (the
    neighbours of a node are nodes, once each, and [v] is a neighbour of [u]
    whenever [u] is one of [v]): its walks find the parent they climb to,
    and the cycles it returns are made of nodes of the graph and go round
    along its edges. *)
Lemma cycle_basis_returns (g : Nx.Graph) :
  undirected g ->
  exists cycles,
    Nx.cycle_basis g = Ok cycles /\
    (forall c n, In c cycles -> In n c -> Dict.mem n (Nx._adj g) = true) /\
    (forall c, In c cycles -> ring (joined g) c).
Proof.
  intros Hg. unfold Nx.cycle_basis.
  destruct (NxTermination.cycle_basis_steps_total g) as [r Hr]. rewrite Hr.
  unfold Nx.cycle_basis_steps in Hr.
  assert (Hn : forall n, In n (Dict.keys (Nx._node g)) ->
                         Dict.mem n (Nx._adj g) = true).
  { intros n Hn. destruct Hg as [Hnodes _ _ _]. apply Hnodes.
    now apply GraphFacts.mem_in. }
  assert (Hf : forall (c : list node) (n : node),
             In c [] -> In n c -> Dict.mem n (Nx._adj g) = true)
    by (intros c n []).
  assert (Hring : forall c : list node, In c [] -> ring (joined g) c)
    by (intros c []).
  destruct (WalkFacts.components_ok g Hg _ _ _ Hn Hf Hring r Hr)
    as (cycles & -> & Hc & Hrings).
  exists cycles. auto.
Qed.

(** ** The detectors on analyzers without unknown nodes *)

Module DetectorFacts.

Lemma consistent_undirected (s : analyzer) :
  consistent s -> undirected (graph s).
Proof.
  intros [Hk Hn He Hnb Hnodes Hedges Hents].
  assert (Hadj : forall n, Dict.mem n (Nx._adj (graph s)) =
                           Dict.mem n (Nx._node (graph s)))
    by (intros n; now apply GraphFacts.mem_same_keys).
  assert (Hedge : forall u v nu,
            Dict.get u (Nx._adj (graph s)) = Some nu ->
            In v (Dict.keys nu) -> Nx.has_edge (graph s) u v = true).
  { intros u v nu Hu Hv.
    rewrite GraphFacts.has_edge_nbrs, (GraphFacts.nbrs_of_get _ _ _ Hu).
    now apply GraphFacts.mem_in. }
  constructor.
  - intros n. now rewrite Hadj.
  - intros z nbrs v Hz Hv. rewrite Hadj. apply Hnodes. right.
    apply (Hedge z v nbrs Hz), Hedges in Hv as (rel & Hrel & Hj).
    exists rel. split; auto. unfold mentions.
    destruct Hj as [[_ <-]|[<- _]]; auto.
  - intros u v nu Hu Hv.
    apply (Hedge u v nu Hu), Hedges in Hv as (rel & Hrel & Hj).
    assert (Hvu : Nx.has_edge (graph s) v u = true).
    { apply Hedges. exists rel. split; auto. unfold joins in *. tauto. }
    rewrite GraphFacts.has_edge_nbrs in Hvu. unfold nbrs_of in Hvu.
    unfold Dict.get_default in Hvu.
    destruct (Dict.get v (Nx._adj (graph s))) as [nv|]; [|discriminate].
    exists nv. split; auto. now apply GraphFacts.mem_in.
  - exact Hnb.
Qed.

(** In a consistent analyzer without dangling endpoints every node has its
    record. *)
Lemma nodes_have_records (s : analyzer) (n : node) :
  consistent s -> no_dangling s ->
  Dict.mem n (Nx._adj (graph s)) = true ->
  exists e, Dict.get n (entities s) = Some e.
Proof.
  intros Hc Hd Hn. apply DictFacts.mem_get.
  rewrite (GraphFacts.mem_same_keys n _ _ (same_keys Hc)) in Hn.
  apply (nodes_of_facts Hc) in Hn as [Hn|(rel & Hrel & Hm)]; eauto.
Qed.

Lemma mapM_runs {A B} (f : A -> result B) (l : list A) :
  (forall x, In x l -> exists y, f x = Ok y) ->
  exists out, mapM f l = Ok out.
Proof.
  induction l as [|x l IH]; intros H; simpl; [eauto|].
  destruct (H x (or_introl eq_refl)) as [y ->]. cbn [bind].
  destruct IH as [out ->]; [intros z Hz; apply H; now right|].
  cbn [bind]. eauto.
Qed.

Lemma check_cycles_runs (s : analyzer) (min_length : nat)
  (risk_level : option string) (cycles : list (list node)) :
  (forall c n, In c cycles -> In n c ->
               exists e, Dict.get n (entities s) = Some e) ->
  forall found, exists out,
    check_cycles s min_length risk_level found cycles = Ok out.
Proof.
  induction cycles as [|c cycles IH]; intros H found; simpl; [eauto|].
  assert (Hc : exists found',
             check_cycle s min_length risk_level found c = Ok found').
  { unfold check_cycle. destruct (Nat.leb min_length (length c)); [|eauto].
    destruct (mapM_runs (entity_type_of s) c) as [types ->].
    - intros n Hn. destruct (H c n (or_introl eq_refl) Hn) as [e He].
      exists (e_type e). unfold entity_type_of, subscript. now rewrite He.
    - cbn [bind]. destruct (_ && _); eauto. }
  destruct Hc as [found' ->]. cbn [bind].
  apply IH. intros c' n Hc' Hn. apply (H c' n); auto. now right.
Qed.

Lemma empresa_degrees_runs (s : analyzer) :
  (forall n, Dict.mem n (Nx._adj (graph s)) = true ->
             exists e, Dict.get n (entities s) = Some e) ->
  exists degrees, empresa_degrees s = Ok degrees.
Proof.
  intros H. unfold empresa_degrees. apply FindingFacts.filterM_runs.
  intros [n d] Hin. cbn [fst].
  unfold Nx.degree in Hin. apply in_map_iff in Hin as ([k nb] & [= <- _] & Hin).
  destruct (H k) as [e He].
  - apply GraphFacts.mem_in. unfold Dict.keys.
    change k with (fst (k, nb)). now apply in_map.
  - unfold entity_type_of, subscript. rewrite He. cbn [bind]. eauto.
Qed.

Lemma int_truediv_runs (a b : nat) :
  b <> 0 -> exists f, Float64.int_truediv a b = Ok f.
Proof.
  intros Hb. unfold Float64.int_truediv.
  destruct b as [|b]; [congruence|].
  cbn [Z.of_nat]. destruct (Z.of_nat a); eauto;
    destruct (SFdiv_core_binary _ _ _ _ _ _) as [[q e] l]; eauto.
Qed.

(** What both detectors do first, on a consistent analyzer without
    dangling endpoints *)
Lemma detector_steps_run (s : analyzer) (min_length : nat)
  (risk_level : option string) :
  consistent s -> no_dangling s ->
  exists cycles found degrees,
    Nx.cycle_basis (graph s) = Ok cycles /\
    check_cycles s min_length risk_level [] cycles = Ok found /\
    empresa_degrees s = Ok degrees.
Proof.
  intros Hc Hd.
  destruct (cycle_basis_returns (graph s) (consistent_undirected s Hc))
    as (cycles & Hcb & Hnodes & _).
  destruct (check_cycles_runs s min_length risk_level cycles) with (found := @nil pattern)
    as [found Hfound].
  { intros c n Hcn Hn. apply nodes_have_records; eauto. }
  destruct (empresa_degrees_runs s) as [degrees Hdeg].
  { intros n Hn. now apply nodes_have_records. }
  exists cycles, found, degrees. auto.
Qed.

(** The detector of app.py returns exactly when no endpoint dangles. *)
Lemma app_detector_iff (np_mean np_std : list nat -> Float64.float)
  (s : analyzer) :
  consistent s ->
  (exists found, App.detect_suspicious_patterns np_mean np_std s = Ok found)
  <-> no_dangling s.
Proof.
  intros Hc. split.
  - intros [found Hfound] rel n Hrel Hm.
    destruct (Dict.mem n (entities s)) eqn:E; auto.
    destruct (FindingFacts.detector_needs_records np_mean np_std s n)
      as [exn Hexn]; [| |congruence].
    + rewrite (same_keys Hc). apply GraphFacts.mem_in.
      apply (nodes_of_facts Hc). right. eauto.
    + unfold Dict.mem in E. destruct (Dict.get n (entities s)); congruence.
  - intros Hd.
    destruct (detector_steps_run s 3 None Hc Hd)
      as (cycles & found & degrees & H1 & H2 & H3).
    unfold App.detect_suspicious_patterns.
    rewrite H1. cbn [bind]. rewrite H2. cbn [bind]. rewrite H3. cbn [bind].
    eauto.
Qed.

(** The [try] block of main.py raises nothing. *)
Lemma main_body_runs (s : analyzer) :
  consistent s -> no_dangling s ->
  exists cyc degrees more,
    Main.detect_body s = Ok (cyc ++ more) /\
    empresa_degrees s = Ok degrees /\
    Main.concentration degrees = Ok more.
Proof.
  intros Hc Hd.
  destruct (detector_steps_run s (Config.min_cycle_length Config.RISK_THRESHOLDS)
              (Some "high") Hc Hd)
    as (cycles & found & degrees & H1 & H2 & H3).
  assert (Hm : exists more, Main.concentration degrees = Ok more).
  { unfold Main.concentration. destruct degrees as [|nd l]; [eauto|].
    unfold Main.threshold.
    destruct (int_truediv_runs (list_sum (map snd (nd :: l)))
                (length (map snd (nd :: l)))) as [f ->];
      [discriminate|]. cbn [bind]. eauto. }
  destruct Hm as [more Hm]. exists found, degrees, more.
  unfold Main.detect_body.
  rewrite H1. cbn [bind]. rewrite H2. cbn [bind]. rewrite H3. cbn [bind].
  rewrite Hm. cbn [bind]. auto.
Qed.

End DetectorFacts.

(** X16. On an analyzer that app.py has built through calls of
    [process_document], [detect_suspicious_patterns] of app.py returns its
    findings exactly when every endpoint of a recorded relationship is the
    id of an entity; with one endpoint that is not, it raises. *)
Theorem session_detector_returns_iff_resolved
  (np_mean np_std : list nat -> Float64.float)
  (answers : list (option analysis_result)) :
  let s := Page.session answers in
  (exists found, App.detect_suspicious_patterns np_mean np_std s = Ok found)
  <-> no_dangling s.
Proof.
  exact (DetectorFacts.app_detector_iff np_mean np_std (Page.session answers)
           (ConsistentFacts.session_consistent answers)).
Qed.

(** X17. On an analyzer that app.py has built through calls of
    [process_document], when every endpoint of a recorded relationship is
    the id of an entity, the [try] block of [detect_suspicious_patterns] of
    main.py raises nothing: the answer is what the block computes, not the
    [[]] of the [except] branch, and every node with a record of type
    [empresa] whose degree is above the threshold has its finding. *)
Theorem main_detector_completes
  (answers : list (option analysis_result)) :
  let s := Page.session answers in
  no_dangling s ->
  exists found,
    Main.detect_body s = Ok found /\
    Main.detect_suspicious_patterns s = Ok found /\
    forall degrees limit p,
      empresa_degrees s = Ok degrees ->
      Main.threshold (map snd degrees) = Ok limit ->
      company_over s limit (Some "high") p ->
      In p found.
Proof.
  intros s Hd.
  destruct (DetectorFacts.main_body_runs s
              (ConsistentFacts.session_consistent answers) Hd)
    as (cyc & degrees & more & Hbody & Hdeg & Hm).
  exists (cyc ++ more). split; [exact Hbody|]. split.
  - unfold Main.detect_suspicious_patterns. now rewrite Hbody.
  - intros degrees' limit p Hdeg' Hlimit Hp.
    assert (degrees' = degrees) by congruence. subst degrees'.
    apply in_or_app. right.
    unfold Main.concentration in Hm. destruct degrees as [|nd l].
    + destruct Hp as (n & d & _ & Hin & Ht & _). exfalso.
      apply (proj2 (FindingFacts.empresa_degrees_in s [] Hdeg n d)). auto.
    + rewrite Hlimit in Hm. cbn [bind] in Hm. injection Hm as <-.
      now apply (FindingFacts.findings_for_companies s limit (Some "high")
                   (nd :: l) p Hdeg).
Qed.

Lemma main_detector_completes_witness :
  no_dangling (Page.session [Some Outlier.batch]) /\
  exists found,
    Main.detect_body (Page.session [Some Outlier.batch]) = Ok found /\
    Main.detect_suspicious_patterns (Page.session [Some Outlier.batch])
    = Ok found /\
    forall degrees limit p,
      empresa_degrees (Page.session [Some Outlier.batch]) = Ok degrees ->
      Main.threshold (map snd degrees) = Ok limit ->
      company_over (Page.session [Some Outlier.batch]) limit (Some "high") p ->
      In p found.
Proof.
  assert (H : no_dangling (Page.session [Some Outlier.batch])).
  { intros rel n Hrel Hm. vm_compute in Hrel.
    repeat (destruct Hrel as [<-|Hrel];
            [destruct Hm as [<-|<-]; vm_compute; reflexivity|]).
    destruct Hrel. }
  split; [exact H|].
  exact (main_detector_completes [Some Outlier.batch] H).
Defined.

(** X18. For an analyzer built through calls of [process_document], with
    a layout that places every node, [main()] of app.py gets through the
    detection and the figure (lines 250-262) exactly when every endpoint of
    a recorded relationship is the id of an entity and every entity has one
    of the four types of [color_map]; in every other case an exception of
    the detector or of the figure leaves [main()]. *)
Theorem page_shows_analysis_iff_all_known
  (np_mean np_std : list nat -> Float64.float)
  (answers : list (option analysis_result)) (pos : Dict.t Page.position) :
  let s := Page.session answers in
  (forall n, Dict.mem n (Nx._node (graph s)) = true -> Dict.mem n pos = true) ->
  (exists shown, Page.analysis np_mean np_std pos s = Ok shown) <->
  no_dangling s /\ drawable s.
Proof.
  intros s Hpos.
  pose proof (ConsistentFacts.session_consistent answers) as Hc. fold s in Hc.
  pose proof (DetectorFacts.app_detector_iff np_mean np_std s Hc) as Hdet.
  pose proof (FigureFacts.figure_iff_known s pos Hc Hpos) as Hfig.
  unfold Page.analysis. split.
  - intros [out Hout].
    destruct (App.detect_suspicious_patterns np_mean np_std s) as [found|];
      cbn [bind] in Hout; [|discriminate].
    destruct (Page.generate_network_visualization pos s) as [fig|];
      cbn [bind] in Hout; [|discriminate].
    apply Hfig. eauto.
  - intros [Hd Hdraw].
    destruct (proj2 Hdet Hd) as [found ->].
    destruct (proj2 Hfig (conj Hd Hdraw)) as [fig ->].
    cbn [bind]. eauto.
Qed.

Lemma page_shows_analysis_iff_all_known_witness :
  (forall n,
      Dict.mem n (Nx._node (graph (Page.session [Some Repeated.batch]))) = true ->
      Dict.mem n Drawn.pos = true) /\
  ((exists shown,
       Page.analysis Deterministic.np_const Deterministic.np_const Drawn.pos
         (Page.session [Some Repeated.batch]) = Ok shown) <->
   no_dangling (Page.session [Some Repeated.batch]) /\
   drawable (Page.session [Some Repeated.batch])).
Proof.
  assert (H : forall n,
             Dict.mem n (Nx._node (graph (Page.session [Some Repeated.batch])))
             = true ->
             Dict.mem n Drawn.pos = true).
  { intros n. unfold Dict.mem. simpl.
    destruct (String.eqb n "a"); [reflexivity|].
    destruct (String.eqb n "b"); [reflexivity | discriminate]. }
  split; [exact H|].
  exact (page_shows_analysis_iff_all_known Deterministic.np_const
           Deterministic.np_const [Some Repeated.batch] Drawn.pos H).
Defined.

(** ** Degrees and counts *)

Module CountFacts.

Lemma keys_length {V} (d : Dict.t V) : length (Dict.keys d) = length d.
Proof. unfold Dict.keys. apply length_map. Qed.

Lemma set_length {V} (k : string) (v : V) (d : Dict.t V) :
  length d <= length (Dict.set k v d) <= S (length d).
Proof.
  rewrite <- !keys_length, GraphFacts.keys_set.
  destruct (Dict.mem k d); [lia|]. rewrite length_app. simpl. lia.
Qed.

(** Each entity of a loop that ran to its end adds one id at most. *)
Lemma entities_count (l : list entity) : forall s,
  snd (for_each App.add_entity s l) = None ->
  length (entities s)
  <= length (entities (fst (for_each App.add_entity s l)))
  <= length (entities s) + length l.
Proof.
  induction l as [|e l IH]; intros s Hok; simpl in *; [lia|].
  rewrite CallFacts.add_entity_spec in *.
  destruct (clashing _ _ _); [discriminate|].
  specialize (IH _ Hok). cbn [entities] in IH.
  pose proof (set_length (e_id e) e (entities s)). lia.
Qed.

End CountFacts.

(** X19. In an analyzer that app.py has built through calls of
    [process_document], the degree that [graph.degree()] gives for a node
    is the number of distinct nodes with which it has a recorded
    relationship, a relationship of the node with itself counted twice:
    several relationships between the same two nodes count once. *)
Theorem session_degree_counts_partners
  (answers : list (option analysis_result)) (n : node) (d : nat) :
  let s := Page.session answers in
  In (n, d) (Nx.degree (graph s)) ->
  exists partners,
    NoDup partners /\
    (forall v, In v partners <->
               exists rel, In rel (relationships s) /\ joins rel n v) /\
    d = length partners + (if Nx.has_edge (graph s) n n then 1 else 0).
Proof.
  intros s Hin.
  pose proof (ConsistentFacts.session_consistent answers) as Hc. fold s in Hc.
  unfold Nx.degree in Hin.
  apply in_map_iff in Hin as ([k nb] & [= -> <-] & Hin). cbn [fst snd].
  assert (Hget : Dict.get n (Nx._adj (graph s)) = Some nb).
  { apply FigureFacts.in_get; auto.
    rewrite (same_keys Hc). apply (unique_nodes Hc). }
  exists (Dict.keys nb). split; [exact (unique_neighbours Hc n Hget)|].
  split.
  - intros v. rewrite <- (edges_of_facts Hc n v).
    rewrite GraphFacts.has_edge_nbrs, (GraphFacts.nbrs_of_get _ _ _ Hget).
    symmetry. apply GraphFacts.mem_in.
  - unfold Nx.degree_of.
    rewrite GraphFacts.has_edge_nbrs, (GraphFacts.nbrs_of_get _ _ _ Hget).
    now rewrite CountFacts.keys_length.
Qed.

Lemma session_degree_counts_partners_witness :
  In ("a", 1) (Nx.degree (graph (Page.session [Some Repeated.batch]))) /\
  exists partners,
    NoDup partners /\
    (forall v, In v partners <->
               exists rel,
                 In rel (relationships (Page.session [Some Repeated.batch])) /\
                 joins rel "a" v) /\
    1 = length partners
        + (if Nx.has_edge (graph (Page.session [Some Repeated.batch])) "a" "a"
           then 1 else 0).
Proof.
  assert (H : In ("a", 1)
                (Nx.degree (graph (Page.session [Some Repeated.batch]))))
    by (left; reflexivity).
  split; [exact H|].
  exact (session_degree_counts_partners [Some Repeated.batch] "a" 1 H).
Defined.

(** X20. A document that app.py accepted raises [Total de Relaciones] by
    the number of relationships of the answer, whether or not they join
    new pairs of nodes, and [Total de Entidades] by the number of entities
    of the answer at most: an entity whose id is recorded already is not
    counted again. *)
Theorem statistics_after_document (s s' : analyzer) (r : analysis_result) :
  Page.process_document s (Some r) = (s', Some r) ->
  shown s' "Total de Relaciones"
  = shown s "Total de Relaciones" + length (res_relationships r) /\
  shown s "Total de Entidades" <= shown s' "Total de Entidades"
  <= shown s "Total de Entidades" + length (res_entities r).
Proof.
  unfold Page.process_document, App._update_graph.
  pose proof (CountFacts.entities_count (res_entities r) s) as He.
  pose proof (DocumentFacts.entities_keep_relationships (res_entities r) s)
    as Hr.
  destruct (for_each App.add_entity s (res_entities r)) as [s1 [e|]];
    [discriminate|].
  pose proof (DocumentFacts.relationships_keep_entities
                (res_relationships r) s1) as He'.
  pose proof (DocumentFacts.relationships_after (res_relationships r) s1)
    as Hr'.
  destruct (for_each App.add_relationship s1 (res_relationships r))
    as [s2 [e|]]; [discriminate|].
  intros [= <-]. cbn [fst snd] in *.
  unfold shown, Page.stats.
  cbn [Dict.get_default Dict.get String.eqb Ascii.eqb Bool.eqb].
  rewrite Hr', He', length_app, Hr by reflexivity.
  split; [reflexivity | now apply He].
Qed.

Lemma statistics_after_document_witness :
  Page.process_document init (Some Repeated.batch)
  = (Repeated.twice, Some Repeated.batch) /\
  shown Repeated.twice "Total de Relaciones"
  = shown init "Total de Relaciones" + length (res_relationships Repeated.batch) /\
  shown init "Total de Entidades" <= shown Repeated.twice "Total de Entidades"
  <= shown init "Total de Entidades" + length (res_entities Repeated.batch).
Proof.
  assert (H : Page.process_document init (Some Repeated.batch)
              = (Repeated.twice, Some Repeated.batch)) by reflexivity.
  split; [exact H|].
  exact (statistics_after_document init Repeated.twice Repeated.batch H).
Defined.

(** X21. When [generate_network_visualization] of app.py returns a figure
    for an analyzer built through calls of [process_document], the figure
    has as many markers as [Total de Entidades] counts: every node is an
    entity. *)
Theorem session_figure_has_a_marker_per_entity
  (answers : list (option analysis_result)) (pos : Dict.t Page.position)
  (fig : Page.Figure) :
  let s := Page.session answers in
  Page.generate_network_visualization pos s = Ok fig ->
  length (Page.nt_x (Page.fig_node_trace fig)) = shown s "Total de Entidades".
Proof.
  intros s Hfig.
  pose proof (ConsistentFacts.session_consistent answers) as Hc. fold s in Hc.
  unfold Page.generate_network_visualization in Hfig.
  destruct (for_fold (Page.plot_node pos s) _ _) as [nt|] eqn:En;
    cbn [bind] in Hfig; [|discriminate].
  destruct (for_fold (Page.plot_edge pos) _ _) as [et|];
    cbn [bind] in Hfig; [|discriminate].
  injection Hfig as <-. cbn [Page.fig_node_trace].
  assert (Hsub : incl (Dict.keys (Nx._node (graph s)))
                      (Dict.keys (entities s))).
  { intros n Hn.
    destruct (FigureFacts.for_fold_ran _ _ _ _ En n Hn) as (a0 & a1 & E).
    apply FigureFacts.plot_node_ok in E as (xy & e & c & _ & He & _).
    apply GraphFacts.mem_in. unfold Dict.mem. now rewrite He. }
  assert (Hsup : incl (Dict.keys (entities s))
                      (Dict.keys (Nx._node (graph s)))).
  { intros n Hn. apply GraphFacts.mem_in. apply (nodes_of_facts Hc). left.
    now apply GraphFacts.mem_in. }
  apply FigureFacts.node_loop in En
    as (xs & ys & ts & cs & -> & _ & _ & _ & L1 & _).
  cbn [Page.nt_x app]. rewrite L1.
  unfold shown, Page.stats.
  cbn [Dict.get_default Dict.get String.eqb Ascii.eqb Bool.eqb].
  rewrite <- CountFacts.keys_length.
  apply Nat.le_antisymm; apply NoDup_incl_length; auto.
  - apply (unique_nodes Hc).
  - apply (unique_entities Hc).
Qed.

Lemma session_figure_has_a_marker_per_entity_witness :
  Page.generate_network_visualization Drawn.pos
    (Page.session [Some Repeated.batch]) = Ok Drawn.fig /\
  length (Page.nt_x (Page.fig_node_trace Drawn.fig))
  = shown (Page.session [Some Repeated.batch]) "Total de Entidades".
Proof.
  assert (H : Page.generate_network_visualization Drawn.pos
                (Page.session [Some Repeated.batch]) = Ok Drawn.fig)
    by (vm_compute; reflexivity).
  split; [exact H|].
  exact (session_figure_has_a_marker_per_entity [Some Repeated.batch]
           Drawn.pos Drawn.fig H).
Defined.

(** ** The cycles that the detectors report *)

Module RingFacts.

Lemma linked_impl (R R' : node -> node -> Prop) (l : list node) :
  (forall a b, R a b -> R' a b) -> linked R l -> linked R' l.
Proof.
  intros HR. induction l as [|a l IH]; [auto|].
  cbn [linked]. intros [H1 H2]. split; [|auto].
  destruct l; auto.
Qed.

Lemma ring_impl (R R' : node -> node -> Prop) (l : list node) :
  (forall a b, R a b -> R' a b) -> ring R l -> ring R' l.
Proof.
  intros HR. destruct l as [|a l]; [auto|].
  unfold ring. intros [H1 H2]. split; [|auto].
  now apply linked_impl with (R := R).
Qed.

(** In a graph that mirrors the facts, an edge is a recorded
    relationship. *)
Lemma joined_related (s : analyzer) (a b : node) :
  consistent s -> joined (graph s) a b -> related s a b.
Proof.
  intros Hc [H|H]; apply (@edges_of_facts _ Hc) in H as (rel & Hin & Hj);
    exists rel; split; auto.
  unfold joins in *. tauto.
Qed.

Lemma check_cycle_from (s : analyzer) (min_length : nat)
  (risk_level : option string) (found out : list pattern)
  (cycle : list node) (p : pattern) :
  check_cycle s min_length risk_level found cycle = Ok out ->
  In p out ->
  In p found \/ p = ciclo_sospechoso cycle risk_level description_ciclo.
Proof.
  unfold check_cycle.
  destruct (Nat.leb min_length (length cycle)); [|intros [= <-]; auto].
  destruct (mapM (entity_type_of s) cycle) as [types|]; cbn [bind];
    [|discriminate].
  destruct (mem_string "funcionario" types && mem_string "empresa" types);
    intros [= <-]; auto.
  intros H. apply in_app_or in H as [H|[<-|[]]]; auto.
Qed.

(** The findings for cycles are findings for cycles of the basis. *)
Lemma check_cycles_from (s : analyzer) (min_length : nat)
  (risk_level : option string) (cycles : list (list node)) :
  forall found out p,
    check_cycles s min_length risk_level found cycles = Ok out ->
    In p out ->
    In p found \/
    exists cycle, In cycle cycles /\
                  p = ciclo_sospechoso cycle risk_level description_ciclo.
Proof.
  induction cycles as [|cycle cycles IH]; intros found out p;
    cbn [check_cycles].
  - intros [= <-]. auto.
  - destruct (check_cycle s min_length risk_level found cycle)
      as [found'|] eqn:Hc; cbn [bind]; [|discriminate].
    intros Hout Hin.
    destruct (IH found' out p Hout Hin) as [H|(c & Hc' & ->)].
    + destruct (check_cycle_from s _ _ _ _ _ p Hc H) as [H'| ->]; auto.
      right. exists cycle. split; [now left | reflexivity].
    + right. exists c. split; [now right | reflexivity].
Qed.

Lemma no_cycle_over_threshold (limit : Float64.float)
  (risk_level : option string) (degrees : list (node * nat))
  (nodes : list node) (r : option string) (d : string) :
  ~ In (ciclo_sospechoso nodes r d) (over_threshold limit risk_level degrees).
Proof.
  intros H. apply FindingFacts.over_threshold_in in H as (n & k & H & _).
  discriminate H.
Qed.

(** The cycles that are reported go round along recorded relationships. *)
Lemma reported_cycles_go_round (s : analyzer) (min_length : nat)
  (risk_level : option string) (cycles : list (list node))
  (found : list pattern) (nodes : list node) (r : option string)
  (d : string) :
  consistent s ->
  Nx.cycle_basis (graph s) = Ok cycles ->
  check_cycles s min_length risk_level [] cycles = Ok found ->
  In (ciclo_sospechoso nodes r d) found ->
  ring (related s) nodes.
Proof.
  intros Hc Hcb Hfound Hin.
  destruct (cycle_basis_returns (graph s)
              (DetectorFacts.consistent_undirected s Hc))
    as (cycles' & Hcb' & _ & Hrings).
  assert (cycles' = cycles) by congruence. subst cycles'.
  destruct (check_cycles_from s _ _ cycles [] found _ Hfound Hin)
    as [[]|(cycle & Hcycle & E)].
  injection E as -> _ _.
  apply ring_impl with (R := joined (graph s)); auto.
  intros a b. now apply joined_related.
Qed.

End RingFacts.

(** X22. On an analyzer that app.py has built through calls of
    [process_document], every [ciclo_sospechoso] that
    [detect_suspicious_patterns] of app.py returns goes round along
    recorded relationships: each of its nodes and the next one, and the
    last one and the first, are the two ends of a relationship of
    [self.relationships]. *)
Theorem session_cycle_findings_follow_relationships
  (np_mean np_std : list nat -> Float64.float)
  (answers : list (option analysis_result)) (found : list pattern)
  (nodes : list node) (risk_level : option string) (description : string) :
  let s := Page.session answers in
  App.detect_suspicious_patterns np_mean np_std s = Ok found ->
  In (ciclo_sospechoso nodes risk_level description) found ->
  ring (related s) nodes.
Proof.
  intros s. unfold App.detect_suspicious_patterns.
  destruct (Nx.cycle_basis (graph s)) as [cycles|] eqn:Hcb; cbn [bind];
    [|discriminate].
  destruct (check_cycles s 3 None [] cycles) as [cyc|] eqn:Hc; cbn [bind];
    [|discriminate].
  destruct (empresa_degrees s) as [degrees|]; cbn [bind]; [|discriminate].
  intros [= <-] Hin. apply in_app_or in Hin as [Hin|Hin].
  - apply (RingFacts.reported_cycles_go_round s 3 None cycles cyc nodes
             risk_level description
             (ConsistentFacts.session_consistent answers) Hcb Hc Hin).
  - exfalso. unfold App.concentration in Hin.
    destruct degrees; [destruct Hin|].
    exact (RingFacts.no_cycle_over_threshold _ _ _ _ _ _ Hin).
Qed.

Lemma session_cycle_findings_follow_relationships_witness :
  App.detect_suspicious_patterns Deterministic.np_const
    Deterministic.np_const (Page.session [Some Round.batch])
  = Ok [ciclo_sospechoso ["B"; "A"; "C"] None description_ciclo;
        concentracion_contratos "B" 2 None description_concentracion] /\
  ring (related (Page.session [Some Round.batch])) ["B"; "A"; "C"].
Proof.
  assert (H : App.detect_suspicious_patterns Deterministic.np_const
                Deterministic.np_const (Page.session [Some Round.batch])
              = Ok [ciclo_sospechoso ["B"; "A"; "C"] None description_ciclo;
                    concentracion_contratos "B" 2 None
                      description_concentracion])
    by (vm_compute; reflexivity).
  split; [exact H|].
  exact (session_cycle_findings_follow_relationships
           Deterministic.np_const Deterministic.np_const
           [Some Round.batch] _ ["B"; "A"; "C"] None description_ciclo
           H (or_introl eq_refl)).
Defined.

(** X23. The same holds for the detector of main.py on such an analyzer:
    the nodes of every [ciclo_sospechoso] that it returns go round along
    recorded relationships. *)
Theorem main_cycle_findings_follow_relationships
  (answers : list (option analysis_result)) (found : list pattern)
  (nodes : list node) (risk_level : option string) (description : string) :
  let s := Page.session answers in
  Main.detect_suspicious_patterns s = Ok found ->
  In (ciclo_sospechoso nodes risk_level description) found ->
  ring (related s) nodes.
Proof.
  intros s. unfold Main.detect_suspicious_patterns, Main.detect_body.
  destruct (Nx.cycle_basis (graph s)) as [cycles|] eqn:Hcb; cbn [bind];
    [|intros [= <-] []].
  destruct (check_cycles s _ _ [] cycles) as [cyc|] eqn:Hc; cbn [bind];
    [|intros [= <-] []].
  destruct (empresa_degrees s) as [degrees|]; cbn [bind];
    [|intros [= <-] []].
  destruct (Main.concentration degrees) as [more|] eqn:Hm; cbn [bind];
    [|intros [= <-] []].
  intros [= <-] Hin. apply in_app_or in Hin as [Hin|Hin].
  - apply (RingFacts.reported_cycles_go_round s _ _ cycles cyc nodes
             risk_level description
             (ConsistentFacts.session_consistent answers) Hcb Hc Hin).
  - exfalso. unfold Main.concentration in Hm.
    destruct degrees; [injection Hm as <-; destruct Hin|].
    destruct (Main.threshold _) as [limit|]; cbn [bind] in Hm;
      [|discriminate].
    injection Hm as <-.
    exact (RingFacts.no_cycle_over_threshold limit (Some "high")
             (p :: degrees) _ _ _ Hin).
Qed.

Lemma main_cycle_findings_follow_relationships_witness :
  Main.detect_suspicious_patterns (Page.session [Some Round.batch])
  = Ok [ciclo_sospechoso ["B"; "A"; "C"] (Some "high") description_ciclo] /\
  ring (related (Page.session [Some Round.batch])) ["B"; "A"; "C"].
Proof.
  assert (H : Main.detect_suspicious_patterns
                (Page.session [Some Round.batch])
              = Ok [ciclo_sospechoso ["B"; "A"; "C"] (Some "high")
                      description_ciclo])
    by (vm_compute; reflexivity).
  split; [exact H|].
  exact (main_cycle_findings_follow_relationships
           [Some Round.batch] _ ["B"; "A"; "C"] (Some "high")
           description_ciclo H (or_introl eq_refl)).
Defined.
